(** * ylog: rotating file logger, writer logger, header formatter and levels

    A shallow embedding of the Go package [ylog] and the properties of its
    rotation-and-write engine: the rotate logger and the writer logger,
    the rotation step of the former revision of the rotate logger, and the
    package-level logger [Legacy].

    - Go [string] and [[]byte] values are byte sequences; both are modelled
      by [string] (a sequence of 8-bit [ascii] characters).
    - Go [int32] / [int64] values are modelled by [Z] with the wrap-around
      of the fixed-width arithmetic written out ([int32], [int64]).
    - The operating system (files, directories) is an interface [OS]; the
      program is parametric in it, and two instances run it on concrete
      inputs: an in-memory device [MemFS] and a device that takes
      everything [NullOS].
    - [time.Now()] and [runtime.Caller] results are inputs of [Output]. *)

From Stdlib Require Import ZArith Ascii String Sorted.
From stdpp Require Import base numbers list strings gmap pretty.

Local Open Scope Z_scope.

(** ** Fixed-width integers *)

Definition wrap (w : Z) (z : Z) : Z :=
  (z + 2 ^ (w - 1)) mod 2 ^ w - 2 ^ (w - 1).

Definition int32 (z : Z) : Z := wrap 32 z.
Definition int64 (z : Z) : Z := wrap 64 z.

Definition MaxInt32 : Z := 2147483647.
Definition MinInt32 : Z := -2147483648.
Definition MaxInt64 : Z := 9223372036854775807.
Definition MinInt64 : Z := -9223372036854775808.

Definition is_int32 (z : Z) : Prop := MinInt32 <= z <= MaxInt32.
Definition is_int64 (z : Z) : Prop := MinInt64 <= z <= MaxInt64.

(** ** Byte strings *)

Definition newline : ascii := "010"%char.
Definition slash : ascii := "/"%char.

(** [len(s)] *)
Definition len (s : string) : Z := Z.of_nat (String.length s).

(** [s[i]], for [0 <= i < len(s)] (Go panics outside that range). *)
Definition byte_at (s : string) (i : Z) : option ascii :=
  if i <? 0 then None else String.get (Z.to_nat i) s.

(** [s[i:]], for [0 <= i <= len(s)] (Go panics outside that range). *)
Fixpoint drop_bytes (n : nat) (s : string) : string :=
  match n, s with
  | O, _ => s
  | S n', String _ s' => drop_bytes n' s'
  | S _, EmptyString => EmptyString
  end.

Definition slice_from (s : string) (i : Z) : string :=
  drop_bytes (Z.to_nat i) s.

(** [strings.LastIndexByte(s, c)]: the index of the last [c] in [s], or
    [-1] when [c] does not occur. *)
Fixpoint LastIndexByte (s : string) (c : ascii) : Z :=
  match s with
  | EmptyString => -1
  | String a s' =>
      let r := LastIndexByte s' c in
      if 0 <=? r then r + 1
      else if Ascii.eqb a c then 0 else -1
  end.

Fixpoint contains_byte (c : ascii) (s : string) : bool :=
  match s with
  | EmptyString => false
  | String a s' => Ascii.eqb a c || contains_byte c s'
  end.

(** ** [fmt.Sprintf] verbs used by the package *)

(** [%d]: plain decimal rendering, with a leading minus sign for negative
    numbers. *)
Definition Sprintf_d (n : Z) : string := pretty n.

Fixpoint zeros (n : nat) : string :=
  match n with
  | O => EmptyString
  | S n' => String "0"%char (zeros n')
  end.

(** Left padding with zeros up to a minimal width. *)
Definition zero_pad (w : nat) (s : string) : string :=
  zeros (w - String.length s) +:+ s.

(** [%0wd]: the digits are padded with zeros on the left up to width [w];
    a minus sign counts for the width and precedes the zeros. *)
Definition Sprintf_0d (w : nat) (n : Z) : string :=
  if n <? 0 then "-" +:+ zero_pad (w - 1) (pretty (Z.to_N (- n)))
  else zero_pad w (pretty (Z.to_N n)).

(** ** [time.Time], reduced to the fields the package reads *)

Record Time := mkTime {
  Year : Z;
  Month : Z;
  Day : Z;
  Hour : Z;
  Minute : Z;
  Second : Z;
  Nanosecond : Z
}.

(** ** Log levels *)

Module Level.

Definition LogLevel := Z.

Definition TRACE : LogLevel := 0.
Definition DEBUG : LogLevel := 1.
Definition WARN : LogLevel := 2.
Definition ERROR : LogLevel := 3.
Definition INFO : LogLevel := 4.
Definition FATAL : LogLevel := 5.

Definition LogLevelName (level : LogLevel) : string :=
  if level =? TRACE then "TRACE"
  else if level =? DEBUG then "DEBUG"
  else if level =? WARN then "WARN"
  else if level =? ERROR then "ERROR"
  else if level =? INFO then "INFO"
  else if level =? FATAL then "FATAL"
  else "unknown".

Definition LogLevelMap : gmap string LogLevel :=
  <["TRACE" := TRACE]> (<["DEBUG" := DEBUG]> (<["WARN" := WARN]>
  (<["ERROR" := ERROR]> (<["INFO" := INFO]> (<["FATAL" := FATAL]> ∅))))).

End Level.
Export Level.

(** The six levels. *)
Definition levels : list LogLevel := [TRACE; DEBUG; WARN; ERROR; INFO; FATAL].

(** ** The header formatter *)

(** [formatHeader] appends [YYYYMMDD HH:MM:SS.NNNNNN|FILE:LINE|FUNC|] to the
    buffer. *)
Definition formatHeader (buf : string) (t : Time) (file : string) (line : Z)
    (fn : string) : string :=
  (* set date and time *)
  let buf := buf +:+ (Sprintf_0d 4 (Year t) +:+ Sprintf_0d 2 (Month t)
                      +:+ Sprintf_0d 2 (Day t)) in
  let buf := buf +:+ (" " +:+ Sprintf_0d 2 (Hour t) +:+ ":"
                      +:+ Sprintf_0d 2 (Minute t) +:+ ":"
                      +:+ Sprintf_0d 2 (Second t) +:+ "."
                      +:+ Sprintf_0d 6 (Z.quot (Nanosecond t) 1000) +:+ "|") in
  (* set file, line and func name *)
  let offset := LastIndexByte file slash in
  let buf := buf +:+ slice_from file (offset + 1) in
  let buf := buf +:+ ":" in
  let buf := buf +:+ Sprintf_d line in
  let buf := buf +:+ "|" in
  let buf := buf +:+ fn in
  let buf := buf +:+ "|" in
  buf.

Definition t_example : Time := mkTime 2024 3 7 9 5 59 123456789.


(** ** Errors and the operating-system interface *)

Inductive error :=
| ErrNotExist
| ErrPermission
| ErrInvalid
| ErrNoSpace
| ErrOther (msg : string).

(** [os.IsNotExist(err)] *)
Definition IsNotExist (err : error) : bool :=
  match err with
  | ErrNotExist => true
  | _ => false
  end.

(** The system calls the package makes.  [Stat] and [FileStat] return the
    size of the file; [OpenFile] is always called with
    [O_CREATE|O_WRONLY|O_APPEND] and mode [0644], [MkdirAll] with mode
    [0755]; the result of [FileClose] is ignored by the package. *)
Record OS := mkOS {
  World : Type;
  File : Type;
  MkdirAll : string -> World -> option error * World;
  Stat : string -> World -> Z + error;
  OpenFile : string -> World -> (File + error) * World;
  FileStat : File -> World -> Z + error;
  FileWrite : File -> string -> World -> (Z * option error) * World;
  FileClose : File -> World -> World;
  Join : string -> string -> string
}.

(** What [runtime.Caller(skip)] followed by [runtime.FuncForPC(pc).Name()]
    resolves to: file, line and function name, or [None] when the frame
    cannot be resolved. *)
Definition Frames := Z -> option (string * Z * string).

Definition DEFAULT_BUFFER_SIZE : Z := 4096.
Definition DEFAULT_LOG_FILE_SIZE : Z := 512 * 1024 * 1024.

(** [getLogFileName(t, id)] *)
Definition getLogFileName (t : Time) (id : Z) : string :=
  let fname := Sprintf_0d 4 (Year t) +:+ Sprintf_0d 2 (Month t)
               +:+ Sprintf_0d 2 (Day t) +:+ Sprintf_0d 2 (Hour t) +:+ ".log" in
  if 0 <? id then fname +:+ ("." +:+ Sprintf_d id) else fname.

(** The message after the header: [s], followed by a line terminator when
    [len(s) == 0 || s[len(s)-1] != '\n']. *)
Definition needs_newline (s : string) : bool :=
  (len s =? 0) || negb (bool_decide (byte_at s (len s - 1) = Some newline)).

(** How a call of a leveled method ends: it returns, or the process exits
    with a status. *)
Inductive Outcome (S : Type) :=
| Returned (st : S)
| Exited (code : Z) (st : S).
Arguments Returned {S} st.
Arguments Exited {S} code st.

(** ** RotateLogger *)

Section Rotate.

Variable os : OS.

(** The default header flags and the flag-aware header formatter are
    declared in another file of the package; the logger is parametric in
    them. *)
Variable LdefaultFlags : Z.
Variable formatHeaderFlags :
  string -> Z -> Time -> string -> Z -> string -> string.

Record RotateLogger := mkRotateLogger {
  logDir : string;          (* log dir *)
  level : LogLevel;         (* log level *)
  logSizeLimit : Z;         (* log file size limit *)
  flags : Z;                (* properties *)
  buf : string;             (* buffer (contents) *)
  f : option (File os);     (* destination of output, [None] is nil *)
  fname : string;           (* current log file name YYYYMMDDHH.log *)
  nbytes : Z;               (* current log file size (Byte) *)
  fid : Z                   (* log file id *)
}.

Definition set_level (v : LogLevel) (l : RotateLogger) : RotateLogger :=
  mkRotateLogger (logDir l) v (logSizeLimit l) (flags l) (buf l) (f l)
    (fname l) (nbytes l) (fid l).
Definition set_logSizeLimit (v : Z) (l : RotateLogger) : RotateLogger :=
  mkRotateLogger (logDir l) (level l) v (flags l) (buf l) (f l)
    (fname l) (nbytes l) (fid l).
Definition set_flags (v : Z) (l : RotateLogger) : RotateLogger :=
  mkRotateLogger (logDir l) (level l) (logSizeLimit l) v (buf l) (f l)
    (fname l) (nbytes l) (fid l).
Definition set_buf (v : string) (l : RotateLogger) : RotateLogger :=
  mkRotateLogger (logDir l) (level l) (logSizeLimit l) (flags l) v (f l)
    (fname l) (nbytes l) (fid l).
Definition set_f (v : option (File os)) (l : RotateLogger) : RotateLogger :=
  mkRotateLogger (logDir l) (level l) (logSizeLimit l) (flags l) (buf l) v
    (fname l) (nbytes l) (fid l).
Definition set_fname (v : string) (l : RotateLogger) : RotateLogger :=
  mkRotateLogger (logDir l) (level l) (logSizeLimit l) (flags l) (buf l)
    (f l) v (nbytes l) (fid l).
Definition set_nbytes (v : Z) (l : RotateLogger) : RotateLogger :=
  mkRotateLogger (logDir l) (level l) (logSizeLimit l) (flags l) (buf l)
    (f l) (fname l) v (fid l).
Definition set_fid (v : Z) (l : RotateLogger) : RotateLogger :=
  mkRotateLogger (logDir l) (level l) (logSizeLimit l) (flags l) (buf l)
    (f l) (fname l) (nbytes l) v.

(** The name of the file designated by [l.fname] and [l.fid]. *)
Definition targetName (l : RotateLogger) : string :=
  if 0 <? fid l then fname l +:+ ("." +:+ Sprintf_d (fid l)) else fname l.

(** [createFile] creates a log file according to [l.fname] and [l.fid]. *)
Definition createFile (l : RotateLogger) (w : World os)
  : option error * RotateLogger * World os :=
  let fileName := targetName l in
  let filePath := Join os (logDir l) fileName in
  match OpenFile os filePath w with
  | (inr err, w) => (Some err, set_f None l, w)
  | (inl h, w) =>
      let l := set_f (Some h) l in
      (* ignore error *)
      let l := match FileStat os h w with
               | inl size => set_nbytes size l
               | inr _ => l
               end in
      (None, l, w)
  end.

(** The body of the scan loop [for i := 1; i < 100; i++] of
    [NewRotateLogger], over the list of the remaining values of [i]. *)
Fixpoint scanLoop (ids : list Z) (now : Time) (l : RotateLogger)
    (w : World os) : option error * RotateLogger :=
  match ids with
  | [] => (None, l)
  | i :: rest =>
      let filePath := Join os (logDir l) (getLogFileName now (int32 i)) in
      match Stat os filePath w with
      | inl _ => scanLoop rest now (set_fid (int32 (fid l + 1)) l) w
      | inr err =>
          if IsNotExist err then (None, l) else (Some err, l)
      end
  end.

(** [NewRotateLogger(logDir, level)]; [now] is what [time.Now()] returns.
    The result is the pair the Go function returns, and the world. *)
Definition NewRotateLogger (logDir : string) (level : LogLevel)
    (now : Time) (w : World os)
  : option RotateLogger * option error * World os :=
  let l := mkRotateLogger logDir level DEFAULT_LOG_FILE_SIZE LdefaultFlags
             EmptyString None EmptyString 0 0 in
  (* make log director *)
  match MkdirAll os logDir w with
  | (Some err, w) => (None, Some err, w)
  | (None, w) =>
      let l := set_fname (getLogFileName now 0) l in
      let l := set_fid 0 l in
      match scanLoop (seqZ 1 99) now l w with
      | (Some err, _) => (None, Some err, w)
      | (None, l) =>
          (* create file *)
          match createFile l w with
          | (Some err, _, w) => (None, Some err, w)
          | (None, l, w) => (Some l, None, w)
          end
      end
  end.

Definition rotateFile (now : Time) (l : RotateLogger) (w : World os)
  : option error * RotateLogger * World os :=
  let currentFileName := getLogFileName now 0 in
  let '(l, needCreateFile) :=
    if bool_decide (fname l ≠ currentFileName) then
      (* current log file is too old *)
      (set_fid 0 (set_fname currentFileName l), true)
    else if (0 <? logSizeLimit l) && (logSizeLimit l <=? nbytes l) then
      (* current log file is too large *)
      (set_fid (int32 (fid l + 1)) l, true)
    else if bool_decide (f l = None :> option (File os)) then (l, true)
    else (l, false) in
  if needCreateFile : bool then
    let '(l, w) :=
      match f l with
      | Some h => (set_f None (set_nbytes 0 l), FileClose os h w)
      | None => (l, w)
      end in
    createFile l w
  else (None, l, w).

(** [LogSizeLimit], [SetLogSizeLimit], [Flags], [SetFlags], [LogLevel]
    and [SetLogLevel]. *)
Definition LogSizeLimit (l : RotateLogger) : Z := logSizeLimit l.
Definition SetLogSizeLimit (v : Z) (l : RotateLogger) : RotateLogger :=
  set_logSizeLimit v l.
Definition Flags (l : RotateLogger) : Z := flags l.
Definition SetFlags (v : Z) (l : RotateLogger) : RotateLogger :=
  set_flags v l.
Definition LogLevel_of (l : RotateLogger) : LogLevel := level l.
Definition SetLogLevel (v : LogLevel) (l : RotateLogger) : RotateLogger :=
  set_level v l.

(** The placeholders of an unresolved caller. *)
Definition resolve (frames : Frames) (skipdepth : Z) : string * Z * string :=
  match frames skipdepth with
  | None => ("????", 0, "unknown")
  | Some fr => fr
  end.

(** [Output] outputs content to the log file.  [now] is what [time.Now()]
    returns at the entry of the call and [frames] what the caller
    resolution returns.  Both branches of the buffer reset leave an empty
    buffer (they differ in its capacity only). *)
Definition Output (now : Time) (frames : Frames) (skipdepth : Z)
    (s : string) (l : RotateLogger) (w : World os)
  : option error * RotateLogger * World os :=
  let '(file, line, fn) := resolve frames skipdepth in
  match rotateFile now l w with
  | (Some err, l, w) => (Some err, l, w)
  | (None, l, w) =>
      let b := EmptyString in
      let b := formatHeaderFlags b (flags l) now file line fn in
      let b := b +:+ s in
      let b := if needs_newline s then b +:+ String newline EmptyString
               else b in
      let l := set_buf b l in
      let '((nn, err), w) :=
        match f l with
        | Some h => FileWrite os h b w
        | None => ((0, Some ErrInvalid), w)
        end in
      let l := set_nbytes (int64 (nbytes l + nn)) l in
      (err, l, w)
  end.

(** The leveled methods.  [m] stands for the text [fmt.Sprintf(format,
    v...)] (the [f] variants) or [fmt.Sprintln(v...)] (the others); the
    error [Output] returns is dropped by all of them.  The state the
    methods act on is the logger and the world, together with a ghost
    record [calls] of the invocations of [Output] made so far (skip depth
    and content). *)
Record St := mkSt {
  logger : RotateLogger;
  world : World os;
  calls : list (Z * string)
}.

(** [l.Output(2, s)], result dropped. *)
Definition emit (now : Time) (frames : Frames) (s : string) (st : St) : St :=
  let '(_, l, w) := Output now frames 2 s (logger st) (world st) in
  mkSt l w (calls st ++ [(2, s)]).

Definition Fatalf (now : Time) (frames : Frames) (m : string) (st : St)
  : Outcome St :=
  let st := emit now frames ("FATAL|" +:+ m) st in
  Exited 1 st.

Definition Fatal (now : Time) (frames : Frames) (m : string) (st : St)
  : Outcome St :=
  let st := emit now frames ("FATAL|" +:+ m) st in
  Exited 1 st.

Definition Infof (now : Time) (frames : Frames) (m : string) (st : St)
  : Outcome St :=
  Returned (emit now frames ("INFO|" +:+ m) st).

Definition Info (now : Time) (frames : Frames) (m : string) (st : St)
  : Outcome St :=
  Returned (emit now frames ("INFO|" +:+ m) st).

Definition Errorf (now : Time) (frames : Frames) (m : string) (st : St)
  : Outcome St :=
  if LogLevel_of (logger st) <=? ERROR
  then Returned (emit now frames ("ERROR|" +:+ m) st)
  else Returned st.

Definition Error (now : Time) (frames : Frames) (m : string) (st : St)
  : Outcome St :=
  if LogLevel_of (logger st) <=? ERROR
  then Returned (emit now frames ("ERROR|" +:+ m) st)
  else Returned st.

Definition Warnf (now : Time) (frames : Frames) (m : string) (st : St)
  : Outcome St :=
  if LogLevel_of (logger st) <=? WARN
  then Returned (emit now frames ("WARN|" +:+ m) st)
  else Returned st.

Definition Warn (now : Time) (frames : Frames) (m : string) (st : St)
  : Outcome St :=
  if LogLevel_of (logger st) <=? WARN
  then Returned (emit now frames ("WARN|" +:+ m) st)
  else Returned st.

Definition Tracef (now : Time) (frames : Frames) (m : string) (st : St)
  : Outcome St :=
  if LogLevel_of (logger st) <=? TRACE
  then Returned (emit now frames ("TRACE|" +:+ m) st)
  else Returned st.

Definition Trace (now : Time) (frames : Frames) (m : string) (st : St)
  : Outcome St :=
  if LogLevel_of (logger st) <=? TRACE
  then Returned (emit now frames ("TRACE|" +:+ m) st)
  else Returned st.

Definition Debugf (now : Time) (frames : Frames) (m : string) (st : St)
  : Outcome St :=
  if LogLevel_of (logger st) <=? DEBUG
  then Returned (emit now frames ("DEBUG|" +:+ m) st)
  else Returned st.

Definition Debug (now : Time) (frames : Frames) (m : string) (st : St)
  : Outcome St :=
  if LogLevel_of (logger st) <=? DEBUG
  then Returned (emit now frames ("DEBUG|" +:+ m) st)
  else Returned st.

End Rotate.

Arguments logDir {os} _.
Arguments level {os} _.
Arguments logSizeLimit {os} _.
Arguments flags {os} _.
Arguments buf {os} _.
Arguments f {os} _.
Arguments fname {os} _.
Arguments nbytes {os} _.
Arguments fid {os} _.
Arguments targetName {os} _.
Arguments logger {os} _.
Arguments world {os} _.
Arguments calls {os} _.

(** ** WriterLogger *)

Section Writer.

(** An [io.Writer]: its state and its [Write] method. *)
Variable Sink : Type.
Variable Write : string -> Sink -> (Z * option error) * Sink.

Record WriterLogger := mkWriterLogger {
  wlevel : LogLevel;   (* log level *)
  wbuf : string;       (* buffer (contents) *)
  out : Sink           (* destination for output *)
}.

Definition NewWriterLogger (out : Sink) (level : LogLevel) : WriterLogger :=
  mkWriterLogger level EmptyString out.

(** [Output] of the writer logger: header, content, line terminator, one
    [Write]. *)
Definition WriterOutput (now : Time) (frames : Frames) (skipdepth : Z)
    (s : string) (l : WriterLogger) : option error * WriterLogger :=
  let '(file, line, fn) :=
    match frames skipdepth with
    | None => ("????", 0, "unknown")
    | Some fr => fr
    end in
  let b := EmptyString in
  let b := formatHeader b now file line fn in
  let b := b +:+ s in
  let b := if needs_newline s then b +:+ String newline EmptyString
           else b in
  let '((_, err), o) := Write b (out l) in
  (err, mkWriterLogger (wlevel l) b o).

End Writer.

Arguments wlevel {Sink} _.
Arguments wbuf {Sink} _.
Arguments out {Sink} _.

(** ** Runs of calls *)

(** One call of [Output]: what the clock and the caller resolution return
    during it, and its arguments. *)
Record Call := mkCall {
  c_now : Time;
  c_frames : Frames;
  c_skip : Z;
  c_msg : string
}.

(** ** An in-memory operating system *)

Module MemFS.

(** Files by path (an association list with at most one entry for a
    path), the paths every access to which is refused, and the number of
    bytes that can still be written to the device. *)
Record Mem := mkMem {
  files : list (string * string);
  denied : list string;
  room : Z
}.

Fixpoint lookup_file (p : string) (fs : list (string * string))
  : option string :=
  match fs with
  | [] => None
  | (q, c) :: fs' => if String.eqb p q then Some c else lookup_file p fs'
  end.

Fixpoint store_file (p : string) (c : string) (fs : list (string * string))
  : list (string * string) :=
  match fs with
  | [] => [(p, c)]
  | (q, d) :: fs' =>
      if String.eqb p q then (p, c) :: fs' else (q, d) :: store_file p c fs'
  end.

Definition is_denied (p : string) (w : Mem) : bool :=
  existsb (String.eqb p) (denied w).

Fixpoint take_bytes (n : nat) (s : string) : string :=
  match n, s with
  | O, _ => EmptyString
  | S n', String a s' => String a (take_bytes n' s')
  | S _, EmptyString => EmptyString
  end.

Definition mkdirAll (p : string) (w : Mem) : option error * Mem :=
  if is_denied p w then (Some ErrPermission, w) else (None, w).

Definition stat (p : string) (w : Mem) : Z + error :=
  if is_denied p w then inr ErrPermission
  else match lookup_file p (files w) with
       | Some c => inl (len c)
       | None => inr ErrNotExist
       end.

Definition openFile (p : string) (w : Mem) : (string + error) * Mem :=
  if is_denied p w then (inr ErrPermission, w)
  else match lookup_file p (files w) with
       | Some _ => (inl p, w)
       | None => (inl p, mkMem (store_file p EmptyString (files w)) (denied w)
                           (room w))
       end.

Definition fileStat (h : string) (w : Mem) : Z + error :=
  match lookup_file h (files w) with
  | Some c => inl (len c)
  | None => inr ErrNotExist
  end.

Definition fileWrite (h : string) (b : string) (w : Mem)
  : (Z * option error) * Mem :=
  match lookup_file h (files w) with
  | None => ((0, Some ErrInvalid), w)
  | Some c =>
      let n := Z.max 0 (Z.min (len b) (room w)) in
      let c' := c +:+ take_bytes (Z.to_nat n) b in
      ((n, if n <? len b then Some ErrNoSpace else None),
       mkMem (store_file h c' (files w)) (denied w) (room w - n))
  end.

Definition fileClose (h : string) (w : Mem) : Mem := w.

Definition join (d n : string) : string := d +:+ "/" +:+ n.

Definition mem_os : OS :=
  mkOS Mem string mkdirAll stat openFile fileStat fileWrite fileClose join.

(** The flag-aware formatter is instantiated by the formatter of the
    package, ignoring the flags. *)
Definition header (b : string) (_ : Z) (t : Time) (file : string) (line : Z)
    (fn : string) : string := formatHeader b t file line fn.

Definition no_frames : Frames := fun _ => None.
Definition main_frames : Frames :=
  fun _ => Some ("/srv/app/main.go", 17, "main.main").

(** An empty device with plenty of room. *)
Definition empty_mem : Mem := mkMem [] [] 1000000.

(** Two timestamps in consecutive hours. *)
Definition t0 : Time := mkTime 2024 3 7 9 5 59 123456789.
Definition t1 : Time := mkTime 2024 3 7 10 0 0 1999.

(** A device holding the first log file of the hour of [t0], 80 bytes
    long, and a logger writing to it under a limit of 64 bytes. *)
Definition line40 : string := "0123456789012345678901234567890123456789".

Definition sample_mem : Mem :=
  mkMem [("logs/2024030709.log", line40 +:+ line40)] [] 1000000.

Definition sample_logger : RotateLogger mem_os :=
  mkRotateLogger mem_os "logs" WARN 64 0 EmptyString
    (Some "logs/2024030709.log") "2024030709.log" 80 0.

(** The same logger with size-based rotation disabled. *)
Definition unlimited_logger : RotateLogger mem_os :=
  SetLogSizeLimit mem_os 0 sample_logger.

(** The second component of a result. *)
Definition logger_of {A B C : Type} (r : A * B * C) : B := snd (fst r).
Definition error_of {A B C : Type} (r : A * B * C) : A := fst (fst r).
Definition world_of {A B C : Type} (r : A * B * C) : C := snd r.

(** Two calls in the hour of [t0]. *)
Definition two_calls : list Call :=
  [mkCall t0 main_frames 2 "TRACE|first"; mkCall t0 no_frames 2 "TRACE|second"].

(** The same device with room for ten more bytes only. *)
Definition tight_mem : Mem :=
  mkMem [("logs/2024030709.log", line40 +:+ line40)] [] 10.

(** A sink made on the empty device, given a limit of 64 bytes, after one
    record of more than 64 bytes; and the device with the next file of the
    hour out of reach. *)
Definition fresh_mem : Mem :=
  mkMem [("logs/2024030709.log", EmptyString)] [] 1000000.

Definition fresh_logger : RotateLogger mem_os :=
  mkRotateLogger mem_os "logs" WARN DEFAULT_LOG_FILE_SIZE 0 EmptyString
    (Some "logs/2024030709.log") "2024030709.log" 0 0.

Definition busy : option error * RotateLogger mem_os * Mem :=
  Output mem_os header t0 main_frames 2 ("WARN|" +:+ line40)
    (SetLogSizeLimit mem_os 64 fresh_logger) fresh_mem.

Definition busy_logger : RotateLogger mem_os := logger_of busy.

Definition denied_mem : Mem :=
  mkMem (files (world_of busy)) ["logs/2024030709.log.1"]
    (room (world_of busy)).

(** The failed roll to the second file of the hour. *)
Definition failed : option error * RotateLogger mem_os * Mem :=
  Output mem_os header t0 main_frames 2 "WARN|again" busy_logger denied_mem.

(** The sample logger, at threshold [WARN], before any call. *)
Definition sample_st : St mem_os := mkSt mem_os sample_logger sample_mem [].

(** A device on which a former run has left the first file of the hour
    and the segments 1 to 100. *)
Definition segment (i : Z) : string * string :=
  ("logs/" +:+ getLogFileName t0 i, "x").

Definition crowded_mem : Mem :=
  mkMem (segment <$> seqZ 0 101) [] 1000000.

(** A device on which segment 2 of the hour has been removed, segments 1
    and 3 being left. *)
Definition gapped_mem : Mem :=
  mkMem (segment <$> [0; 1; 3]) [] 1000000.

End MemFS.


(** ** Vocabulary of the statements *)

(** The twelve leveled methods of the [Logger] interface. *)
Inductive Method :=
| MTracef | MTrace | MDebugf | MDebug | MWarnf | MWarn
| MErrorf | MError | MInfof | MInfo | MFatalf | MFatal.

(** The severity and the tag of the records a method writes. *)
Definition severity (meth : Method) : LogLevel :=
  match meth with
  | MTracef | MTrace => TRACE
  | MDebugf | MDebug => DEBUG
  | MWarnf | MWarn => WARN
  | MErrorf | MError => ERROR
  | MInfof | MInfo => INFO
  | MFatalf | MFatal => FATAL
  end.

Definition tag (meth : Method) : string :=
  match meth with
  | MTracef | MTrace => "TRACE|"
  | MDebugf | MDebug => "DEBUG|"
  | MWarnf | MWarn => "WARN|"
  | MErrorf | MError => "ERROR|"
  | MInfof | MInfo => "INFO|"
  | MFatalf | MFatal => "FATAL|"
  end.

Inductive Kind := Filtered | Unconditional | Terminating.

Definition kind (meth : Method) : Kind :=
  match meth with
  | MInfof | MInfo => Unconditional
  | MFatalf | MFatal => Terminating
  | _ => Filtered
  end.

Definition final {S : Type} (r : Outcome S) : S :=
  match r with
  | Returned st => st
  | Exited _ st => st
  end.

Definition exit_status {S : Type} (r : Outcome S) : option Z :=
  match r with
  | Returned _ => None
  | Exited code _ => Some code
  end.

Section Vocabulary.

Variable os : OS.
Variable formatHeaderFlags :
  string -> Z -> Time -> string -> Z -> string -> string.

(** The method of the rotate logger a name stands for. *)
Definition call (meth : Method)
  : Time -> Frames -> string -> St os -> Outcome (St os) :=
  match meth with
  | MTracef => Tracef os formatHeaderFlags
  | MTrace => Trace os formatHeaderFlags
  | MDebugf => Debugf os formatHeaderFlags
  | MDebug => Debug os formatHeaderFlags
  | MWarnf => Warnf os formatHeaderFlags
  | MWarn => Warn os formatHeaderFlags
  | MErrorf => Errorf os formatHeaderFlags
  | MError => Error os formatHeaderFlags
  | MInfof => Infof os formatHeaderFlags
  | MInfo => Info os formatHeaderFlags
  | MFatalf => Fatalf os formatHeaderFlags
  | MFatal => Fatal os formatHeaderFlags
  end.

End Vocabulary.

(** The rotation decision in the words of the design: the four cases, in
    their order. *)
Inductive Decision := NewBucket | NextSequence | Reopen | NoRotation.

Section Decisions.

Variable os : OS.

(** The bucket key of a timestamp. *)
Definition bucketKey (now : Time) : string := getLogFileName now 0.

Definition sizeLimitReached (l : RotateLogger os) : Prop :=
  0 < logSizeLimit l /\ logSizeLimit l <= nbytes l.

Definition decision (now : Time) (l : RotateLogger os) : Decision :=
  if decide (fname l <> bucketKey now) then NewBucket
  else if decide (sizeLimitReached l) then NextSequence
  else match f l with
       | None => Reopen
       | Some _ => NoRotation
       end.

(** The target a decision designates. *)
Definition retarget (d : Decision) (now : Time) (l : RotateLogger os)
  : RotateLogger os :=
  match d with
  | NewBucket => set_fid os 0 (set_fname os (bucketKey now) l)
  | NextSequence => set_fid os (int32 (fid l + 1)) l
  | Reopen | NoRotation => l
  end.

(** Closing the current file, when there is one. *)
Definition closeCurrent (l : RotateLogger os) (w : World os)
  : RotateLogger os * World os :=
  match f l with
  | Some h => (set_f os None (set_nbytes os 0 l), FileClose os h w)
  | None => (l, w)
  end.

(** Carrying a decision out: nothing for [NoRotation]; otherwise close the
    current file and open the file of the new target. *)
Definition perform (d : Decision) (now : Time) (l : RotateLogger os)
    (w : World os) : option error * RotateLogger os * World os :=
  match d with
  | NoRotation => (None, l, w)
  | _ =>
      let '(l1, w1) := closeCurrent (retarget d now l) w in
      createFile os l1 w1
  end.

End Decisions.

Arguments bucketKey now : simpl never.

(** The placeholders of an unresolved caller. *)
Definition unresolved : Frames := fun _ => Some ("????", 0, "unknown").

Section Records.

Variable formatHeaderFlags :
  string -> Z -> Time -> string -> Z -> string -> string.

(** The bytes [Output] hands to the file: header, content, and a line
    terminator when the content asks for one. *)
Definition record (now : Time) (frames : Frames) (skipdepth : Z)
    (s : string) (fl : Z) : string :=
  let '(file, line, fn) := resolve frames skipdepth in
  let b := formatHeaderFlags EmptyString fl now file line fn +:+ s in
  if needs_newline s then b +:+ String newline EmptyString else b.

End Records.

(** ** The rotation step of the former revision *)

Section Former.

Variable os : OS.

(** The former revision of [rotateFile] compares the byte counter with the
    limit without asking the limit to be positive.  In that revision the
    limit is the default one from construction on: the logger has no
    setter for it. *)
Definition rotateFile_former (now : Time) (l : RotateLogger os) (w : World os)
  : option error * RotateLogger os * World os :=
  let currentFileName := getLogFileName now 0 in
  let '(l, needCreateFile) :=
    if bool_decide (fname l ≠ currentFileName) then
      (* current log file is too old *)
      (set_fid os 0 (set_fname os currentFileName l), true)
    else if logSizeLimit l <=? nbytes l then
      (* current log file is too large *)
      (set_fid os (int32 (fid l + 1)) l, true)
    else if bool_decide (f l = None :> option (File os)) then (l, true)
    else (l, false) in
  if needCreateFile : bool then
    let '(l, w) :=
      match f l with
      | Some h => (set_f os None (set_nbytes os 0 l), FileClose os h w)
      | None => (l, w)
      end in
    createFile os l w
  else (None, l, w).

(** [Output] of the former revision: the rotation step above, and the
    header formatter without flags. *)
Definition Output_former (now : Time) (frames : Frames) (skipdepth : Z)
    (s : string) (l : RotateLogger os) (w : World os)
  : option error * RotateLogger os * World os :=
  let '(file, line, fn) := resolve frames skipdepth in
  match rotateFile_former now l w with
  | (Some err, l, w) => (Some err, l, w)
  | (None, l, w) =>
      let b := EmptyString in
      let b := formatHeader b now file line fn in
      let b := b +:+ s in
      let b := if needs_newline s then b +:+ String newline EmptyString
               else b in
      let l := set_buf os b l in
      let '((nn, err), w) :=
        match f l with
        | Some h => FileWrite os h b w
        | None => ((0, Some ErrInvalid), w)
        end in
      let l := set_nbytes os (int64 (nbytes l + nn)) l in
      (err, l, w)
  end.

(** The loggers of the former revision: made by its constructor (that of
    the present revision, without flags), then used through [Output] and
    [SetLogLevel], the methods it has. *)
Inductive ReachableFormer : RotateLogger os -> Prop :=
| former_New logDir level now w l w' :
    NewRotateLogger os 0 logDir level now w = (Some l, None, w') ->
    ReachableFormer l
| former_Output now frames skip s l w e l' w' :
    ReachableFormer l ->
    Output_former now frames skip s l w = (e, l', w') ->
    ReachableFormer l'
| former_SetLogLevel v l :
    ReachableFormer l -> ReachableFormer (SetLogLevel os v l).

End Former.

(** ** The buffered writer of the standard library *)

(** [bufio.Writer] as the package-level logger uses it, after the
    library: [NewWriter], [Available], [Buffered], [Flush] and [Write] on a
    buffer of [defaultBufSize] bytes over a file. *)
Module Bufio.

Section Writer.

Variable os : OS.

Definition defaultBufSize : Z := 4096.

(** [io.ErrShortWrite] *)
Definition ErrShortWrite : error := ErrOther "short write".

(** The state of a writer: its sticky error, the bytes [buf[0:n]] it
    holds, and the file under it. *)
Record Writer := mkWriter {
  err : option error;
  buf : string;
  wr : File os
}.

Definition NewWriter (h : File os) : Writer := mkWriter None EmptyString h.

Definition Available (b : Writer) : Z := defaultBufSize - len (buf b).
Definition Buffered (b : Writer) : Z := len (buf b).

(** [p[:n]] *)
Definition slice_to (p : string) (n : Z) : string :=
  String.substring 0 (Z.to_nat n) p.

(** [Flush] writes the buffered bytes to the file; after an error the
    bytes that were not written stay in the buffer and the error
    sticks. *)
Definition Flush (b : Writer) (w : World os)
  : option error * Writer * World os :=
  match err b with
  | Some e => (Some e, b, w)
  | None =>
      if Buffered b =? 0 then (None, b, w)
      else
        let '((n, e), w) := FileWrite os (wr b) (buf b) w in
        let e := match e with
                 | None => if n <? Buffered b then Some ErrShortWrite
                           else None
                 | Some _ => e
                 end in
        match e with
        | Some _ => (e, mkWriter e (slice_from (buf b) n) (wr b), w)
        | None => (None, mkWriter None EmptyString (wr b), w)
        end
  end.

(** [Flush], its result dropped. *)
Definition Flush_ (b : Writer) (w : World os) : Writer * World os :=
  let '(_, b, w) := Flush b w in (b, w).

(** The loop of [Write], [for len(p) > b.Available() && b.err == nil]:
    a write to the file itself when the buffer is empty, and otherwise
    the buffer filled up and flushed.  The result is the writer, what is
    left of [p], the count [nn] and the world. *)
Fixpoint writeLoop (fuel : nat) (b : Writer) (p : string) (nn : Z)
    (w : World os) : Writer * string * Z * World os :=
  match fuel with
  | O => (b, p, nn, w)
  | S fuel' =>
      if (Available b <? len p) && bool_decide (err b = None) then
        if Buffered b =? 0 then
          (* Large write, empty buffer. *)
          let '((n, e), w) := FileWrite os (wr b) p w in
          writeLoop fuel' (mkWriter e (buf b) (wr b)) (slice_from p n)
            (nn + n) w
        else
          let n := Z.min (Available b) (len p) in
          let b := mkWriter (err b) (buf b +:+ slice_to p n) (wr b) in
          let '(b, w) := Flush_ b w in
          writeLoop fuel' b (slice_from p n) (nn + n) w
      else (b, p, nn, w)
  end.

(** [Write].  The loop takes two turns at most over a file that reports
    an error whenever it writes less than it is given (lemma
    [writeLoop_done]). *)
Definition Write (b : Writer) (p : string) (w : World os)
  : (Z * option error) * Writer * World os :=
  let '(b, p, nn, w) := writeLoop 2 b p 0 w in
  match err b with
  | Some e => ((nn, Some e), b, w)
  | None =>
      let n := Z.min (Available b) (len p) in
      ((nn + n, None), mkWriter None (buf b +:+ slice_to p n) (wr b), w)
  end.

(** A file that reports an error whenever it writes less than it is
    given, as an [io.Writer] must. *)
Definition honest : Prop :=
  forall h p w n w', FileWrite os h p w = ((n, None), w') -> n = len p.

End Writer.

Arguments err {os} _.
Arguments buf {os} _.
Arguments wr {os} _.

End Bufio.

(** ** The package-level logger *)

Module Legacy.

(** The result of a call that may dereference a nil pointer. *)
Inductive Res (A : Type) :=
| Done (a : A)
| Panicked.
Arguments Done {A} a.
Arguments Panicked {A}.

Section Logger.

Variable os : OS.

(** [bufio.Writer]: its state, [bufio.NewWriter], [Write] and [Flush] (the
    result of [Flush] is ignored by the package). *)
Variable Writer : Type.
Variable NewWriter : File os -> Writer.
Variable Write :
  Writer -> string -> World os -> (Z * option error) * Writer * World os.
Variable Flush : Writer -> World os -> Writer * World os.

Record loggerT := mkLoggerT {
  level : LogLevel;          (* log level *)
  logDir : string;           (* log dir *)
  logSize : Z;               (* log file size limit (KByte) *)
  flushPeriod : Z;           (* flush period (Second) *)
  buf : string;              (* buffer (contents) *)
  out : option Writer;       (* buf writer associated with f *)
  f : option (File os);      (* destination of output *)
  fname : string;            (* current log file name YYYYMMDDHH.log *)
  nbytes : Z;                (* current log file size (Byte) *)
  fid : Z                    (* log file id *)
}.

(** [createFile(fname)].  The error of [l.f.Stat()] is assigned to the
    named result, so that it is what the function returns. *)
Definition createFile (name : string) (l : loggerT) (w : World os)
  : Res (option error * loggerT * World os) :=
  let closed :=
    match f l with
    | Some h =>
        match out l with
        | Some o =>
            let '(o, w) := Flush o w in
            Done (mkLoggerT (level l) (logDir l) (logSize l) (flushPeriod l)
                    (buf l) (Some o) (f l) (fname l) (nbytes l) (fid l),
                  FileClose os h w)
        | None => Panicked
        end
    | None => Done (l, w)
    end in
  match closed with
  | Panicked => Panicked
  | Done (l, w) =>
      let '(logPath, l) :=
        if bool_decide (fname l ≠ name) then
          (Join os (logDir l) name,
           mkLoggerT (level l) (logDir l) (logSize l) (flushPeriod l) (buf l)
             (out l) (f l) name (nbytes l) 0)
        else
          let i := int32 (fid l + 1) in
          (Join os (logDir l) (name +:+ ("." +:+ Sprintf_d i)),
           mkLoggerT (level l) (logDir l) (logSize l) (flushPeriod l) (buf l)
             (out l) (f l) (fname l) (nbytes l) i) in
      match OpenFile os logPath w with
      | (inr err, w) =>
          Done (Some err,
                mkLoggerT (level l) (logDir l) (logSize l) (flushPeriod l)
                  (buf l) None None (fname l) (nbytes l) (fid l),
                w)
      | (inl h, w) =>
          let o := NewWriter h in
          match FileStat os h w with
          | inr err =>
              Done (Some err,
                    mkLoggerT (level l) (logDir l) (logSize l) (flushPeriod l)
                      (buf l) (Some o) (Some h) (fname l) 0 (fid l),
                    w)
          | inl size =>
              Done (None,
                    mkLoggerT (level l) (logDir l) (logSize l) (flushPeriod l)
                      (buf l) (Some o) (Some h) (fname l) size (fid l),
                    w)
          end
      end
  end.

(** The record is put together before the file is checked. *)
Definition fill (now : Time) (frames : Frames) (skipdepth : Z) (s : string)
  : string :=
  let '(file, line, fn) :=
    match frames skipdepth with
    | None => ("????", 0, "unknown")
    | Some fr => fr
    end in
  let b := EmptyString in
  let b := formatHeader b now file line fn in
  let b := b +:+ s in
  if needs_newline s then b +:+ String newline EmptyString else b.

(** Whether a new file is needed. *)
Definition needFile (name : string) (l : loggerT) : bool :=
  bool_decide (f l = None :> option (File os))
  || bool_decide (fname l ≠ name)
  || ((0 <? logSize l)
      && (logSize l <? Z.quot (int64 (nbytes l + len (buf l))) 1024)).

(** The write, and the count. *)
Definition writeOut (l : loggerT) (w : World os)
  : Res (option error * loggerT * World os) :=
  match out l with
  | None => Panicked
  | Some o =>
      let '((_, err), o, w) := Write o (buf l) w in
      Done (err,
            mkLoggerT (level l) (logDir l) (logSize l) (flushPeriod l)
              (buf l) (Some o) (f l) (fname l)
              (int64 (nbytes l + len (buf l))) (fid l),
            w)
  end.

(** [Output] of the package-level logger. *)
Definition Output (now : Time) (frames : Frames) (skipdepth : Z) (s : string)
    (l : loggerT) (w : World os) : Res (option error * loggerT * World os) :=
  let l := mkLoggerT (level l) (logDir l) (logSize l) (flushPeriod l)
             (fill now frames skipdepth s) (out l) (f l) (fname l)
             (nbytes l) (fid l) in
  (* check if need to create new log file *)
  let name := getLogFileName now 0 in
  if needFile name l then
    match createFile name l w with
    | Panicked => Panicked
    | Done (Some err, l, w) => Done (Some err, l, w)
    | Done (None, l, w) => writeOut l w
    end
  else writeOut l w.

(** The file check of [Output] passes and leaves [l1] and [w1] for the
    write. *)
Definition prepared (now : Time) (frames : Frames) (skipdepth : Z)
    (s : string) (l : loggerT) (w : World os) (l1 : loggerT) (w1 : World os)
  : Prop :=
  let l0 := mkLoggerT (level l) (logDir l) (logSize l) (flushPeriod l)
              (fill now frames skipdepth s) (out l) (f l) (fname l)
              (nbytes l) (fid l) in
  (needFile (getLogFileName now 0) l0 = false /\ l1 = l0 /\ w1 = w) \/
  (needFile (getLogFileName now 0) l0 = true /\
   createFile (getLogFileName now 0) l0 w = Done (None, l1, w1)).

(** "The byte counter grows by the number of bytes the write reports." *)
Definition counts_reported_bytes : Prop :=
  forall now frames skipdepth s l w l1 w1 o nn err o' w2 e l' w',
    prepared now frames skipdepth s l w l1 w1 ->
    out l1 = Some o ->
    Write o (buf l1) w1 = ((nn, err), o', w2) ->
    Output now frames skipdepth s l w = Done (e, l', w') ->
    nbytes l' = nbytes l1 + nn.

End Logger.

Arguments level {os Writer} _.
Arguments logDir {os Writer} _.
Arguments logSize {os Writer} _.
Arguments flushPeriod {os Writer} _.
Arguments buf {os Writer} _.
Arguments out {os Writer} _.
Arguments f {os Writer} _.
Arguments fname {os Writer} _.
Arguments nbytes {os Writer} _.
Arguments fid {os Writer} _.

(** On the in-memory device: the package-level logger on the first file
    of the hour, 80 bytes long, its buffered writer empty, with splitting
    by size turned off; and a message of 4100 bytes. *)
Definition sample_logger
  : loggerT MemFS.mem_os (Bufio.Writer MemFS.mem_os) :=
  mkLoggerT MemFS.mem_os (Bufio.Writer MemFS.mem_os) WARN "logs" 0 5
    EmptyString (Some (Bufio.NewWriter MemFS.mem_os "logs/2024030709.log"))
    (Some "logs/2024030709.log") "2024030709.log" 80 0.

Definition long_message : string := zeros 4100.

End Legacy.

(** ** Runs of calls, continued *)

Section Runs.

Variable os : OS.
Variable formatHeaderFlags :
  string -> Z -> Time -> string -> Z -> string -> string.

(** The loggers after each call of a run, in order. *)
Fixpoint history (cs : list Call) (l : RotateLogger os) (w : World os)
  : list (RotateLogger os) :=
  match cs with
  | [] => []
  | c :: cs' =>
      let '(_, l', w') :=
        Output os formatHeaderFlags (c_now c) (c_frames c) (c_skip c)
          (c_msg c) l w in
      l' :: history cs' l' w'
  end.

(** The logger and the world at the end of a run. *)
Fixpoint run (cs : list Call) (l : RotateLogger os) (w : World os)
  : RotateLogger os * World os :=
  match cs with
  | [] => (l, w)
  | c :: cs' =>
      let '(_, l', w') :=
        Output os formatHeaderFlags (c_now c) (c_frames c) (c_skip c)
          (c_msg c) l w in
      run cs' l' w'
  end.

End Runs.

(** ** Line terminators *)

(** The last byte of a string. *)
Fixpoint last_byte (s : string) : option ascii :=
  match s with
  | EmptyString => None
  | String a s' =>
      match s' with
      | EmptyString => Some a
      | String _ _ => last_byte s'
      end
  end.

Definition ends_with_newline (s : string) : bool :=
  bool_decide (last_byte s = Some newline).

(** What has to follow a message for it to end in a terminator: nothing
    when it ends in one, else one terminator. *)
Definition terminator (s : string) : string :=
  if ends_with_newline s then EmptyString else String newline EmptyString.

Fixpoint all_newlines (s : string) : bool :=
  match s with
  | EmptyString => true
  | String a s' => bool_decide (a = newline) && all_newlines s'
  end.

(** The number of line terminators a string ends in. *)
Fixpoint trailing_newlines (s : string) : nat :=
  match s with
  | EmptyString => O
  | String a s' =>
      if bool_decide (a = newline) && all_newlines s'
      then S (trailing_newlines s')
      else trailing_newlines s'
  end.

(** ** The header in the words of the design *)

(** The character of a decimal digit. *)
Definition digit_char (d : Z) : ascii := ascii_of_N (48 + Z.to_N d).

(** The [w] low-order decimal digits of [n], most significant first. *)
Fixpoint fixed_digits (w : nat) (n : Z) : string :=
  match w with
  | O => EmptyString
  | S w' => fixed_digits w' (n / 10) +:+ String (digit_char (n mod 10)) EmptyString
  end.

(** The text after the final ['/'], the whole string when there is none. *)
Fixpoint basename (s : string) : string :=
  match s with
  | EmptyString => EmptyString
  | String a s' =>
      if contains_byte slash s' then basename s'
      else if Ascii.eqb a slash then s'
      else String a s'
  end.

(** The fields of a timestamp as [time.Time] delivers them, with a year of
    at most four digits. *)
Definition wellFormedTime (t : Time) : Prop :=
  0 <= Year t <= 9999 /\ 1 <= Month t <= 12 /\ 1 <= Day t <= 31 /\
  0 <= Hour t <= 23 /\ 0 <= Minute t <= 59 /\ 0 <= Second t <= 59 /\
  0 <= Nanosecond t <= 999999999.

(** [YYYYMMDD HH:MM:SS.UUUUUU|] *)
Definition stamp (t : Time) : string :=
  fixed_digits 4 (Year t) +:+ fixed_digits 2 (Month t)
  +:+ fixed_digits 2 (Day t) +:+ " "
  +:+ fixed_digits 2 (Hour t) +:+ ":" +:+ fixed_digits 2 (Minute t) +:+ ":"
  +:+ fixed_digits 2 (Second t) +:+ "."
  +:+ fixed_digits 6 (Nanosecond t / 1000) +:+ "|".

(** [basename(file):line|function|] *)
Definition location (file : string) (line : Z) (fn : string) : string :=
  basename file +:+ ":" +:+ Sprintf_d line +:+ "|" +:+ fn +:+ "|".

(** ** The lifetime of a sink *)

Section Lifetime.

Variable os : OS.
Variable LdefaultFlags : Z.
Variable formatHeaderFlags :
  string -> Z -> Time -> string -> Z -> string -> string.

(** The loggers a program can hold: made by [NewRotateLogger], then used
    through the methods, in any world. *)
Inductive Reachable : RotateLogger os -> Prop :=
| reach_New logDir level now w l w' :
    NewRotateLogger os LdefaultFlags logDir level now w = (Some l, None, w') ->
    Reachable l
| reach_Output now frames skip s l w e l' w' :
    Reachable l ->
    Output os formatHeaderFlags now frames skip s l w = (e, l', w') ->
    Reachable l'
| reach_SetLogSizeLimit v l :
    Reachable l -> Reachable (SetLogSizeLimit os v l)
| reach_SetLogLevel v l :
    Reachable l -> Reachable (SetLogLevel os v l)
| reach_SetFlags v l :
    Reachable l -> Reachable (SetFlags os v l).

(** What holds of every such logger: without an open file the byte counter
    is zero, and the sequence id is an [int32]. *)
Definition consistent (l : RotateLogger os) : Prop :=
  (f l = None -> nbytes l = 0) /\ is_int32 (fid l).

End Lifetime.

(** ** A device that takes everything *)

Module NullOS.

(** Every call succeeds, no file exists before it is opened, every file is
    empty when opened, and every write is complete. *)
Definition null_os : OS :=
  mkOS unit unit
    (fun _ w => (None, w))
    (fun _ _ => inr ErrNotExist)
    (fun _ w => (inl tt, w))
    (fun _ _ => inl 0)
    (fun _ b w => ((len b, None), w))
    (fun _ w => w)
    (fun d n => d +:+ "/" +:+ n).

Definition tick : Time := mkTime 2024 3 7 9 5 59 123456789.

(** The one-byte message of every call, and the record it gives. *)
Definition beat : string := "x".

Definition beat_record : string :=
  record MemFS.header tick MemFS.no_frames 2 beat 0.

(** The sink after its first record and [i] rolls, all in the hour of
    [tick], under a limit of one byte. *)
Definition spinning (i : Z) : RotateLogger null_os :=
  mkRotateLogger null_os "logs" TRACE 1 0 beat_record (Some tt)
    "2024030709.log" (len beat_record) i.

End NullOS.

(** ** Properties the program does not have as the design words them *)

(** ** Timestamps that go back *)

(** The bucket keys of the calls of a run. *)
Definition keys_of (cs : list Call) : list string :=
  map (fun c => bucketKey (c_now c)) cs.

(** Once a list of keys has moved on from [k], [k] does not occur again. *)
Fixpoint left_for_good (k : string) (ks : list string) : bool :=
  match ks with
  | [] => true
  | k' :: ks' =>
      if String.eqb k' k then left_for_good k ks'
      else negb (existsb (String.eqb k) ks')
  end.

(** No key of the list occurs again after another key has followed it:
    the keys of calls whose timestamps never go back to a bucket they have
    left. *)
Fixpoint never_returns (ks : list string) : bool :=
  match ks with
  | [] => true
  | k :: ks' => left_for_good k ks' && never_returns ks'
  end.

(** Four calls on the sink with a limit of 64 bytes made on the empty
    device: two in the hour of [MemFS.t0], the second of which rolls to
    sequence 1, one in the next hour, and one whose timestamp is in the
    hour of [MemFS.t0] again. *)
Definition back_and_forth : list Call :=
  [mkCall MemFS.t0 MemFS.main_frames 2 ("WARN|" +:+ MemFS.line40);
   mkCall MemFS.t0 MemFS.main_frames 2 "WARN|more";
   mkCall MemFS.t1 MemFS.main_frames 2 "WARN|next hour";
   mkCall MemFS.t0 MemFS.main_frames 2 "WARN|late"].

Section Worded.

Variable os : OS.
Variable LdefaultFlags : Z.
Variable formatHeaderFlags :
  string -> Z -> Time -> string -> Z -> string -> string.

(** "After a failed open, the next [Output] call retries opening the same
    target file": whatever its timestamp, the rotation step of the next
    call ends on the target of the failed one. *)
Definition next_call_retries_same_target : Prop :=
  forall (l : RotateLogger os) w now err l1 w1,
    Reachable os LdefaultFlags formatHeaderFlags l ->
    rotateFile os now l w = (Some err, l1, w1) ->
    forall now' w' e2 l2 w2,
      rotateFile os now' l1 w' = (e2, l2, w2) ->
      targetName l2 = targetName l1.

(** "The constructor adopts the highest pre-existing sequence id": no file
    of the bucket with a higher sequence id than the adopted one exists
    when the sink is made. *)
Definition adopts_highest_existing : Prop :=
  forall logDir level now w (l : RotateLogger os) w',
    NewRotateLogger os LdefaultFlags logDir level now w = (Some l, None, w') ->
    forall i size,
      1 <= i <= MaxInt32 ->
      Stat os (Join os logDir (getLogFileName now i)) w = inl size ->
      i <= fid l.

(** "Within one bucket the sequence id never decreases across [Output]
    calls", read call by call. *)
Definition sequence_never_decreases : Prop :=
  forall (l : RotateLogger os) w now frames skip s e l' w',
    Reachable os LdefaultFlags formatHeaderFlags l ->
    Output os formatHeaderFlags now frames skip s l w = (e, l', w') ->
    fname l' = fname l ->
    fid l <= fid l'.

(** "For the lifetime of a sink, within any one time bucket the sequence
    id never decreases across [Output] calls; sequence ids within a bucket
    are never reused downward": of two states of a lifetime that are in
    the same bucket, the later one has the sequence id of the earlier one
    or a larger one. *)
Definition never_reused_downward : Prop :=
  forall (l : RotateLogger os) (cs : list Call) w (i j : nat) a b,
    Reachable os LdefaultFlags formatHeaderFlags l ->
    (i <= j)%nat ->
    (l :: history os formatHeaderFlags cs l w) !! i = Some a ->
    (l :: history os formatHeaderFlags cs l w) !! j = Some b ->
    fname a = fname b ->
    fid a <= fid b.

End Worded.
(** * Further vocabulary *)

(** Two timestamps of the same hour of the same day. *)
Definition sameHour (t t' : Time) : Prop :=
  Year t = Year t' /\ Month t = Month t' /\ Day t = Day t' /\ Hour t = Hour t'.

(** ** The byte counter and the size of the file *)

Section Sizes.

Variable os : OS.

(** A file that has just been opened reports a size. *)
Definition stat_after_open : Prop :=
  forall p w h w',
    OpenFile os p w = (inl h, w') -> exists sz, FileStat os h w' = inl sz.

(** A write adds the number of bytes it reports to the size of the file. *)
Definition write_grows : Prop :=
  forall h b w n e w' sz,
    FileWrite os h b w = ((n, e), w') ->
    FileStat os h w = inl sz -> FileStat os h w' = inl (sz + n).

(** The byte counter is the size of the open file. *)
Definition in_sync (l : RotateLogger os) (w : World os) : Prop :=
  forall h, f l = Some h -> FileStat os h w = inl (nbytes l).

End Sizes.

(** ** Lines *)

(** The number of occurrences of a byte. *)
Fixpoint count_byte (c : ascii) (s : string) : nat :=
  match s with
  | EmptyString => O
  | String a s' => ((if Ascii.eqb a c then 1 else 0) + count_byte c s')%nat
  end.

(** ** The name of the open file *)

Section Names.

Variable os : OS.

(** The method [Name] of an open file: its name, as presented to
    [OpenFile]. *)
Variable Name : File os -> string.

Definition open_names : Prop :=
  forall p w h w', OpenFile os p w = (inl h, w') -> Name h = p.

(** The open file is the file the logger designates. *)
Definition names_target (l : RotateLogger os) : Prop :=
  forall h, f l = Some h -> Name h = Join os (logDir l) (targetName l).

End Names.

(** ** WriterLogger with header flags *)

Module FlagWriter.

Section Logger.

(** An [io.Writer]: its state and its [Write] method. *)
Variable Sink : Type.
Variable Write : string -> Sink -> (Z * option error) * Sink.

(** The default header flags and the flag-aware header formatter, as for
    the rotate logger. *)
Variable LdefaultFlags : Z.
Variable formatHeaderFlags :
  string -> Z -> Time -> string -> Z -> string -> string.

Record WriterLogger := mkWriterLogger {
  level : LogLevel;    (* log level *)
  buf : string;        (* buffer (contents) *)
  out : Sink;          (* destination for output *)
  flags : Z            (* properties *)
}.

Definition NewWriterLogger (out : Sink) (level : LogLevel) : WriterLogger :=
  mkWriterLogger level EmptyString out LdefaultFlags.

(** [Output] outputs content to the writer; the number of bytes [Write]
    reports is dropped. *)
Definition Output (now : Time) (frames : Frames) (skipdepth : Z)
    (s : string) (l : WriterLogger) : option error * WriterLogger :=
  let '(file, line, fn) := resolve frames skipdepth in
  let b := EmptyString in
  let b := formatHeaderFlags b (flags l) now file line fn in
  let b := b +:+ s in
  let b := if needs_newline s then b +:+ String newline EmptyString
           else b in
  let '((_, err), o) := Write b (out l) in
  (err, mkWriterLogger (level l) b o (flags l)).

Definition SetLogLevel (v : LogLevel) (l : WriterLogger) : WriterLogger :=
  mkWriterLogger v (buf l) (out l) (flags l).
Definition LogLevel_of (l : WriterLogger) : LogLevel := level l.
Definition Flags (l : WriterLogger) : Z := flags l.
Definition SetFlags (v : Z) (l : WriterLogger) : WriterLogger :=
  mkWriterLogger (level l) (buf l) (out l) v.

(** [l.Output(2, s)], result dropped. *)
Definition emit (now : Time) (frames : Frames) (s : string)
    (l : WriterLogger) : WriterLogger :=
  snd (Output now frames 2 s l).

(** The leveled methods; [m] stands for the formatted text. *)
Definition Fatalf (now : Time) (frames : Frames) (m : string)
    (l : WriterLogger) : Outcome WriterLogger :=
  let l := emit now frames ("FATAL|" +:+ m) l in
  Exited 1 l.

Definition Fatal (now : Time) (frames : Frames) (m : string)
    (l : WriterLogger) : Outcome WriterLogger :=
  let l := emit now frames ("FATAL|" +:+ m) l in
  Exited 1 l.

Definition Infof (now : Time) (frames : Frames) (m : string)
    (l : WriterLogger) : Outcome WriterLogger :=
  Returned (emit now frames ("INFO|" +:+ m) l).

Definition Info (now : Time) (frames : Frames) (m : string)
    (l : WriterLogger) : Outcome WriterLogger :=
  Returned (emit now frames ("INFO|" +:+ m) l).

Definition Errorf (now : Time) (frames : Frames) (m : string)
    (l : WriterLogger) : Outcome WriterLogger :=
  if LogLevel_of l <=? ERROR
  then Returned (emit now frames ("ERROR|" +:+ m) l)
  else Returned l.

Definition Error (now : Time) (frames : Frames) (m : string)
    (l : WriterLogger) : Outcome WriterLogger :=
  if LogLevel_of l <=? ERROR
  then Returned (emit now frames ("ERROR|" +:+ m) l)
  else Returned l.

Definition Warnf (now : Time) (frames : Frames) (m : string)
    (l : WriterLogger) : Outcome WriterLogger :=
  if LogLevel_of l <=? WARN
  then Returned (emit now frames ("WARN|" +:+ m) l)
  else Returned l.

Definition Warn (now : Time) (frames : Frames) (m : string)
    (l : WriterLogger) : Outcome WriterLogger :=
  if LogLevel_of l <=? WARN
  then Returned (emit now frames ("WARN|" +:+ m) l)
  else Returned l.

Definition Tracef (now : Time) (frames : Frames) (m : string)
    (l : WriterLogger) : Outcome WriterLogger :=
  if LogLevel_of l <=? TRACE
  then Returned (emit now frames ("TRACE|" +:+ m) l)
  else Returned l.

Definition Trace (now : Time) (frames : Frames) (m : string)
    (l : WriterLogger) : Outcome WriterLogger :=
  if LogLevel_of l <=? TRACE
  then Returned (emit now frames ("TRACE|" +:+ m) l)
  else Returned l.

Definition Debugf (now : Time) (frames : Frames) (m : string)
    (l : WriterLogger) : Outcome WriterLogger :=
  if LogLevel_of l <=? DEBUG
  then Returned (emit now frames ("DEBUG|" +:+ m) l)
  else Returned l.

Definition Debug (now : Time) (frames : Frames) (m : string)
    (l : WriterLogger) : Outcome WriterLogger :=
  if LogLevel_of l <=? DEBUG
  then Returned (emit now frames ("DEBUG|" +:+ m) l)
  else Returned l.

(** The method a name stands for. *)
Definition call (meth : Method)
  : Time -> Frames -> string -> WriterLogger -> Outcome WriterLogger :=
  match meth with
  | MTracef => Tracef
  | MTrace => Trace
  | MDebugf => Debugf
  | MDebug => Debug
  | MWarnf => Warnf
  | MWarn => Warn
  | MErrorf => Errorf
  | MError => Error
  | MInfof => Infof
  | MInfo => Info
  | MFatalf => Fatalf
  | MFatal => Fatal
  end.

(** One call of a leveled method: the method, what the clock and the
    caller resolution return during it, and the formatted text. *)
Record MCall := mkMCall {
  m_method : Method;
  m_now : Time;
  m_frames : Frames;
  m_msg : string
}.

(** A program that makes the calls one after the other; it ends with the
    first call that exits. *)
Fixpoint run (cs : list MCall) (l : WriterLogger) : Outcome WriterLogger :=
  match cs with
  | [] => Returned l
  | c :: cs' =>
      match call (m_method c) (m_now c) (m_frames c) (m_msg c) l with
      | Returned l' => run cs' l'
      | Exited code l' => Exited code l'
      end
  end.

(** Whether a method writes at the threshold [T]. *)
Definition emits (T : LogLevel) (meth : Method) : bool :=
  match kind meth with
  | Filtered => T <=? severity meth
  | Unconditional | Terminating => true
  end.

(** The record a method writes. *)
Definition line (fl : Z) (c : MCall) : string :=
  record formatHeaderFlags (m_now c) (m_frames c) 2
    (tag (m_method c) +:+ m_msg c) fl.

(** What a program leaves on the writer: the records of its calls that
    pass the threshold, up to the first call that exits. *)
Fixpoint transcript (T : LogLevel) (fl : Z) (cs : list MCall) : string :=
  match cs with
  | [] => EmptyString
  | c :: cs' =>
      (if emits T (m_method c) then line fl c else EmptyString)
      +:+ (match kind (m_method c) with
           | Terminating => EmptyString
           | _ => transcript T fl cs'
           end)
  end.

(** Whether a program exits. *)
Definition exits (cs : list MCall) : bool :=
  existsb (fun c => match kind (m_method c) with
                    | Terminating => true
                    | _ => false
                    end) cs.

(** A writer that keeps what is written to it: [contents] grows by the
    bytes of every [Write]. *)
Definition keeps_all (contents : Sink -> string) : Prop :=
  forall b o, contents (snd (Write b o)) = contents o +:+ b.

End Logger.

Arguments level {Sink} _.
Arguments buf {Sink} _.
Arguments out {Sink} _.
Arguments flags {Sink} _.

(** A writer that appends to a byte string, and the calls of the example
    program. *)
Definition append_write (b : string) (o : string)
  : (Z * option error) * string := ((len b, None), o +:+ b).

(** [fmt.Sprintln] of one string. *)
Definition Sprintln_s (s : string) : string :=
  s +:+ String newline EmptyString.

Definition example_calls : list MCall :=
  [mkMCall MTrace MemFS.t0 MemFS.main_frames
     (Sprintln_s "this is a trace log.");
   mkMCall MDebug MemFS.t0 MemFS.main_frames
     (Sprintln_s "this is a debug log.");
   mkMCall MWarn MemFS.t0 MemFS.main_frames
     (Sprintln_s "this is a warn log.");
   mkMCall MError MemFS.t0 MemFS.main_frames
     (Sprintln_s "this is a error log.");
   mkMCall MInfo MemFS.t0 MemFS.main_frames
     (Sprintln_s "this is a info log.")].

End FlagWriter.

(** ** The package-level logger: levels, flushing and leveled methods *)

Module LegacyAPI.

(** The four levels of the package-level logger and their names. *)
Definition DEBUG : LogLevel := 0.
Definition TRACE : LogLevel := 1.
Definition WARN : LogLevel := 2.
Definition ERROR : LogLevel := 3.

Definition LogLevelMap : gmap string LogLevel :=
  <["DEBUG" := DEBUG]> (<["TRACE" := TRACE]> (<["WARN" := WARN]>
  (<["ERROR" := ERROR]> ∅))).

(** The method [String] of a level: the default log level, whatever the
    level. *)
Definition LogLevel_String (level : LogLevel) : string := "DEBUG".

(** The method [Set] of a level: the error returned and the level left. *)
Definition LogLevel_Set (value : string) (level : LogLevel)
  : option error * LogLevel :=
  match LogLevelMap !! value with
  | None =>
      (Some (ErrOther
               "log level should be one of {debug, trace, warn, error}."),
       level)
  | Some logLevel => (None, logLevel)
  end.

Section Methods.

Variable os : OS.
Variable Writer : Type.
Variable NewWriter : File os -> Writer.
Variable Write :
  Writer -> string -> World os -> (Z * option error) * Writer * World os.
Variable Flush : Writer -> World os -> Writer * World os.

Abbreviation loggerT := (Legacy.loggerT os Writer).

Definition SetLogLevel (v : LogLevel) (l : loggerT) : loggerT :=
  Legacy.mkLoggerT os Writer v (Legacy.logDir l) (Legacy.logSize l)
    (Legacy.flushPeriod l) (Legacy.buf l) (Legacy.out l) (Legacy.f l)
    (Legacy.fname l) (Legacy.nbytes l) (Legacy.fid l).

Definition LogLevel_of (l : loggerT) : LogLevel := Legacy.level l.

(** [flush]: the writer is flushed when a file is open. *)
Definition flush (l : loggerT) (w : World os)
  : Legacy.Res (loggerT * World os) :=
  match Legacy.f l with
  | Some _ =>
      match Legacy.out l with
      | Some o =>
          let '(o, w) := Flush o w in
          Legacy.Done
            (Legacy.mkLoggerT os Writer (Legacy.level l) (Legacy.logDir l)
               (Legacy.logSize l) (Legacy.flushPeriod l) (Legacy.buf l)
               (Some o) (Legacy.f l) (Legacy.fname l) (Legacy.nbytes l)
               (Legacy.fid l),
             w)
      | None => Legacy.Panicked
      end
  | None => Legacy.Done (l, w)
  end.

(** [Flush] of the logger. *)
Definition loggerFlush (l : loggerT) (w : World os)
  : Legacy.Res (loggerT * World os) := flush l w.

(** [l.Output(3, s)], result dropped. *)
Definition emit (now : Time) (frames : Frames) (s : string) (l : loggerT)
    (w : World os) : Legacy.Res (loggerT * World os) :=
  match Legacy.Output os Writer NewWriter Write Flush now frames 3 s l w with
  | Legacy.Panicked => Legacy.Panicked
  | Legacy.Done (_, l, w) => Legacy.Done (l, w)
  end.

(** The leveled methods; [m] stands for the formatted text. *)
Definition Fatalf (now : Time) (frames : Frames) (m : string) (l : loggerT)
    (w : World os) : Legacy.Res (Outcome (loggerT * World os)) :=
  match emit now frames ("FATAL|" +:+ m) l w with
  | Legacy.Panicked => Legacy.Panicked
  | Legacy.Done (l, w) =>
      match loggerFlush l w with
      | Legacy.Panicked => Legacy.Panicked
      | Legacy.Done st => Legacy.Done (Exited 1 st)
      end
  end.

Definition Fatal (now : Time) (frames : Frames) (m : string) (l : loggerT)
    (w : World os) : Legacy.Res (Outcome (loggerT * World os)) :=
  match emit now frames ("FATAL|" +:+ m) l w with
  | Legacy.Panicked => Legacy.Panicked
  | Legacy.Done (l, w) =>
      match loggerFlush l w with
      | Legacy.Panicked => Legacy.Panicked
      | Legacy.Done st => Legacy.Done (Exited 1 st)
      end
  end.

(** A call that returns after its [Output]. *)
Definition returning (r : Legacy.Res (loggerT * World os))
  : Legacy.Res (Outcome (loggerT * World os)) :=
  match r with
  | Legacy.Panicked => Legacy.Panicked
  | Legacy.Done st => Legacy.Done (Returned st)
  end.

Definition Infof (now : Time) (frames : Frames) (m : string) (l : loggerT)
    (w : World os) : Legacy.Res (Outcome (loggerT * World os)) :=
  returning (emit now frames ("INFO |" +:+ m) l w).

Definition Info (now : Time) (frames : Frames) (m : string) (l : loggerT)
    (w : World os) : Legacy.Res (Outcome (loggerT * World os)) :=
  returning (emit now frames ("INFO |" +:+ m) l w).

Definition Errorf (now : Time) (frames : Frames) (m : string) (l : loggerT)
    (w : World os) : Legacy.Res (Outcome (loggerT * World os)) :=
  if LogLevel_of l <=? ERROR
  then returning (emit now frames ("ERROR|" +:+ m) l w)
  else Legacy.Done (Returned (l, w)).

Definition Error (now : Time) (frames : Frames) (m : string) (l : loggerT)
    (w : World os) : Legacy.Res (Outcome (loggerT * World os)) :=
  if LogLevel_of l <=? ERROR
  then returning (emit now frames ("ERROR|" +:+ m) l w)
  else Legacy.Done (Returned (l, w)).

Definition Warnf (now : Time) (frames : Frames) (m : string) (l : loggerT)
    (w : World os) : Legacy.Res (Outcome (loggerT * World os)) :=
  if LogLevel_of l <=? WARN
  then returning (emit now frames ("WARN |" +:+ m) l w)
  else Legacy.Done (Returned (l, w)).

Definition Warn (now : Time) (frames : Frames) (m : string) (l : loggerT)
    (w : World os) : Legacy.Res (Outcome (loggerT * World os)) :=
  if LogLevel_of l <=? WARN
  then returning (emit now frames ("WARN |" +:+ m) l w)
  else Legacy.Done (Returned (l, w)).

Definition Tracef (now : Time) (frames : Frames) (m : string) (l : loggerT)
    (w : World os) : Legacy.Res (Outcome (loggerT * World os)) :=
  if LogLevel_of l <=? TRACE
  then returning (emit now frames ("TRACE|" +:+ m) l w)
  else Legacy.Done (Returned (l, w)).

Definition Trace (now : Time) (frames : Frames) (m : string) (l : loggerT)
    (w : World os) : Legacy.Res (Outcome (loggerT * World os)) :=
  if LogLevel_of l <=? TRACE
  then returning (emit now frames ("TRACE|" +:+ m) l w)
  else Legacy.Done (Returned (l, w)).

Definition Debugf (now : Time) (frames : Frames) (m : string) (l : loggerT)
    (w : World os) : Legacy.Res (Outcome (loggerT * World os)) :=
  if LogLevel_of l <=? DEBUG
  then returning (emit now frames ("DEBUG|" +:+ m) l w)
  else Legacy.Done (Returned (l, w)).

Definition Debug (now : Time) (frames : Frames) (m : string) (l : loggerT)
    (w : World os) : Legacy.Res (Outcome (loggerT * World os)) :=
  if LogLevel_of l <=? DEBUG
  then returning (emit now frames ("DEBUG|" +:+ m) l w)
  else Legacy.Done (Returned (l, w)).

(** The method a name stands for. *)
Definition call (meth : Method)
  : Time -> Frames -> string -> loggerT -> World os
    -> Legacy.Res (Outcome (loggerT * World os)) :=
  match meth with
  | MTracef => Tracef
  | MTrace => Trace
  | MDebugf => Debugf
  | MDebug => Debug
  | MWarnf => Warnf
  | MWarn => Warn
  | MErrorf => Errorf
  | MError => Error
  | MInfof => Infof
  | MInfo => Info
  | MFatalf => Fatalf
  | MFatal => Fatal
  end.

End Methods.

(** The severity of the four filtered pairs of methods, and the tags of
    the records. *)
Definition severity (meth : Method) : option LogLevel :=
  match meth with
  | MDebugf | MDebug => Some DEBUG
  | MTracef | MTrace => Some TRACE
  | MWarnf | MWarn => Some WARN
  | MErrorf | MError => Some ERROR
  | MInfof | MInfo | MFatalf | MFatal => None
  end.

Definition tag (meth : Method) : string :=
  match meth with
  | MTracef | MTrace => "TRACE|"
  | MDebugf | MDebug => "DEBUG|"
  | MWarnf | MWarn => "WARN |"
  | MErrorf | MError => "ERROR|"
  | MInfof | MInfo => "INFO |"
  | MFatalf | MFatal => "FATAL|"
  end.

(** Whether a method writes at the threshold [T]. *)
Definition emits (T : LogLevel) (meth : Method) : bool :=
  match severity meth with
  | Some v => T <=? v
  | None => true
  end.

End LegacyAPI.

(** The in-memory device with files that do not report their size, and
    the package-level logger without file in the hour of [MemFS.t0]. *)
Definition blind_os : OS :=
  mkOS MemFS.Mem string MemFS.mkdirAll MemFS.stat MemFS.openFile
    (fun _ _ => inr ErrPermission) MemFS.fileWrite MemFS.fileClose MemFS.join.

Definition closed_logger (os : OS) : Legacy.loggerT os (Bufio.Writer os) :=
  Legacy.mkLoggerT os (Bufio.Writer os) WARN "logs" 0 5 EmptyString None None
    "2024030709.log" 0 0.

(** The rotate logger [NewRotateLogger] makes on that device, empty, in
    the hour of [MemFS.t0]. *)
Definition blind_logger : RotateLogger blind_os :=
  mkRotateLogger blind_os "logs" WARN DEFAULT_LOG_FILE_SIZE 0 EmptyString
    (Some "logs/2024030709.log") "2024030709.log" 0 0.

(** Two timestamps in the same microsecond. *)
Definition sameMicrosecond (t t' : Time) : Prop :=
  Year t = Year t' /\ Month t = Month t' /\ Day t = Day t' /\
  Hour t = Hour t' /\ Minute t = Minute t' /\ Second t = Second t' /\
  Nanosecond t / 1000 = Nanosecond t' / 1000.

(** ** What a run leaves in a file *)

(** A device whose files take every write in full and keep it:
    [content] grows by the bytes written. *)
Definition appends_all (os : OS) (content : File os -> World os -> string)
  : Prop :=
  forall h b w,
    exists w',
      FileWrite os h b w = ((len b, None), w') /\
      content h w' = content h w +:+ b.

(** The records of the calls of a run, one after the other. *)
Fixpoint records_of
    (fh : string -> Z -> Time -> string -> Z -> string -> string) (fl : Z)
    (cs : list Call) : string :=
  match cs with
  | [] => EmptyString
  | c :: cs' =>
      record fh (c_now c) (c_frames c) (c_skip c) (c_msg c) fl
      +:+ records_of fh fl cs'
  end.

(** A device of files without bounds: a world gives the content of every
    path, and a write appends to it. *)
Definition tape_os : OS :=
  mkOS (string -> string) string
    (fun _ w => (None, w))
    (fun p w => inl (len (w p)))
    (fun p w => (inl p, w))
    (fun h w => inl (len (w h)))
    (fun h b w =>
       ((len b, None), fun p => if String.eqb p h then w h +:+ b else w p))
    (fun _ w => w)
    MemFS.join.

(** A logger without size limit on that device, in the hour of
    [MemFS.t0]. *)
Definition tape_logger : RotateLogger tape_os :=
  mkRotateLogger tape_os "logs" WARN 0 0 EmptyString
    (Some "logs/2024030709.log") "2024030709.log" 0 0.

(** * Properties *)

Example formatHeader_example :
  formatHeader EmptyString t_example "/home/u/src/main.go" 42 "main.main"
  = "20240307 09:05:59.123456|main.go:42|main.main|".
Proof. vm_compute. reflexivity. Qed.

(** ** Fixed-width arithmetic *)

Lemma int32_id z : is_int32 z -> int32 z = z.
Proof.
  unfold is_int32, MinInt32, MaxInt32, int32, wrap. intros Hz.
  change (2 ^ (32 - 1)) with 2147483648. change (2 ^ 32) with 4294967296.
  rewrite Z.mod_small; lia.
Qed.

Lemma int64_id z : is_int64 z -> int64 z = z.
Proof.
  unfold is_int64, MinInt64, MaxInt64, int64, wrap. intros Hz.
  change (2 ^ (64 - 1)) with 9223372036854775808.
  change (2 ^ 64) with 18446744073709551616.
  rewrite Z.mod_small; lia.
Qed.

Lemma int32_range z : is_int32 (int32 z).
Proof.
  unfold is_int32, MinInt32, MaxInt32, int32, wrap.
  change (2 ^ (32 - 1)) with 2147483648. change (2 ^ 32) with 4294967296.
  pose proof (Z.mod_pos_bound (z + 2147483648) 4294967296). lia.
Qed.

Lemma int32_incr_max : int32 (MaxInt32 + 1) = MinInt32.
Proof. reflexivity. Qed.

(** ** Level names *)

(** C10: for each of the six levels, looking its name up in [LogLevelMap]
    gives the level back, and every other value is named ["unknown"]. *)
Theorem LogLevelName_roundtrip :
  forall L : LogLevel,
    (L ∈ levels -> LogLevelMap !! LogLevelName L = Some L) /\
    (L ∉ levels -> LogLevelName L = "unknown").
Proof.
  intros L. split.
  - unfold levels. intros HL.
    repeat (apply elem_of_cons in HL as [-> | HL]; [vm_compute; reflexivity |]).
    by apply elem_of_nil in HL.
  - intros HL. unfold LogLevelName, levels in *.
    repeat match goal with
    | |- context [?a =? ?b] =>
        destruct (Z.eqb_spec a b) as [-> | _]; [exfalso; apply HL; set_solver |]
    end.
    reflexivity.
Qed.

Lemma LogLevelName_roundtrip_witness :
  LogLevelMap !! LogLevelName WARN = Some WARN /\ LogLevelName 6 = "unknown".
Proof.
  split.
  - apply (proj1 (LogLevelName_roundtrip WARN)). unfold levels.
    do 2 apply list_elem_of_further. apply list_elem_of_here.
  - apply (proj2 (LogLevelName_roundtrip 6)). unfold levels. intros H.
    repeat (apply elem_of_cons in H as [H | H]; [discriminate H |]).
    by apply elem_of_nil in H.
Defined.

(** ** Severity filtering *)

Section Filtering.

Variable os : OS.
Variable formatHeaderFlags :
  string -> Z -> Time -> string -> Z -> string -> string.

Lemma calls_emit now frames s (st : St os) :
  calls (emit os formatHeaderFlags now frames s st) = calls st ++ [(2, s)].
Proof.
  unfold emit.
  destruct (Output os formatHeaderFlags now frames 2 s (logger st) (world st))
    as [[e l] w].
  reflexivity.
Qed.

Lemma calls_emit_neq now frames s (st : St os) :
  calls (emit os formatHeaderFlags now frames s st) <> calls st.
Proof.
  rewrite calls_emit. intros H. apply (f_equal length) in H.
  rewrite length_app in H. simpl in H. lia.
Qed.

End Filtering.

(** C3: a filtered method (trace, debug, warn, error) invokes [Output],
    once and with its tagged message, exactly when its severity is at or
    above the threshold, and otherwise does nothing; the info methods always
    invoke it and return; the fatal methods always invoke it and then exit
    with status 1. *)
Theorem leveled_methods_filter :
  forall os fh now frames (meth : Method) (m : string) (st : St os),
    let T := level (logger st) in
    let r := call os fh meth now frames m st in
    let emitted := emit os fh now frames (tag meth +:+ m) st in
    (kind meth = Filtered ->
       exit_status r = None /\
       (calls (final r) = calls st ++ [(2, tag meth +:+ m)]
          <-> severity meth >= T) /\
       (severity meth >= T -> final r = emitted) /\
       (severity meth < T -> final r = st)) /\
    (kind meth = Unconditional ->
       exit_status r = None /\ final r = emitted /\
       calls (final r) = calls st ++ [(2, tag meth +:+ m)]) /\
    (kind meth = Terminating ->
       exit_status r = Some 1 /\ 1 <> 0 /\ final r = emitted /\
       calls (final r) = calls st ++ [(2, tag meth +:+ m)]).
Proof.
  intros os fh now frames meth m st T r emitted.
  pose proof (calls_emit os fh now frames (tag meth +:+ m) st) as Hc.
  pose proof (calls_emit_neq os fh now frames (tag meth +:+ m) st) as Hn.
  fold emitted in Hc, Hn.
  assert (Hfilt : forall S : LogLevel,
    let r' := if T <=? S then Returned emitted else Returned st in
    exit_status r' = None /\
    (calls (final r') = calls st ++ [(2, tag meth +:+ m)] <-> S >= T) /\
    (S >= T -> final r' = emitted) /\ (S < T -> final r' = st)).
  { intros S. simpl. destruct (Z.leb_spec T S) as [Hle | Hgt]; simpl.
    - repeat split; auto; try lia.
    - repeat split; auto; try lia.
      intros Heq. exfalso. apply Hn. rewrite Hc. symmetry. exact Heq. }
  subst r emitted T.
  destruct meth; (split; [| split]); intros Hk; try discriminate Hk;
    try (apply Hfilt); simpl; auto.
Qed.

(** At threshold [WARN]: an error record is written, a debug record is
    not, and a fatal record ends the process with status 1. *)
Lemma leveled_methods_filter_witness :
  calls (final (call MemFS.mem_os MemFS.header MError MemFS.t0
                  MemFS.main_frames "disk" MemFS.sample_st))
    = [(2, "ERROR|disk")] /\
  final (call MemFS.mem_os MemFS.header MDebug MemFS.t0 MemFS.main_frames
           "noise" MemFS.sample_st) = MemFS.sample_st /\
  exit_status (call MemFS.mem_os MemFS.header MFatal MemFS.t0
                 MemFS.main_frames "bye" MemFS.sample_st) = Some 1.
Proof.
  split; [| split].
  - destruct (leveled_methods_filter MemFS.mem_os MemFS.header MemFS.t0
                MemFS.main_frames MError "disk" MemFS.sample_st)
      as (HF & _ & _).
    destruct (HF eq_refl) as (_ & Hiff & _).
    apply Hiff. simpl. unfold ERROR, WARN. lia.
  - destruct (leveled_methods_filter MemFS.mem_os MemFS.header MemFS.t0
                MemFS.main_frames MDebug "noise" MemFS.sample_st)
      as (HF & _ & _).
    destruct (HF eq_refl) as (_ & _ & _ & Hno).
    apply Hno. simpl. unfold DEBUG, WARN. lia.
  - destruct (leveled_methods_filter MemFS.mem_os MemFS.header MemFS.t0
                MemFS.main_frames MFatal "bye" MemFS.sample_st)
      as (_ & _ & HT).
    destruct (HT eq_refl) as (Hx & _). exact Hx.
Defined.

(** ** Rotation *)

Section RotateProps.

Variable os : OS.
Variable formatHeaderFlags :
  string -> Z -> Time -> string -> Z -> string -> string.

Implicit Types (l : RotateLogger os) (w : World os).

Abbreviation output := (Output os formatHeaderFlags).

(** [createFile] changes the file, and the byte counter, only. *)
Lemma createFile_fields l w e l' w' :
  createFile os l w = (e, l', w') ->
  logDir l' = logDir l /\ level l' = level l /\
  logSizeLimit l' = logSizeLimit l /\ flags l' = flags l /\
  buf l' = buf l /\ fname l' = fname l /\ fid l' = fid l.
Proof.
  unfold createFile.
  destruct (OpenFile os _ w) as [[h | err] w1].
  - destruct (FileStat os h w1); intros [= <- <- <-]; simpl; auto 10.
  - intros [= <- <- <-]; simpl; auto 10.
Qed.

(** It leaves a file open exactly when it reports no error, and after a
    failure the byte counter is what it was. *)
Lemma createFile_file l w e l' w' :
  createFile os l w = (e, l', w') ->
  match e with
  | None => exists h, f l' = Some h /\
              OpenFile os (Join os (logDir l) (targetName l)) w = (inl h, w')
              /\ nbytes l' = match FileStat os h w' with
                             | inl size => size
                             | inr _ => nbytes l
                             end
  | Some err => f l' = None /\ nbytes l' = nbytes l /\
              OpenFile os (Join os (logDir l) (targetName l)) w = (inr err, w')
  end.
Proof.
  unfold createFile.
  destruct (OpenFile os _ w) as [[h | err] w1] eqn:Ho.
  - destruct (FileStat os h w1) eqn:Hs; intros [= <- <- <-]; simpl;
      exists h; rewrite Hs; auto.
  - intros [= <- <- <-]; simpl; auto.
Qed.

Lemma closeCurrent_fields l w l1 w1 :
  closeCurrent os l w = (l1, w1) ->
  logDir l1 = logDir l /\ level l1 = level l /\
  logSizeLimit l1 = logSizeLimit l /\ flags l1 = flags l /\
  buf l1 = buf l /\ fname l1 = fname l /\ fid l1 = fid l /\ f l1 = None /\
  targetName l1 = targetName l.
Proof.
  unfold closeCurrent, targetName.
  destruct (f l) eqn:Hf; intros [= <- <-]; simpl; auto 10.
Qed.

(** The source and the decision procedure agree. *)
Lemma rotateFile_perform now l w :
  rotateFile os now l w = perform os (decision os now l) now l w.
Proof.
  unfold rotateFile, decision, sizeLimitReached. fold (bucketKey now).
  destruct (decide (fname l <> bucketKey now)) as [Hne | Heq].
  - rewrite bool_decide_eq_true_2 by exact Hne. reflexivity.
  - rewrite bool_decide_eq_false_2 by exact Heq.
    destruct (decide (0 < logSizeLimit l /\ logSizeLimit l <= nbytes l))
      as [[H1 H2] | Hno].
    + apply Z.ltb_lt in H1. apply Z.leb_le in H2. rewrite H1, H2.
      reflexivity.
    + assert ((0 <? logSizeLimit l) && (logSizeLimit l <=? nbytes l) = false)
        as ->.
      { apply andb_false_iff.
        destruct (Z.ltb_spec 0 (logSizeLimit l)); [| by left].
        destruct (Z.leb_spec (logSizeLimit l) (nbytes l)); [| by right].
        exfalso. apply Hno. lia. }
      destruct (f l) eqn:Hf.
      * rewrite bool_decide_eq_false_2 by discriminate. reflexivity.
      * rewrite bool_decide_eq_true_2 by reflexivity.
        simpl. unfold closeCurrent. rewrite Hf. reflexivity.
Qed.

(** The target of the sink after [perform]. *)
Lemma perform_target d now l w e l' w' :
  perform os d now l w = (e, l', w') ->
  fname l' = fname (retarget os d now l) /\
  fid l' = fid (retarget os d now l) /\
  logSizeLimit l' = logSizeLimit l /\ logDir l' = logDir l /\
  level l' = level l /\ flags l' = flags l /\ buf l' = buf l.
Proof.
  assert (Hgen : forall l0,
    logSizeLimit l0 = logSizeLimit l -> logDir l0 = logDir l ->
    level l0 = level l -> flags l0 = flags l -> buf l0 = buf l ->
    (let '(l1, w1) := closeCurrent os l0 w in createFile os l1 w1)
      = (e, l', w') ->
    fname l' = fname l0 /\ fid l' = fid l0 /\
    logSizeLimit l' = logSizeLimit l /\ logDir l' = logDir l /\
    level l' = level l /\ flags l' = flags l /\ buf l' = buf l).
  { intros l0 H1 H2 H3 H4 H5.
    destruct (closeCurrent os l0 w) as [l1 w1] eqn:Hc. intros Hcf.
    apply closeCurrent_fields in Hc. apply createFile_fields in Hcf.
    intuition congruence. }
  destruct d; simpl.
  - apply Hgen; reflexivity.
  - apply Hgen; reflexivity.
  - apply Hgen; reflexivity.
  - intros [= <- <- <-]. auto 10.
Qed.

(** [Output] stops at a rotation failure ... *)
Lemma Output_rotate_failure now frames skip s l w err l1 w1 :
  rotateFile os now l w = (Some err, l1, w1) ->
  output now frames skip s l w = (Some err, l1, w1).
Proof.
  intros H. unfold Output. destruct (resolve frames skip) as [[file line] fn].
  rewrite H. reflexivity.
Qed.

(** ... and otherwise writes the record to the open file and counts the
    bytes the write reports. *)
Lemma Output_write_step now frames skip s l w l1 w1 :
  rotateFile os now l w = (None, l1, w1) ->
  output now frames skip s l w =
    let b := record formatHeaderFlags now frames skip s (flags l1) in
    let '((nn, err), w2) :=
      match f l1 with
      | Some h => FileWrite os h b w1
      | None => ((0, Some ErrInvalid), w1)
      end in
    (err, set_nbytes os (int64 (nbytes l1 + nn)) (set_buf os b l1), w2).
Proof.
  intros H. unfold Output, record.
  destruct (resolve frames skip) as [[file line] fn].
  rewrite H. cbv zeta.
  destruct (needs_newline s); reflexivity.
Qed.

(** [Output] leaves the target where the rotation step put it. *)
Lemma Output_target now frames skip s l w e1 l1 w1 e2 l2 w2 :
  rotateFile os now l w = (e1, l1, w1) ->
  output now frames skip s l w = (e2, l2, w2) ->
  fname l2 = fname l1 /\ fid l2 = fid l1 /\
  logSizeLimit l2 = logSizeLimit l1 /\ f l2 = f l1 /\
  logDir l2 = logDir l1 /\ level l2 = level l1 /\ flags l2 = flags l1.
Proof.
  intros Hr. destruct e1 as [err |].
  - rewrite (Output_rotate_failure _ _ _ _ _ _ _ _ _ Hr).
    intros [= <- <- <-]. auto 10.
  - rewrite (Output_write_step _ _ _ _ _ _ _ _ Hr). cbv zeta.
    destruct (match f l1 with
              | Some h => FileWrite os h _ w1
              | None => (0, Some ErrInvalid, w1)
              end) as [[nn err] w3].
    intros [= <- <- <-]. simpl. auto 10.
Qed.

(** After [Output], the target is the one the decision designates. *)
Lemma Output_retarget now frames skip s l w e l' w' :
  output now frames skip s l w = (e, l', w') ->
  fname l' = fname (retarget os (decision os now l) now l) /\
  fid l' = fid (retarget os (decision os now l) now l) /\
  logSizeLimit l' = logSizeLimit l /\ logDir l' = logDir l /\
  level l' = level l /\ flags l' = flags l.
Proof.
  intros Ho.
  destruct (rotateFile os now l w) as [[e1 l1] w1] eqn:Hr.
  destruct (Output_target _ _ _ _ _ _ _ _ _ _ _ _ Hr Ho)
    as (Hn & Hi & Hl & _ & Hd & Hv & Hg).
  rewrite rotateFile_perform in Hr. apply perform_target in Hr.
  destruct Hr as (Hn1 & Hi1 & Hl1 & Hd1 & Hv1 & Hg1 & _).
  split_and!; congruence.
Qed.

End RotateProps.

(** The four cases of the decision, each with the negation of the cases
    before it. *)
Lemma decision_cases os now (l : RotateLogger os) :
  (decision os now l = NewBucket <-> fname l <> bucketKey now) /\
  (decision os now l = NextSequence <->
     fname l = bucketKey now /\ sizeLimitReached os l) /\
  (decision os now l = Reopen <->
     fname l = bucketKey now /\ ~ sizeLimitReached os l /\ f l = None) /\
  (decision os now l = NoRotation <->
     fname l = bucketKey now /\ ~ sizeLimitReached os l /\ f l <> None).
Proof.
  unfold decision, sizeLimitReached.
  destruct (decide (fname l <> bucketKey now)) as [Hne | Heq].
  { split_and!; split; intros; try discriminate; intuition congruence. }
  apply dec_stable in Heq.
  destruct (decide (_ /\ _)) as [Hs | Hs].
  { split_and!; split; intros; try discriminate; intuition congruence. }
  destruct (f l) eqn:Hf;
    split_and!; split; intros; try discriminate; intuition congruence.
Qed.

(** C1: on every [Output] call the rotation step is the first thing done,
    and it takes the first of four cases that applies: (a) the bucket key of
    the timestamp differs from the current one: sequence 0 of the new
    bucket; (b) else a positive limit is reached by the byte counter: the
    next sequence id (the [int32] successor) of the same bucket; (c) else no
    file is open: the current target is opened; (d) else nothing.  A bucket
    change wins over the size limit. *)
Theorem rotation_decision_order :
  forall os fh now frames skip s (l : RotateLogger os) (w : World os),
    let d := decision os now l in
    let target := retarget os d now l in
    (* the order of the cases *)
    (d = NewBucket <-> fname l <> bucketKey now) /\
    (d = NextSequence <-> fname l = bucketKey now /\ sizeLimitReached os l) /\
    (d = Reopen <->
       fname l = bucketKey now /\ ~ sizeLimitReached os l /\ f l = None) /\
    (d = NoRotation <->
       fname l = bucketKey now /\ ~ sizeLimitReached os l /\ f l <> None) /\
    (* what each case designates *)
    (d = NewBucket -> fname target = bucketKey now /\ fid target = 0) /\
    (d = NextSequence ->
       fname target = fname l /\ fid target = int32 (fid l + 1) /\
       (MinInt32 <= fid l < MaxInt32 -> fid target = fid l + 1)) /\
    (d = Reopen \/ d = NoRotation -> target = l) /\
    (* the rotation step carries the decision out, and [Output] keeps it *)
    rotateFile os now l w = perform os d now l w /\
    (d = NoRotation -> rotateFile os now l w = (None, l, w)) /\
    (d <> NoRotation ->
       exists l0 w0, f l0 = None /\ targetName l0 = targetName target /\
         logDir l0 = logDir l /\
         rotateFile os now l w = createFile os l0 w0) /\
    (forall e l' w', Output os fh now frames skip s l w = (e, l', w') ->
       fname l' = fname target /\ fid l' = fid target) /\
    (* time beats size *)
    (fname l <> bucketKey now -> sizeLimitReached os l ->
       forall e l' w', Output os fh now frames skip s l w = (e, l', w') ->
         fname l' = bucketKey now /\ fid l' = 0).
Proof.
  intros os fh now frames skip s l w d target.
  destruct (decision_cases os now l) as (Ha & Hb & Hc & Hd).
  fold d in Ha, Hb, Hc, Hd.
  assert (Hout : forall e l' w',
    Output os fh now frames skip s l w = (e, l', w') ->
    fname l' = fname target /\ fid l' = fid target).
  { intros e l' w' Ho. apply Output_retarget in Ho. tauto. }
  split; [exact Ha |]. split; [exact Hb |]. split; [exact Hc |].
  split; [exact Hd |].
  split. { intros Hd'. subst target. rewrite Hd'. simpl. auto. }
  split.
  { intros Hd'. subst target. rewrite Hd'. simpl. repeat split.
    intros Hr. apply int32_id. unfold is_int32. lia. }
  split. { intros [Hd' | Hd']; subst target; rewrite Hd'; reflexivity. }
  split. { apply rotateFile_perform. }
  split. { intros Hd'. rewrite rotateFile_perform. fold d. rewrite Hd'.
           reflexivity. }
  split.
  { intros Hd'. rewrite rotateFile_perform. fold d. unfold perform.
    destruct (closeCurrent os (retarget os d now l) w) as [l0 w0] eqn:Hcl.
    apply closeCurrent_fields in Hcl as Hf.
    exists l0, w0. fold target in Hf.
    assert (logDir target = logDir l) as Hdir.
    { subst target. destruct d; reflexivity. }
    destruct d; try (exfalso; apply Hd'; reflexivity);
      intuition congruence. }
  split; [exact Hout |].
  intros Hne _ e l' w' Ho. apply Hout in Ho.
  apply Ha in Hne. subst target. rewrite Hne in Ho. exact Ho.
Qed.

(** A call in the next hour, on a file that has also reached its size
    limit, lands in the first file of the new hour. *)
Lemma rotation_decision_order_witness :
  fname (MemFS.logger_of
           (Output MemFS.mem_os MemFS.header MemFS.t1 MemFS.no_frames 2
              "late" MemFS.sample_logger MemFS.sample_mem))
    = "2024030710.log" /\
  fid (MemFS.logger_of
         (Output MemFS.mem_os MemFS.header MemFS.t1 MemFS.no_frames 2
            "late" MemFS.sample_logger MemFS.sample_mem)) = 0.
Proof.
  destruct (Output MemFS.mem_os MemFS.header MemFS.t1 MemFS.no_frames 2
              "late" MemFS.sample_logger MemFS.sample_mem)
    as [[e l'] w'] eqn:Ho.
  unfold MemFS.logger_of. simpl.
  change "2024030710.log" with (bucketKey MemFS.t1).
  refine (proj2 (proj2 (proj2 (proj2 (proj2 (proj2 (proj2 (proj2 (proj2
    (proj2 (proj2 (rotation_decision_order MemFS.mem_os MemFS.header
       MemFS.t1 MemFS.no_frames 2 "late" MemFS.sample_logger
       MemFS.sample_mem))))))))))) _ _ e l' w' Ho).
  - vm_compute. discriminate.
  - unfold sizeLimitReached. simpl. lia.
Defined.

(** ** Size-based rotation disabled *)

Section Unlimited.

Variable os : OS.
Variable formatHeaderFlags :
  string -> Z -> Time -> string -> Z -> string -> string.

(** With a non-positive limit, a call moves the target only when the
    bucket changes. *)
Lemma Output_unlimited now frames skip s (l : RotateLogger os) w e l' w' :
  logSizeLimit l <= 0 ->
  Output os formatHeaderFlags now frames skip s l w = (e, l', w') ->
  logSizeLimit l' = logSizeLimit l /\
  fname l' = bucketKey now /\
  fid l' = (if decide (fname l = bucketKey now) then fid l else 0).
Proof.
  intros Hlim Ho. apply Output_retarget in Ho.
  destruct Ho as (Hn & Hi & Hl & _).
  split; [exact Hl |]. rewrite Hn, Hi. clear Hn Hi Hl.
  unfold decision, sizeLimitReached.
  destruct (decide (fname l <> bucketKey now)) as [Hne | Heq].
  - destruct (decide (fname l = bucketKey now)) as [Heq | _];
      [contradiction |]. simpl. auto.
  - apply dec_stable in Heq.
    destruct (decide (fname l = bucketKey now)) as [_ | Hne];
      [| contradiction].
    destruct (decide (0 < logSizeLimit l /\ logSizeLimit l <= nbytes l))
      as [[Hpos _] | _]; [lia |].
    destruct (f l); simpl; auto.
Qed.

End Unlimited.

(** The former revision of the rotation step is the present one under a
    positive limit, the only one it can have. *)
Lemma rotateFile_former_positive os now (l : RotateLogger os) w :
  0 < logSizeLimit l -> rotateFile_former os now l w = rotateFile os now l w.
Proof.
  intros Hpos. unfold rotateFile_former, rotateFile.
  replace (0 <? logSizeLimit l) with true by (symmetry; by apply Z.ltb_lt).
  reflexivity.
Qed.

(** ** The byte counter *)

(** When the rotation step reports no error a file is open. *)
Lemma rotateFile_success_open os now (l : RotateLogger os) w l1 w1 :
  rotateFile os now l w = (None, l1, w1) -> exists h, f l1 = Some h.
Proof.
  rewrite rotateFile_perform.
  destruct (decision_cases os now l) as (_ & _ & _ & Hd).
  destruct (decision os now l) eqn:Hdec; simpl.
  1-3: destruct (closeCurrent os _ w) as [l0 w0]; intros Hc;
       apply createFile_file in Hc; destruct Hc as (h & Hf & _); eauto.
  intros [= <- <-]. destruct Hd as [Hd _].
  destruct (Hd eq_refl) as (_ & _ & Hf).
  destruct (f l) as [h |]; [eauto | contradiction].
Qed.

(** The write step of the rotate logger. *)
Lemma Output_counts os fh now frames skip s (l : RotateLogger os) w l1 w1 :
  rotateFile os now l w = (None, l1, w1) ->
  exists h, f l1 = Some h /\
    forall nn err w2,
      FileWrite os h (record fh now frames skip s (flags l1)) w1
        = ((nn, err), w2) ->
      exists l2,
        Output os fh now frames skip s l w = (err, l2, w2) /\
        nbytes l2 = int64 (nbytes l1 + nn) /\
        (is_int64 (nbytes l1 + nn) -> nbytes l2 = nbytes l1 + nn) /\
        buf l2 = record fh now frames skip s (flags l1) /\
        f l2 = Some h /\ fname l2 = fname l1 /\ fid l2 = fid l1.
Proof.
  intros Hr.
  destruct (rotateFile_success_open os now l w l1 w1 Hr) as [h Hf].
  exists h. split; [exact Hf |]. intros nn err w2 Hw.
  rewrite (Output_write_step os fh now frames skip s l w l1 w1 Hr).
  cbv zeta. rewrite Hf, Hw.
  eexists. split; [reflexivity |]. simpl.
  split_and!; auto. intros Hi. by apply int64_id.
Qed.

(** The file check of the package-level logger keeps the record. *)
Lemma legacy_prepared_buf os Writer NewWriter Flush now frames skip s
    (l : Legacy.loggerT os Writer) w l1 w1 :
  Legacy.prepared os Writer NewWriter Flush now frames skip s l w l1 w1 ->
  Legacy.buf l1 = Legacy.fill now frames skip s.
Proof.
  unfold Legacy.prepared. intros [(_ & -> & _) | (_ & Hc)]; [reflexivity |].
  unfold Legacy.createFile in Hc. simpl in Hc.
  destruct (Legacy.f l) as [h |].
  - destruct (Legacy.out l) as [o |]; [| discriminate Hc].
    destruct (Flush o w) as [o1 w0]. simpl in Hc.
    destruct (bool_decide (Legacy.fname l ≠ getLogFileName now 0));
      simpl in Hc;
      (destruct (OpenFile os _ _) as [[h1 | err] w2]; [| discriminate Hc]);
      (destruct (FileStat os h1 w2); [| discriminate Hc]);
      injection Hc as <- <-; reflexivity.
  - simpl in Hc.
    destruct (bool_decide (Legacy.fname l ≠ getLogFileName now 0));
      simpl in Hc;
      (destruct (OpenFile os _ _) as [[h1 | err] w2]; [| discriminate Hc]);
      (destruct (FileStat os h1 w2); [| discriminate Hc]);
      injection Hc as <- <-; reflexivity.
Qed.

(** After the file check, [Output] of the package-level logger is the
    write. *)
Lemma legacy_Output_prepared os Writer NewWriter Write Flush now frames skip s
    (l : Legacy.loggerT os Writer) w l1 w1 :
  Legacy.prepared os Writer NewWriter Flush now frames skip s l w l1 w1 ->
  Legacy.Output os Writer NewWriter Write Flush now frames skip s l w
  = Legacy.writeOut os Writer Write l1 w1.
Proof.
  unfold Legacy.prepared, Legacy.Output.
  intros [(Hn & -> & ->) | (Hn & Hc)]; rewrite Hn; [reflexivity |].
  rewrite Hc. reflexivity.
Qed.

(** C5, amended: when [Output] of the rotate logger reaches the write step,
    the byte counter grows by the number of bytes the write reports (in
    [int64] arithmetic, hence by exactly that number when the sum is an
    [int64]), whether or not the write also reports an error, and that
    error is what [Output] returns.  [Output] of the package-level logger
    returns the error of its buffered write as well, but adds the length of
    the record to the counter, whatever number the write reports. *)
Theorem Output_counts_written :
  (forall os fh now frames skip s (l : RotateLogger os) (w : World os) l1 w1,
     rotateFile os now l w = (None, l1, w1) ->
     exists h, f l1 = Some h /\
       forall nn err w2,
         FileWrite os h (record fh now frames skip s (flags l1)) w1
           = ((nn, err), w2) ->
         exists l2,
           Output os fh now frames skip s l w = (err, l2, w2) /\
           nbytes l2 = int64 (nbytes l1 + nn) /\
           (is_int64 (nbytes l1 + nn) -> nbytes l2 = nbytes l1 + nn) /\
           buf l2 = record fh now frames skip s (flags l1) /\
           f l2 = Some h /\ fname l2 = fname l1 /\ fid l2 = fid l1) /\
  (forall os Writer NewWriter Write Flush now frames skip s
          (l : Legacy.loggerT os Writer) (w : World os) l1 w1 o nn err o' w2,
     Legacy.prepared os Writer NewWriter Flush now frames skip s l w l1 w1 ->
     Legacy.out l1 = Some o ->
     Write o (Legacy.buf l1) w1 = ((nn, err), o', w2) ->
     exists l2,
       Legacy.Output os Writer NewWriter Write Flush now frames skip s l w
         = Legacy.Done (err, l2, w2) /\
       Legacy.buf l2 = Legacy.fill now frames skip s /\
       Legacy.nbytes l2
         = int64 (Legacy.nbytes l1 + len (Legacy.fill now frames skip s)) /\
       (is_int64 (Legacy.nbytes l1 + len (Legacy.fill now frames skip s)) ->
        Legacy.nbytes l2
          = Legacy.nbytes l1 + len (Legacy.fill now frames skip s))).
Proof.
  split.
  - intros os fh now frames skip s l w l1 w1. apply Output_counts.
  - intros os Writer NewWriter Write Flush now frames skip s l w l1 w1
      o nn err o' w2 Hp Ho Hw.
    rewrite (legacy_Output_prepared os Writer NewWriter Write Flush
               now frames skip s l w l1 w1 Hp).
    apply legacy_prepared_buf in Hp.
    unfold Legacy.writeOut. rewrite Ho, Hw. rewrite Hp.
    eexists. split; [reflexivity |]. simpl.
    split; [reflexivity |]. split; [reflexivity |].
    intros Hi. by apply int64_id.
Qed.

(** A write cut short by a full device: ten of the bytes are written and
    counted, and the error is returned. *)
Lemma Output_counts_written_witness :
  MemFS.error_of
    (Output MemFS.mem_os MemFS.header MemFS.t0 MemFS.no_frames 2
       "TRACE|cut" MemFS.unlimited_logger MemFS.tight_mem) = Some ErrNoSpace /\
  nbytes (MemFS.logger_of
    (Output MemFS.mem_os MemFS.header MemFS.t0 MemFS.no_frames 2
       "TRACE|cut" MemFS.unlimited_logger MemFS.tight_mem)) = 80 + 10.
Proof.
  destruct (proj1 Output_counts_written MemFS.mem_os MemFS.header MemFS.t0
              MemFS.no_frames 2 "TRACE|cut" MemFS.unlimited_logger
              MemFS.tight_mem MemFS.unlimited_logger MemFS.tight_mem)
    as (h & Hf & Hw).
  { vm_compute. reflexivity. }
  injection Hf as <-.
  destruct (Hw 10 (Some ErrNoSpace)
              (snd (MemFS.fileWrite "logs/2024030709.log"
                 (record MemFS.header MemFS.t0 MemFS.no_frames 2 "TRACE|cut" 0)
                 MemFS.tight_mem)))
    as (l2 & Ho & _ & Hn & _).
  { vm_compute. reflexivity. }
  rewrite Ho. unfold MemFS.error_of, MemFS.logger_of. simpl.
  split; [reflexivity |]. apply Hn. vm_compute. split; discriminate.
Defined.

(** C5 as worded fails for the package-level logger: its file holds 80
    bytes on a device with room for ten more, and its buffered writer is
    empty; a record of more than 4096 bytes is passed by that writer to
    the file itself, which takes ten bytes of it; the write reports ten
    bytes and the error, and the counter grows by the length of the
    record, 4147 bytes. *)
Lemma Output_counts_written_counterexample :
  ~ Legacy.counts_reported_bytes MemFS.mem_os (Bufio.Writer MemFS.mem_os)
      (Bufio.NewWriter MemFS.mem_os) (Bufio.Write MemFS.mem_os)
      (Bufio.Flush_ MemFS.mem_os).
Proof.
  intros H.
  destruct (Legacy.Output MemFS.mem_os (Bufio.Writer MemFS.mem_os)
              (Bufio.NewWriter MemFS.mem_os) (Bufio.Write MemFS.mem_os)
              (Bufio.Flush_ MemFS.mem_os) MemFS.t0 MemFS.no_frames 3
              ("TRACE|" +:+ Legacy.long_message)
              Legacy.sample_logger MemFS.tight_mem) as [[[e l'] w'] |] eqn:Ho.
  - specialize (H MemFS.t0 MemFS.no_frames 3
                  ("TRACE|" +:+ Legacy.long_message) Legacy.sample_logger
                  MemFS.tight_mem
                  (Legacy.mkLoggerT MemFS.mem_os (Bufio.Writer MemFS.mem_os)
                     WARN "logs" 0 5
                     (Legacy.fill MemFS.t0 MemFS.no_frames 3
                        ("TRACE|" +:+ Legacy.long_message))
                     (Some (Bufio.NewWriter MemFS.mem_os
                              "logs/2024030709.log"))
                     (Some "logs/2024030709.log") "2024030709.log" 80 0)
                  MemFS.tight_mem
                  (Bufio.NewWriter MemFS.mem_os "logs/2024030709.log")
                  10 (Some ErrNoSpace)
                  (snd (fst (Bufio.Write MemFS.mem_os
                               (Bufio.NewWriter MemFS.mem_os
                                  "logs/2024030709.log")
                               (Legacy.fill MemFS.t0 MemFS.no_frames 3
                                  ("TRACE|" +:+ Legacy.long_message))
                               MemFS.tight_mem)))
                  (snd (Bufio.Write MemFS.mem_os
                          (Bufio.NewWriter MemFS.mem_os "logs/2024030709.log")
                          (Legacy.fill MemFS.t0 MemFS.no_frames 3
                             ("TRACE|" +:+ Legacy.long_message))
                          MemFS.tight_mem))
                  e l' w').
    assert (Hn : Legacy.nbytes l' = 80 + 4147).
    { replace l' with
        (match Legacy.Output MemFS.mem_os (Bufio.Writer MemFS.mem_os)
                 (Bufio.NewWriter MemFS.mem_os) (Bufio.Write MemFS.mem_os)
                 (Bufio.Flush_ MemFS.mem_os) MemFS.t0 MemFS.no_frames 3
                 ("TRACE|" +:+ Legacy.long_message) Legacy.sample_logger
                 MemFS.tight_mem with
         | Legacy.Done (_, l, _) => l
         | Legacy.Panicked => Legacy.sample_logger
         end) by (rewrite Ho; reflexivity).
      vm_compute. reflexivity. }
    assert (Hbad : Legacy.nbytes l' = 80 + 10).
    { apply H.
      - left. split_and!; vm_compute; reflexivity.
      - reflexivity.
      - vm_compute. reflexivity.
      - exact Ho. }
    rewrite Hn in Hbad. lia.
  - vm_compute in Ho. discriminate Ho.
Qed.

(** ** Line terminators *)

Lemma append_cons x (a b : string) : String x a +:+ b = String x (a +:+ b).
Proof. reflexivity. Qed.

Lemma append_nil_l (b : string) : EmptyString +:+ b = b.
Proof. reflexivity. Qed.

Lemma append_assoc (a b c : string) : (a +:+ b) +:+ c = a +:+ (b +:+ c).
Proof.
  induction a as [| x a IH]; [reflexivity |].
  by rewrite !append_cons, IH.
Qed.

Lemma append_nil_r (a : string) : a +:+ EmptyString = a.
Proof.
  induction a as [| x a IH]; [reflexivity |]. by rewrite append_cons, IH.
Qed.

Lemma length_append (a b : string) :
  String.length (a +:+ b) = (String.length a + String.length b)%nat.
Proof.
  induction a as [| x a IH]; [reflexivity |].
  rewrite append_cons. simpl. by rewrite IH.
Qed.

(** Reading the byte at the last index gives the last byte. *)
Lemma get_last (s : string) :
  s <> EmptyString -> String.get (String.length s - 1) s = last_byte s.
Proof.
  induction s as [| a s IH]; [done |]. intros _.
  destruct s as [| b s]; [reflexivity |].
  change (last_byte (String a (String b s))) with (last_byte (String b s)).
  rewrite <- IH by discriminate. simpl.
  by rewrite Nat.sub_0_r.
Qed.

(** The test of the source is the negation of [ends_with_newline]. *)
Lemma needs_newline_spec (s : string) :
  needs_newline s = negb (ends_with_newline s).
Proof.
  unfold needs_newline, ends_with_newline, byte_at, len.
  destruct s as [| a s]; [reflexivity |].
  replace (Z.of_nat (String.length (String a s)) =? 0) with false
    by (symmetry; apply Z.eqb_neq; simpl; lia).
  replace (Z.of_nat (String.length (String a s)) - 1 <? 0) with false
    by (symmetry; apply Z.ltb_ge; simpl; lia).
  replace (Z.to_nat (Z.of_nat (String.length (String a s)) - 1))
    with (String.length (String a s) - 1)%nat by lia.
  rewrite get_last by discriminate. reflexivity.
Qed.

Lemma all_newlines_append a b :
  all_newlines (a +:+ b) = all_newlines a && all_newlines b.
Proof.
  induction a as [| x a IH]; [reflexivity |].
  rewrite append_cons. simpl. rewrite IH. by rewrite andb_assoc.
Qed.

Lemma trailing_all_newlines s :
  all_newlines s = true -> trailing_newlines s = String.length s.
Proof.
  induction s as [| a s IH]; simpl; [reflexivity |].
  intros H. rewrite H. apply andb_true_iff in H as [_ H]. by rewrite IH.
Qed.

(** The trailing terminators of a concatenation. *)
Lemma trailing_append a b :
  trailing_newlines (a +:+ b) =
    if all_newlines b then (trailing_newlines a + String.length b)%nat
    else trailing_newlines b.
Proof.
  induction a as [| x a IH]; [rewrite append_nil_l | rewrite append_cons];
    simpl.
  - destruct (all_newlines b) eqn:Hb; [by apply trailing_all_newlines | done].
  - rewrite all_newlines_append, IH.
    destruct (all_newlines b); [| by rewrite !andb_false_r].
    rewrite andb_true_r.
    destruct (bool_decide (x = newline) && all_newlines a); simpl; lia.
Qed.

Lemma last_byte_all_newlines s :
  s <> EmptyString -> all_newlines s = true -> last_byte s = Some newline.
Proof.
  induction s as [| a s IH]; [done |]. intros _ H. simpl in H.
  apply andb_true_iff in H as [Ha Hs]. apply bool_decide_eq_true in Ha.
  destruct s as [| b s]; [by subst |].
  change (last_byte (String a (String b s))) with (last_byte (String b s)).
  apply IH; [discriminate | exact Hs].
Qed.

(** A string ends in a terminator exactly when it ends in at least one. *)
Lemma ends_with_newline_trailing s :
  ends_with_newline s = true <-> (1 <= trailing_newlines s)%nat.
Proof.
  unfold ends_with_newline. rewrite bool_decide_eq_true.
  induction s as [| a s IH]; simpl; [split; [discriminate | lia] |].
  destruct s as [| b s].
  - simpl. rewrite andb_true_r.
    destruct (bool_decide (a = newline)) eqn:Ha.
    + apply bool_decide_eq_true in Ha. subst. split; [lia | done].
    + apply bool_decide_eq_false in Ha. split; [congruence | lia].
  - destruct (bool_decide (a = newline) && all_newlines (String b s)) eqn:Hc.
    + apply andb_true_iff in Hc as [_ Hc].
      split; [lia |]. intros _.
      apply last_byte_all_newlines; [discriminate | exact Hc].
    + exact IH.
Qed.

(** Exactly one terminator for a message ending in none or in one, and for
    a message ending in several, those and no more. *)
Lemma trailing_terminated s :
  trailing_newlines (s +:+ terminator s) = Nat.max 1 (trailing_newlines s).
Proof.
  unfold terminator.
  destruct (ends_with_newline s) eqn:He.
  - rewrite append_nil_r. apply ends_with_newline_trailing in He. lia.
  - rewrite trailing_append. simpl.
    destruct (trailing_newlines s) as [| n] eqn:Hn; [reflexivity |].
    assert (ends_with_newline s = true) as Ht
      by (apply ends_with_newline_trailing; lia).
    congruence.
Qed.

Lemma ends_with_newline_terminated s :
  ends_with_newline (s +:+ terminator s) = true.
Proof.
  apply ends_with_newline_trailing. rewrite trailing_terminated. lia.
Qed.

(** The record as header, message and terminator. *)
Lemma record_terminator fh now frames skip s fl :
  record fh now frames skip s fl =
    (let '(file, line, fn) := resolve frames skip in
     fh EmptyString fl now file line fn) +:+ s +:+ terminator s.
Proof.
  unfold record, terminator. rewrite needs_newline_spec.
  destruct (resolve frames skip) as [[file line] fn].
  destruct (ends_with_newline s); simpl.
  - by rewrite append_nil_r.
  - by rewrite append_assoc.
Qed.

Lemma terminator_cases s :
  (terminator s = String newline EmptyString <->
     s = EmptyString \/ last_byte s <> Some newline) /\
  (terminator s = EmptyString <-> last_byte s = Some newline).
Proof.
  unfold terminator, ends_with_newline.
  destruct (decide (last_byte s = Some newline)) as [He | Hn].
  - rewrite bool_decide_eq_true_2 by exact He.
    split; split; try discriminate; auto.
    intros [-> | H]; [discriminate He | contradiction].
  - rewrite bool_decide_eq_false_2 by exact Hn.
    split; split; try discriminate; auto. intros H. contradiction.
Qed.

(** The header of the package ends in the separator, not in a
    terminator. *)
Lemma formatHeader_trailing b t file line fn :
  trailing_newlines (formatHeader b t file line fn) = O.
Proof.
  unfold formatHeader. cbv zeta. rewrite trailing_append. reflexivity.
Qed.

(** C7: relative to the message [s], the record gets a terminator exactly
    when [s] is empty or does not end in one, and nothing otherwise: the
    bytes written are header, [s] and that terminator, they always end in a
    terminator, and they end in exactly as many as [s] does, or in one when
    [s] ends in none -- never in one more than [s] when [s] has one. *)
Theorem record_line_terminator :
  forall s : string,
    (terminator s = String newline EmptyString <->
       s = EmptyString \/ last_byte s <> Some newline) /\
    (terminator s = EmptyString <-> last_byte s = Some newline) /\
    ends_with_newline (s +:+ terminator s) = true /\
    trailing_newlines (s +:+ terminator s)
      = Nat.max 1 (trailing_newlines s) /\
    (* the rotate logger *)
    (forall os fh now frames skip (l : RotateLogger os) w l1 w1 e l2 w2,
       rotateFile os now l w = (None, l1, w1) ->
       Output os fh now frames skip s l w = (e, l2, w2) ->
       buf l2 =
         (let '(file, line, fn) := resolve frames skip in
          fh EmptyString (flags l1) now file line fn) +:+ s +:+ terminator s
       /\ exists h nn, f l1 = Some h /\
            FileWrite os h (buf l2) w1 = ((nn, e), w2)) /\
    (* the writer logger *)
    (forall Sink Write now frames skip (l : WriterLogger Sink),
       let r := WriterOutput Sink Write now frames skip s l in
       wbuf (snd r) =
         (let '(file, line, fn) := resolve frames skip in
          formatHeader EmptyString now file line fn) +:+ s +:+ terminator s
       /\ trailing_newlines (wbuf (snd r)) = Nat.max 1 (trailing_newlines s)
       /\ exists nn, Write (wbuf (snd r)) (out l) = ((nn, fst r), out (snd r))).
Proof.
  intros s.
  destruct (terminator_cases s) as [H1 H2].
  split; [exact H1 |]. split; [exact H2 |].
  split; [apply ends_with_newline_terminated |].
  split; [apply trailing_terminated |].
  split.
  - intros os fh now frames skip l w l1 w1 e l2 w2 Hr Ho.
    destruct (rotateFile_success_open os now l w l1 w1 Hr) as [h Hf].
    rewrite (Output_write_step os fh now frames skip s l w l1 w1 Hr) in Ho.
    cbv zeta in Ho. rewrite Hf in Ho.
    destruct (FileWrite os h _ w1) as [[nn err] w3] eqn:Hw.
    injection Ho as <- <- <-. simpl.
    split; [apply record_terminator |]. exists h, nn. auto.
  - intros Sink Write now frames skip l r.
    assert (Hb : wbuf (snd r) =
      (let '(file, line, fn) := resolve frames skip in
       formatHeader EmptyString now file line fn) +:+ s +:+ terminator s
      /\ exists nn, Write (wbuf (snd r)) (out l) = ((nn, fst r), out (snd r))).
    { subst r. unfold WriterOutput, resolve, terminator.
      rewrite needs_newline_spec.
      destruct (match frames skip with
                | Some fr => fr
                | None => ("????", 0, "unknown")
                end) as [[file line] fn].
      destruct (ends_with_newline s); cbv zeta.
      - destruct (Write _ (out l)) as [[nn err] o] eqn:Hw. simpl.
        rewrite append_nil_r. eauto.
      - destruct (Write _ (out l)) as [[nn err] o] eqn:Hw. simpl.
        rewrite <- append_assoc. eauto. }
    destruct Hb as [Hb Hw]. split; [exact Hb |]. split; [| exact Hw].
    rewrite Hb. destruct (resolve frames skip) as [[file line] fn].
    rewrite trailing_append, formatHeader_trailing, trailing_terminated.
    destruct (all_newlines (s +:+ terminator s)) eqn:Ha; [| reflexivity].
    rewrite <- trailing_terminated. simpl.
    symmetry. by apply trailing_all_newlines.
Qed.

Lemma record_line_terminator_witness :
  buf (MemFS.logger_of
         (Output MemFS.mem_os MemFS.header MemFS.t0 MemFS.no_frames 2
            "TRACE|hello" MemFS.unlimited_logger MemFS.sample_mem))
  = "20240307 09:05:59.123456|????:0|unknown|TRACE|hello"
    +:+ String newline EmptyString.
Proof.
  destruct (Output MemFS.mem_os MemFS.header MemFS.t0 MemFS.no_frames 2
              "TRACE|hello" MemFS.unlimited_logger MemFS.sample_mem)
    as [[e l2] w2] eqn:Ho.
  destruct (record_line_terminator "TRACE|hello") as (_ & _ & _ & _ & H & _).
  destruct (H MemFS.mem_os MemFS.header MemFS.t0 MemFS.no_frames 2
              MemFS.unlimited_logger MemFS.sample_mem
              MemFS.unlimited_logger MemFS.sample_mem e l2 w2) as [Hb _].
  { vm_compute. reflexivity. }
  { exact Ho. }
  unfold MemFS.logger_of. simpl. rewrite Hb. vm_compute. reflexivity.
Defined.

(** ** The header *)

Lemma zeros_snoc n : zeros n +:+ "0" = zeros (S n).
Proof.
  induction n as [| n IH]; [reflexivity |].
  change (zeros (S n)) with (String "0"%char (zeros n)) at 1.
  rewrite append_cons, IH. reflexivity.
Qed.

Lemma fixed_digits_zero k : fixed_digits k 0 = zeros k.
Proof.
  induction k as [| k IH]; [reflexivity |].
  simpl fixed_digits. change (0 / 10) with 0. rewrite IH.
  change (String (digit_char (0 mod 10)) EmptyString) with "0".
  apply zeros_snoc.
Qed.

Lemma pretty_N_char_digit (x : N) :
  (x < 10)%N -> pretty_N_char x = digit_char (Z.of_N x).
Proof.
  intros Hx.
  assert (x = 0 \/ x = 1 \/ x = 2 \/ x = 3 \/ x = 4 \/ x = 5 \/ x = 6
          \/ x = 7 \/ x = 8 \/ x = 9)%N as H by lia.
  repeat (destruct H as [-> | H]; [reflexivity |]). by subst.
Qed.

(** The length of what the digit loop of the printer adds. *)
Lemma length_pretty_N_go (x : N) (acc : string) :
  String.length (pretty_N_go x acc)
  = (String.length (pretty_N_go x EmptyString) + String.length acc)%nat.
Proof.
  revert acc. induction (N.lt_wf_0 x) as [x _ IH]. intros acc.
  destruct (decide (x = 0)%N) as [-> | Hx].
  - by rewrite !pretty_N_go_0.
  - rewrite (pretty_N_go_step x acc), (pretty_N_go_step x EmptyString) by lia.
    rewrite (IH (x `div` 10)%N) by (apply N.div_lt; lia).
    rewrite (IH (x `div` 10)%N ltac:(apply N.div_lt; lia) (String _ EmptyString)).
    simpl. lia.
Qed.

(** The digit loop of the printer gives the fixed-width digits without
    their leading zeros. *)
Lemma fixed_digits_pretty_go (k : nat) :
  forall (n : Z) (acc : string),
    0 <= n < 10 ^ Z.of_nat k ->
    fixed_digits k n +:+ acc =
      zeros (k - String.length (pretty_N_go (Z.to_N n) EmptyString))
      +:+ pretty_N_go (Z.to_N n) acc.
Proof.
  induction k as [| k IH]; intros n acc Hn.
  - assert (n = 0) as -> by (simpl in Hn; lia). reflexivity.
  - destruct (decide (n = 0)) as [-> | Hpos].
    + rewrite fixed_digits_zero. reflexivity.
    + assert (Hdiv : 0 <= n / 10 < 10 ^ Z.of_nat k).
      { rewrite Nat2Z.inj_succ, Z.pow_succ_r in Hn by lia.
        split; [apply Z.div_pos; lia |].
        apply Z.div_lt_upper_bound; lia. }
      simpl fixed_digits. rewrite append_assoc, append_cons, append_nil_l.
      rewrite (IH (n / 10) _ Hdiv).
      rewrite (pretty_N_go_step (Z.to_N n) acc) by lia.
      rewrite (pretty_N_go_step (Z.to_N n) EmptyString) by lia.
      rewrite (length_pretty_N_go _ (String _ EmptyString)).
      replace (Z.to_N n `div` 10)%N with (Z.to_N (n / 10))
        by (rewrite Z2N.inj_div by lia; reflexivity).
      rewrite pretty_N_char_digit by (apply N.mod_lt; lia).
      replace (Z.of_N (Z.to_N n `mod` 10)) with (n mod 10)
        by (rewrite N2Z.inj_mod, Z2N.id by lia; reflexivity).
      f_equal. f_equal. simpl. lia.
Qed.

(** [%0kd] of a number of at most [k] digits gives exactly [k] digits. *)
Lemma Sprintf_0d_fixed (k : nat) (n : Z) :
  (1 <= k)%nat -> 0 <= n < 10 ^ Z.of_nat k ->
  Sprintf_0d k n = fixed_digits k n.
Proof.
  intros Hk Hn. unfold Sprintf_0d.
  replace (n <? 0) with false by (symmetry; apply Z.ltb_ge; lia).
  unfold zero_pad, pretty, pretty_N.
  destruct (decide (Z.to_N n = 0%N)) as [H0 | Hpos].
  - assert (n = 0) as -> by lia. rewrite fixed_digits_zero.
    destruct k as [| k]; [lia |]. simpl String.length.
    replace (S k - 1)%nat with k by lia. apply zeros_snoc.
  - rewrite <- (append_nil_r (fixed_digits k n)).
    by rewrite fixed_digits_pretty_go.
Qed.

Lemma length_fixed_digits (k : nat) (n : Z) :
  String.length (fixed_digits k n) = k.
Proof.
  revert n. induction k as [| k IH]; intros n; [reflexivity |].
  simpl. rewrite length_append, IH. simpl. lia.
Qed.

(** [LastIndexByte] is [-1] exactly when the byte does not occur, and an
    index of the string otherwise. *)
Lemma LastIndexByte_range (s : string) (c : ascii) :
  (contains_byte c s = false /\ LastIndexByte s c = -1) \/
  (contains_byte c s = true /\ 0 <= LastIndexByte s c < len s).
Proof.
  unfold len. induction s as [| a s IH]; [left; auto |].
  change (String.length (String a s)) with (S (String.length s)).
  rewrite Nat2Z.inj_succ.
  simpl LastIndexByte. simpl contains_byte.
  destruct IH as [[Hc Hr] | [Hc Hr]]; rewrite Hc, ?orb_true_r, ?orb_false_r.
  - rewrite Hr. simpl. destruct (Ascii.eqb a c); [right | left]; split; auto.
    lia.
  - right. split; [reflexivity |].
    destruct (Z.leb_spec 0 (LastIndexByte s c)); lia.
Qed.

(** The slice the formatter takes is the basename. *)
Lemma slice_basename (file : string) :
  slice_from file (LastIndexByte file slash + 1) = basename file.
Proof.
  unfold slice_from. induction file as [| a s IH]; [reflexivity |].
  simpl LastIndexByte. simpl basename.
  destruct (LastIndexByte_range s slash) as [[Hc Hr] | [Hc Hr]]; rewrite Hc.
  - rewrite Hr. simpl (0 <=? -1).  cbv iota.
    destruct (Ascii.eqb a slash); reflexivity.
  - replace (0 <=? LastIndexByte s slash) with true
      by (symmetry; apply Z.leb_le; lia).
    replace (Z.to_nat (LastIndexByte s slash + 1 + 1))
      with (S (Z.to_nat (LastIndexByte s slash + 1))) by lia.
    simpl. exact IH.
Qed.

(** The basename holds no ['/'], is all of a path without one, and is what
    follows a prefix of the path that is empty or ends in ['/']. *)
Lemma basename_spec (file : string) :
  contains_byte slash (basename file) = false /\
  (contains_byte slash file = false -> basename file = file) /\
  exists dir, file = dir +:+ basename file /\
    (dir = EmptyString \/ last_byte dir = Some slash).
Proof.
  induction file as [| a s (IH1 & IH2 & dir & IH3 & IH4)].
  - split; [reflexivity |]. split; [reflexivity |].
    exists EmptyString. auto.
  - simpl basename. simpl contains_byte.
    destruct (contains_byte slash s) eqn:Hc.
    + split; [exact IH1 |]. split; [rewrite orb_true_r; discriminate |].
      exists (String a dir). rewrite append_cons, <- IH3.
      split; [reflexivity |]. right.
      destruct IH4 as [-> | IH4].
      * rewrite append_nil_l in IH3. rewrite <- IH3 in IH1. congruence.
      * destruct dir; [discriminate IH4 | exact IH4].
    + rewrite orb_false_r. destruct (Ascii.eqb a slash) eqn:Ha.
      * split; [exact Hc |]. split; [discriminate |].
        apply Ascii.eqb_eq in Ha. subst a.
        exists (String slash EmptyString). auto.
      * split; [simpl; by rewrite Ha, Hc |]. split; [reflexivity |].
        exists EmptyString. auto.
Qed.

(** Integer division by 1000 truncates. *)
Lemma microseconds_truncate (ns : Z) :
  0 <= ns ->
  Z.quot ns 1000 = ns / 1000 /\
  1000 * Z.quot ns 1000 <= ns < 1000 * Z.quot ns 1000 + 1000.
Proof.
  intros Hns. rewrite Z.quot_div_nonneg by lia.
  split; [reflexivity |].
  pose proof (Z.mul_div_le ns 1000 ltac:(lia)).
  pose proof (Z.mul_succ_div_gt ns 1000 ltac:(lia)). lia.
Qed.

(** The formatter appends stamp and location, whatever the buffer holds. *)
Lemma formatHeader_stamp_location b t file line fn :
  wellFormedTime t ->
  formatHeader b t file line fn = b +:+ stamp t +:+ location file line fn.
Proof.
  intros (Hy & Hmo & Hd & Hh & Hmi & Hs & Hn).
  unfold formatHeader, stamp, location. cbv zeta.
  rewrite slice_basename.
  destruct (microseconds_truncate (Nanosecond t) ltac:(lia)) as [-> Hus].
  rewrite !Sprintf_0d_fixed by (simpl; lia).
  rewrite !append_assoc. reflexivity.
Qed.

(** [%d] of a number that is not negative gives its digits without leading
    zeros: padding them gives the fixed-width digits. *)
Lemma Sprintf_d_fixed (k : nat) (n : Z) :
  (1 <= k)%nat -> 0 <= n < 10 ^ Z.of_nat k ->
  zero_pad k (Sprintf_d n) = fixed_digits k n.
Proof.
  intros Hk Hn. rewrite <- Sprintf_0d_fixed by assumption.
  unfold Sprintf_0d, Sprintf_d.
  replace (n <? 0) with false by (symmetry; apply Z.ltb_ge; lia).
  destruct n as [| p | p]; [reflexivity | reflexivity | lia].
Qed.

Lemma Sprintf_d_negative (n : Z) :
  n < 0 -> Sprintf_d n = "-" +:+ Sprintf_d (- n).
Proof. destruct n as [| p | p]; [lia | lia | reflexivity]. Qed.

Lemma Sprintf_d_inj (n m : Z) : Sprintf_d n = Sprintf_d m -> n = m.
Proof. apply pretty_Z_inj. Qed.

(** C8: [formatHeader] appends the prefix
    [YYYYMMDD HH:MM:SS.UUUUUU|basename(file):line|function|]: the date and
    time fields through [%04d], [%02d] and [%06d], which for the fields of a
    timestamp are exactly 4/2/2 and 2/2/2 and 6 digits; the microseconds are
    the nanoseconds divided by 1000, truncated; the file is cut to what
    follows its last ['/'] (all of it when it has none); the line is in
    plain decimal.  An unresolved caller is written as [????:0|unknown|]:
    [Output] of either logger then hands the placeholders [????], [0] and
    [unknown] to the formatter, a resolved caller its file, line and
    function, and the record so made is written all the same, the result
    of the write being returned. *)
Theorem formatHeader_prefix :
  forall (b : string) (t : Time) (file : string) (line : Z) (fn : string),
    (* the shape, for every timestamp *)
    formatHeader b t file line fn =
      b +:+ Sprintf_0d 4 (Year t) +:+ Sprintf_0d 2 (Month t)
        +:+ Sprintf_0d 2 (Day t) +:+ " " +:+ Sprintf_0d 2 (Hour t) +:+ ":"
        +:+ Sprintf_0d 2 (Minute t) +:+ ":" +:+ Sprintf_0d 2 (Second t)
        +:+ "." +:+ Sprintf_0d 6 (Z.quot (Nanosecond t) 1000) +:+ "|"
        +:+ basename file +:+ ":" +:+ Sprintf_d line +:+ "|" +:+ fn +:+ "|" /\
    (* fixed widths and truncation *)
    (wellFormedTime t ->
       formatHeader b t file line fn = b +:+ stamp t +:+ location file line fn
       /\ String.length (stamp t) = 25%nat
       /\ 1000 * (Nanosecond t / 1000) <= Nanosecond t
            < 1000 * (Nanosecond t / 1000) + 1000) /\
    (* the file *)
    contains_byte slash (basename file) = false /\
    (contains_byte slash file = false -> basename file = file) /\
    (exists dir, file = dir +:+ basename file /\
       (dir = EmptyString \/ last_byte dir = Some slash)) /\
    (* the line *)
    (forall k, (1 <= k)%nat -> 0 <= line < 10 ^ Z.of_nat k ->
       zero_pad k (Sprintf_d line) = fixed_digits k line) /\
    (line < 0 -> Sprintf_d line = "-" +:+ Sprintf_d (- line)) /\
    (forall line', Sprintf_d line = Sprintf_d line' -> line = line') /\
    (* the placeholders *)
    location "????" 0 "unknown" = "????:0|unknown|" /\
    (forall os fh frames skip s (l : RotateLogger os) w,
       frames skip = None ->
       Output os fh t frames skip s l w = Output os fh t unresolved skip s l w)
    /\
    (forall Sink Write frames skip s (l : WriterLogger Sink),
       frames skip = None ->
       let r := WriterOutput Sink Write t frames skip s l in
       wbuf (snd r) =
         formatHeader EmptyString t "????" 0 "unknown" +:+ s +:+ terminator s
       /\ exists nn, Write (wbuf (snd r)) (out l) = ((nn, fst r), out (snd r)))
    /\
    (* what reaches the formatter and the file, for the rotate logger: the
       placeholders when the caller is not resolved, the caller otherwise *)
    (forall os fh frames skip s (l : RotateLogger os) w l1 w1,
       frames skip = None ->
       rotateFile os t l w = (None, l1, w1) ->
       let record :=
         fh EmptyString (flags l1) t "????" 0 "unknown" +:+ s +:+ terminator s
       in
       exists h nn e w2 l2,
         f l1 = Some h /\
         FileWrite os h record w1 = ((nn, e), w2) /\
         Output os fh t frames skip s l w = (e, l2, w2) /\
         buf l2 = record) /\
    (forall os fh frames skip s (l : RotateLogger os) w l1 w1 file' line' fn',
       frames skip = Some (file', line', fn') ->
       rotateFile os t l w = (None, l1, w1) ->
       let record :=
         fh EmptyString (flags l1) t file' line' fn' +:+ s +:+ terminator s in
       exists h nn e w2 l2,
         f l1 = Some h /\
         FileWrite os h record w1 = ((nn, e), w2) /\
         Output os fh t frames skip s l w = (e, l2, w2) /\
         buf l2 = record) /\
    (* a caller that is resolved, for the writer logger *)
    (forall Sink Write frames skip s (l : WriterLogger Sink) file' line' fn',
       frames skip = Some (file', line', fn') ->
       let r := WriterOutput Sink Write t frames skip s l in
       wbuf (snd r) =
         formatHeader EmptyString t file' line' fn' +:+ s +:+ terminator s
       /\ exists nn, Write (wbuf (snd r)) (out l) = ((nn, fst r), out (snd r))).
Proof.
  intros b t file line fn.
  split.
  { unfold formatHeader. cbv zeta. rewrite slice_basename.
    rewrite !append_assoc. reflexivity. }
  split.
  { intros Hwf. split; [by apply formatHeader_stamp_location |].
    split.
    - unfold stamp. rewrite !length_append, !length_fixed_digits. reflexivity.
    - destruct Hwf as (_ & _ & _ & _ & _ & _ & Hn).
      destruct (microseconds_truncate (Nanosecond t) ltac:(lia)) as [<- H].
      exact H. }
  destruct (basename_spec file) as (Hb1 & Hb2 & Hb3).
  split; [exact Hb1 |]. split; [exact Hb2 |]. split; [exact Hb3 |].
  split; [intros k; apply Sprintf_d_fixed |].
  split; [apply Sprintf_d_negative |].
  split; [intros line'; apply Sprintf_d_inj |].
  split; [reflexivity |].
  split.
  { intros os fh frames skip s l w Hnone.
    unfold Output, resolve, unresolved. rewrite Hnone. reflexivity. }
  assert (Hrot : forall os fh frames skip s (l : RotateLogger os) w l1 w1
                        file' line' fn',
            resolve frames skip = (file', line', fn') ->
            rotateFile os t l w = (None, l1, w1) ->
            exists h nn e w2 l2,
              f l1 = Some h /\
              FileWrite os h
                (fh EmptyString (flags l1) t file' line' fn' +:+ s
                 +:+ terminator s) w1 = ((nn, e), w2) /\
              Output os fh t frames skip s l w = (e, l2, w2) /\
              buf l2 = fh EmptyString (flags l1) t file' line' fn' +:+ s
                       +:+ terminator s).
  { intros os fh frames skip s l w l1 w1 file' line' fn' Hres Hr.
    destruct (Output_counts os fh t frames skip s l w l1 w1 Hr)
      as (h & Hf & Hstep).
    rewrite record_terminator, Hres in Hstep.
    destruct (FileWrite os h
                (fh EmptyString (flags l1) t file' line' fn' +:+ s
                 +:+ terminator s) w1) as [[nn e] w2] eqn:Hw.
    destruct (Hstep nn e w2 eq_refl) as (l2 & Ho & _ & _ & Hb & _).
    exists h, nn, e, w2, l2. auto. }
  assert (Hwr : forall Sink Write frames skip s (l : WriterLogger Sink)
                       file' line' fn',
            resolve frames skip = (file', line', fn') ->
            let r := WriterOutput Sink Write t frames skip s l in
            wbuf (snd r) =
              formatHeader EmptyString t file' line' fn' +:+ s
              +:+ terminator s
            /\ exists nn,
                 Write (wbuf (snd r)) (out l) = ((nn, fst r), out (snd r))).
  { intros Sink Write frames skip s l file' line' fn' Hres r. subst r.
    unfold resolve in Hres.
    unfold WriterOutput, terminator. rewrite Hres, needs_newline_spec.
    destruct (ends_with_newline s); cbv zeta.
    - destruct (Write _ (out l)) as [[nn err] o] eqn:Hw. simpl.
      rewrite append_nil_r. eauto.
    - destruct (Write _ (out l)) as [[nn err] o] eqn:Hw. simpl.
      rewrite <- append_assoc. eauto. }
  split_and!.
  - intros Sink Write frames skip s l Hnone.
    apply Hwr. unfold resolve. by rewrite Hnone.
  - intros os fh frames skip s l w l1 w1 Hnone Hr.
    apply Hrot; [| exact Hr]. unfold resolve. by rewrite Hnone.
  - intros os fh frames skip s l w l1 w1 file' line' fn' Hsome Hr.
    apply Hrot; [| exact Hr]. unfold resolve. by rewrite Hsome.
  - intros Sink Write frames skip s l file' line' fn' Hsome.
    apply Hwr. unfold resolve. by rewrite Hsome.
Qed.

Lemma formatHeader_prefix_witness :
  formatHeader EmptyString t_example "/home/u/src/main.go" 42 "main.main"
  = "20240307 09:05:59.123456|main.go:42|main.main|" /\
  buf (MemFS.logger_of
         (Output MemFS.mem_os MemFS.header MemFS.t0 MemFS.no_frames 2
            "TRACE|hello" MemFS.unlimited_logger MemFS.sample_mem))
  = "20240307 09:05:59.123456|????:0|unknown|TRACE|hello"
    +:+ String newline EmptyString.
Proof.
  split.
  - destruct (formatHeader_prefix EmptyString t_example "/home/u/src/main.go"
                42 "main.main") as (_ & H & _).
    destruct H as (H & _).
    + unfold wellFormedTime. simpl. lia.
    + rewrite H. vm_compute. reflexivity.
  - destruct (formatHeader_prefix EmptyString MemFS.t0 "/home/u/src/main.go"
                42 "main.main")
      as (_ & _ & _ & _ & _ & _ & _ & _ & _ & _ & _ & H & _).
    destruct (H MemFS.mem_os MemFS.header MemFS.no_frames 2 "TRACE|hello"
                MemFS.unlimited_logger MemFS.sample_mem
                MemFS.unlimited_logger MemFS.sample_mem)
      as (h & nn & e & w2 & l2 & _ & _ & Ho & Hb).
    + reflexivity.
    + vm_compute. reflexivity.
    + rewrite Ho. unfold MemFS.logger_of. simpl. rewrite Hb.
      vm_compute. reflexivity.
Defined.

(** ** Invariants of the sink *)

Section LifetimeProps.

Variable os : OS.
Variable LdefaultFlags : Z.
Variable formatHeaderFlags :
  string -> Z -> Time -> string -> Z -> string -> string.

Implicit Types (l : RotateLogger os) (w : World os).

Lemma scanLoop_fields ids now l w e l' :
  scanLoop os ids now l w = (e, l') ->
  logDir l' = logDir l /\ level l' = level l /\
  logSizeLimit l' = logSizeLimit l /\ flags l' = flags l /\
  buf l' = buf l /\ f l' = f l /\ fname l' = fname l /\ nbytes l' = nbytes l /\
  (is_int32 (fid l) -> is_int32 (fid l')).
Proof.
  revert l. induction ids as [| i ids IH]; intros l; simpl.
  - intros [= <- <-]. auto 10.
  - destruct (Stat os _ w) as [sz | err].
    + intros H. apply IH in H. simpl in H.
      destruct H as (? & ? & ? & ? & ? & ? & ? & ? & Hi).
      split_and!; auto. intros _. apply Hi. apply int32_range.
    + destruct (IsNotExist err); intros [= <- <-]; auto 10.
Qed.

Lemma retarget_int32 d now l :
  is_int32 (fid l) -> is_int32 (fid (retarget os d now l)).
Proof.
  intros Hi. destruct d; simpl; auto.
  - unfold is_int32, MinInt32, MaxInt32. lia.
  - apply int32_range.
Qed.

Lemma retarget_fields d now l :
  f (retarget os d now l) = f l /\ nbytes (retarget os d now l) = nbytes l /\
  logDir (retarget os d now l) = logDir l.
Proof. destruct d; simpl; auto. Qed.

(** The rotation step keeps the invariant, and after a failure the byte
    counter is zero and no file is open. *)
Lemma rotateFile_consistent now l w e l1 w1 :
  consistent os l ->
  rotateFile os now l w = (e, l1, w1) ->
  consistent os l1 /\
  (e <> None -> f l1 = None /\ nbytes l1 = 0).
Proof.
  intros [Hn Hi]. rewrite rotateFile_perform.
  destruct (decision_cases os now l) as (_ & _ & _ & Hd).
  intros Hp. pose proof (perform_target os _ _ _ _ _ _ _ Hp) as (_ & Hfid & _).
  assert (Hi1 : is_int32 (fid l1)).
  { rewrite Hfid. by apply retarget_int32. }
  destruct (decision os now l) eqn:Hdec; simpl in Hp.
  4: { injection Hp as <- <- <-. split; [by split |]. intros H. done. }
  all: destruct (closeCurrent os _ w) as [l0 w0] eqn:Hc;
    assert (H0 : f l0 = None /\ nbytes l0 = 0)
      by (revert Hc; unfold closeCurrent; simpl;
          destruct (f l) eqn:Hf; intros [= <- <-]; simpl; auto);
    destruct H0 as [Hf0 Hn0];
    apply createFile_file in Hp; destruct e as [err |];
    [ destruct Hp as (Hf1 & Hn1 & _); split;
        [split; [intros _; congruence | exact Hi1] | intros _; split; congruence]
    | destruct Hp as (h & Hf1 & _); split;
        [split; [intros H; congruence | exact Hi1] | intros H; done] ].
Qed.

Lemma Output_consistent now frames skip s l w e l' w' :
  consistent os l ->
  Output os formatHeaderFlags now frames skip s l w = (e, l', w') ->
  consistent os l'.
Proof.
  intros Hc Ho.
  destruct (rotateFile os now l w) as [[e1 l1] w1] eqn:Hr.
  destruct (rotateFile_consistent _ _ _ _ _ _ Hc Hr) as [Hc1 Hfail].
  destruct e1 as [err |].
  - rewrite (Output_rotate_failure os _ _ _ _ _ _ _ _ _ _ Hr) in Ho.
    by injection Ho as <- <- <-.
  - destruct (rotateFile_success_open os _ _ _ _ _ Hr) as [h Hf].
    destruct (Output_target os _ _ _ _ _ _ _ _ _ _ _ _ _ Hr Ho)
      as (_ & Hi & _ & Hf2 & _).
    split; [intros H; congruence |]. rewrite Hi. apply Hc1.
Qed.

(** Every reachable logger is consistent. *)
Lemma Reachable_consistent l :
  Reachable os LdefaultFlags formatHeaderFlags l -> consistent os l.
Proof.
  induction 1 as [logDir level now w l w' Hnew | now frames skip s l w e l' w' _ IH Ho
                  | v l _ IH | v l _ IH | v l _ IH].
  - unfold NewRotateLogger in Hnew.
    destruct (MkdirAll os logDir w) as [[err |] w0]; [discriminate |].
    destruct (scanLoop os _ now _ w0) as [[err |] l0] eqn:Hs; [discriminate |].
    apply scanLoop_fields in Hs. simpl in Hs.
    destruct Hs as (_ & _ & _ & _ & _ & _ & _ & _ & Hi).
    destruct (createFile os l0 w0) as [[[err |] l1] w1] eqn:Hc;
      [discriminate |].
    injection Hnew as <- <-.
    apply createFile_fields in Hc as Hfields.
    apply createFile_file in Hc. destruct Hc as (h & Hf & _).
    split; [intros H; congruence |].
    destruct Hfields as (_ & _ & _ & _ & _ & _ & ->). apply Hi.
    unfold is_int32, MinInt32, MaxInt32. lia.
  - eapply Output_consistent; eauto.
  - exact IH.
  - exact IH.
  - exact IH.
Qed.

End LifetimeProps.

(** ** Size-based rotation disabled, across the revisions *)

Lemma NewRotateLogger_limit os L dir lvl now w (l : RotateLogger os) w' :
  NewRotateLogger os L dir lvl now w = (Some l, None, w') ->
  logSizeLimit l = DEFAULT_LOG_FILE_SIZE.
Proof.
  unfold NewRotateLogger.
  destruct (MkdirAll os dir w) as [[err |] w0]; [discriminate |].
  destruct (scanLoop os _ now _ w0) as [[err |] l0] eqn:Hs; [discriminate |].
  apply scanLoop_fields in Hs. simpl in Hs.
  destruct Hs as (_ & _ & Hl & _).
  destruct (createFile os l0 w0) as [[[err |] l1] w1] eqn:Hc; [discriminate |].
  intros [= <- <-]. apply createFile_fields in Hc.
  destruct Hc as (_ & _ & Hl1 & _). congruence.
Qed.

(** Under a positive limit the former [Output] is the present one, with
    the formatter that has no flags. *)
Lemma Output_former_positive os now frames skip s (l : RotateLogger os) w :
  0 < logSizeLimit l ->
  Output_former os now frames skip s l w =
  Output os (fun b _ t file line fn => formatHeader b t file line fn)
    now frames skip s l w.
Proof.
  intros Hpos. unfold Output_former, Output.
  rewrite rotateFile_former_positive by exact Hpos. reflexivity.
Qed.

(** In the former revision the limit is the default one, for good. *)
Lemma ReachableFormer_limit os (l : RotateLogger os) :
  ReachableFormer os l -> logSizeLimit l = DEFAULT_LOG_FILE_SIZE.
Proof.
  induction 1 as [dir lvl now w l w' Hnew
                  | now frames skip s l w e l' w' _ IH Ho | v l _ IH].
  - by apply NewRotateLogger_limit in Hnew.
  - rewrite Output_former_positive in Ho
      by (rewrite IH; unfold DEFAULT_LOG_FILE_SIZE; lia).
    apply Output_retarget in Ho. destruct Ho as (_ & _ & Hl & _). congruence.
  - exact IH.
Qed.

(** C2: with a non-positive size limit, along any run of [Output] calls
    whose timestamps lie in one bucket the sequence id never moves to a new
    value, whatever the writes report: the sink stays on the file it has in
    that bucket (sequence 0 of the bucket, when the run enters it).  The
    former revision of the rotation step, which has no test of the sign of
    the limit, never meets a non-positive limit: there the limit is the
    positive default and cannot be set. *)
Theorem unlimited_never_rolls :
  forall os fh,
    (forall (cs : list Call) (l : RotateLogger os) (w : World os) (k : string),
       logSizeLimit l <= 0 ->
       (forall c, c ∈ cs -> bucketKey (c_now c) = k) ->
       forall l', l' ∈ history os fh cs l w ->
         fname l' = k /\
         fid l' = (if decide (fname l = k) then fid l else 0) /\
         logSizeLimit l' = logSizeLimit l) /\
    (forall l : RotateLogger os,
       ReachableFormer os l ->
       0 < logSizeLimit l /\
       forall now w, rotateFile_former os now l w = rotateFile os now l w).
Proof.
  intros os fh. split.
  - intros cs. induction cs as [| c cs IH]; intros l w k Hlim Hk l' Hin.
    + simpl in Hin. by apply elem_of_nil in Hin.
    + simpl in Hin.
      destruct (Output os fh (c_now c) (c_frames c) (c_skip c) (c_msg c) l w)
        as [[e l1] w1] eqn:Ho.
      apply (Output_unlimited os fh) in Ho; [| exact Hlim].
      destruct Ho as (Hl1 & Hn1 & Hi1).
      assert (Hck : bucketKey (c_now c) = k)
        by (apply Hk; apply list_elem_of_here).
      rewrite Hck in Hn1, Hi1.
      apply elem_of_cons in Hin as [-> | Hin].
      * auto.
      * apply (IH l1 w1 k) in Hin.
        -- destruct Hin as (Hn & Hi & Hl).
           rewrite decide_True in Hi by exact Hn1.
           split_and!; congruence.
        -- lia.
        -- intros c' Hc'. apply Hk. by apply list_elem_of_further.
  - intros l Hl. apply ReachableFormer_limit in Hl.
    assert (Hpos : 0 < logSizeLimit l)
      by (rewrite Hl; unfold DEFAULT_LOG_FILE_SIZE; lia).
    split; [exact Hpos |]. intros now w.
    by apply rotateFile_former_positive.
Qed.

(** The logger at the end of a run is the last of its history. *)
Lemma run_in_history os fh (cs : list Call) (l : RotateLogger os) w :
  cs <> [] -> fst (run os fh cs l w) ∈ history os fh cs l w.
Proof.
  revert l w. induction cs as [| c cs IH]; intros l w Hne; [done |].
  simpl.
  destruct (Output os fh (c_now c) (c_frames c) (c_skip c) (c_msg c) l w)
    as [[e l1] w1].
  destruct cs as [| c' cs'].
  - simpl. apply list_elem_of_here.
  - apply list_elem_of_further. apply IH. discriminate.
Qed.

Lemma unlimited_never_rolls_witness :
  fname (fst (run MemFS.mem_os MemFS.header MemFS.two_calls
                MemFS.unlimited_logger MemFS.sample_mem)) = "2024030709.log" /\
  fid (fst (run MemFS.mem_os MemFS.header MemFS.two_calls
              MemFS.unlimited_logger MemFS.sample_mem)) = 0 /\
  logSizeLimit (fst (run MemFS.mem_os MemFS.header MemFS.two_calls
              MemFS.unlimited_logger MemFS.sample_mem)) = 0.
Proof.
  apply (proj1 (unlimited_never_rolls MemFS.mem_os MemFS.header)
           MemFS.two_calls MemFS.unlimited_logger MemFS.sample_mem
           "2024030709.log").
  - simpl. lia.
  - intros c Hc. unfold MemFS.two_calls in Hc.
    repeat (apply elem_of_cons in Hc as [-> | Hc]; [vm_compute; reflexivity |]).
    by apply elem_of_nil in Hc.
  - apply run_in_history. discriminate.
Defined.

(** ** A failed open *)

Lemma targetName_eq os (l l' : RotateLogger os) :
  fname l' = fname l -> fid l' = fid l -> targetName l' = targetName l.
Proof. unfold targetName. by intros -> ->. Qed.

(** C4, amended: when the open of the target of a roll fails, [Output]
    returns that error, with the buffer untouched and nothing done to the
    world but the close of the old file and the failed open; the sink has
    no open file, a byte counter of zero, and the bucket key and the
    sequence id of the failed target.  The next call whose timestamp is in
    that bucket takes the reopen case and opens the same path; a call in
    another bucket takes the new-bucket case. *)
Theorem failed_open_retry :
  forall os LdefaultFlags fh now frames skip s (l : RotateLogger os) w
         err l1 w1,
    Reachable os LdefaultFlags fh l ->
    rotateFile os now l w = (Some err, l1, w1) ->
    let target := retarget os (decision os now l) now l in
    Output os fh now frames skip s l w = (Some err, l1, w1) /\
    buf l1 = buf l /\
    (exists l0 w0,
       closeCurrent os target w = (l0, w0) /\
       OpenFile os (Join os (logDir l1) (targetName l1)) w0 = (inr err, w1)) /\
    f l1 = None /\ nbytes l1 = 0 /\
    fname l1 = fname target /\ fid l1 = fid target /\
    (forall now' w',
       bucketKey now' = fname l1 ->
       decision os now' l1 = Reopen /\
       rotateFile os now' l1 w' = createFile os l1 w' /\
       forall e2 l2 w2,
         rotateFile os now' l1 w' = (e2, l2, w2) ->
         targetName l2 = targetName l1 /\
         exists r, OpenFile os (Join os (logDir l1) (targetName l1)) w'
                   = (r, w2)) /\
    (forall now', bucketKey now' <> fname l1 ->
       decision os now' l1 = NewBucket).
Proof.
  intros os L fh now frames skip s l w err l1 w1 Hreach Hr target.
  apply Reachable_consistent in Hreach as Hc.
  destruct (rotateFile_consistent os now l w _ l1 w1 Hc Hr) as [Hc1 Hfail].
  destruct (Hfail ltac:(discriminate)) as [Hf1 Hn1].
  pose proof Hr as Hp. rewrite rotateFile_perform in Hp.
  pose proof (perform_target os _ _ _ _ _ _ _ Hp)
    as (Hname & Hfid & _ & Hdir & _ & _ & Hbuf).
  fold target in Hname, Hfid.
  split; [by apply Output_rotate_failure |].
  split; [exact Hbuf |].
  split.
  { unfold perform in Hp. fold target in Hp.
    destruct (decision os now l) eqn:Hd; try discriminate Hp.
    all: destruct (closeCurrent os target w) as [l0 w0] eqn:Hcl;
      exists l0, w0; split; [reflexivity |];
      apply closeCurrent_fields in Hcl;
      destruct Hcl as (Hd0 & _ & _ & _ & _ & Hn0 & Hi0 & _ & Ht0);
      apply createFile_file in Hp; destruct Hp as (_ & _ & Ho);
      rewrite <- Ho; f_equal; f_equal;
      [ assert (logDir target = logDir l) by (subst target; reflexivity);
        congruence
      | apply targetName_eq; congruence ]. }
  split; [exact Hf1 |]. split; [exact Hn1 |].
  split; [exact Hname |]. split; [exact Hfid |].
  split.
  - intros now' w' Hk.
    assert (Hd : decision os now' l1 = Reopen).
    { apply (decision_cases os now' l1). unfold sizeLimitReached.
      split; [by symmetry |]. split; [lia | exact Hf1]. }
    split; [exact Hd |].
    assert (Heq : rotateFile os now' l1 w' = createFile os l1 w').
    { rewrite rotateFile_perform, Hd. simpl. unfold closeCurrent.
      rewrite Hf1. reflexivity. }
    split; [exact Heq |].
    intros e2 l2 w2 H2. rewrite Heq in H2.
    apply createFile_fields in H2 as Hfl.
    destruct Hfl as (_ & _ & _ & _ & _ & Hn2 & Hi2).
    split; [by apply targetName_eq |].
    apply createFile_file in H2.
    destruct e2 as [err2 |].
    + destruct H2 as (_ & _ & Ho). eauto.
    + destruct H2 as (h & _ & Ho & _). eauto.
  - intros now' Hk. apply (decision_cases os now' l1). congruence.
Qed.

Lemma fresh_reachable :
  Reachable MemFS.mem_os 0 MemFS.header MemFS.fresh_logger.
Proof.
  apply (reach_New MemFS.mem_os 0 MemFS.header "logs" WARN MemFS.t0
           MemFS.empty_mem MemFS.fresh_logger MemFS.fresh_mem).
  vm_compute. reflexivity.
Qed.

Lemma busy_reachable :
  Reachable MemFS.mem_os 0 MemFS.header MemFS.busy_logger.
Proof.
  apply (reach_Output MemFS.mem_os 0 MemFS.header MemFS.t0 MemFS.main_frames 2
           ("WARN|" +:+ MemFS.line40)
           (SetLogSizeLimit MemFS.mem_os 64 MemFS.fresh_logger)
           MemFS.fresh_mem (MemFS.error_of MemFS.busy) MemFS.busy_logger
           (MemFS.world_of MemFS.busy)).
  - apply reach_SetLogSizeLimit, fresh_reachable.
  - unfold MemFS.busy_logger, MemFS.error_of, MemFS.logger_of, MemFS.world_of.
    change (MemFS.busy
            = (fst (fst MemFS.busy), snd (fst MemFS.busy), snd MemFS.busy)).
    generalize MemFS.busy. intros [[e l] w]. reflexivity.
Qed.

(** The roll to the second file of the hour fails on a device that refuses
    it; a call in the same hour then opens that same path. *)
Lemma failed_open_retry_witness :
  MemFS.error_of MemFS.failed = Some ErrPermission /\
  f (MemFS.logger_of MemFS.failed) = None /\
  targetName (MemFS.logger_of MemFS.failed) = "2024030709.log.1" /\
  decision MemFS.mem_os MemFS.t0 (MemFS.logger_of MemFS.failed) = Reopen.
Proof.
  assert (Hr : rotateFile MemFS.mem_os MemFS.t0 MemFS.busy_logger
                 MemFS.denied_mem
               = (Some ErrPermission, MemFS.logger_of MemFS.failed,
                  MemFS.world_of MemFS.failed)).
  { vm_compute. reflexivity. }
  destruct (failed_open_retry MemFS.mem_os 0 MemFS.header MemFS.t0
              MemFS.main_frames 2 "WARN|again" MemFS.busy_logger
              MemFS.denied_mem ErrPermission (MemFS.logger_of MemFS.failed)
              (MemFS.world_of MemFS.failed) busy_reachable Hr)
    as (Ho & _ & _ & Hf & _ & _ & _ & Hretry & _).
  split; [unfold MemFS.failed; rewrite Ho; reflexivity |].
  split; [exact Hf |].
  split; [vm_compute; reflexivity |].
  apply (Hretry MemFS.t0 MemFS.denied_mem). vm_compute. reflexivity.
Defined.

(** C4 as worded fails: after the failed roll to [2024030709.log.1], a call
    in the next hour opens [2024030710.log] and not the failed target. *)
Lemma failed_open_retry_counterexample :
  ~ next_call_retries_same_target MemFS.mem_os 0 MemFS.header.
Proof.
  intros H.
  specialize (H MemFS.busy_logger MemFS.denied_mem MemFS.t0 ErrPermission
                (MemFS.logger_of MemFS.failed) (MemFS.world_of MemFS.failed)
                busy_reachable).
  assert (Hr : rotateFile MemFS.mem_os MemFS.t0 MemFS.busy_logger
                 MemFS.denied_mem
               = (Some ErrPermission, MemFS.logger_of MemFS.failed,
                  MemFS.world_of MemFS.failed)).
  { vm_compute. reflexivity. }
  specialize (H Hr MemFS.t1 (MemFS.world_of MemFS.failed)).
  destruct (rotateFile MemFS.mem_os MemFS.t1 (MemFS.logger_of MemFS.failed)
              (MemFS.world_of MemFS.failed)) as [[e2 l2] w2] eqn:H2.
  specialize (H e2 l2 w2 eq_refl).
  assert (Ht : targetName l2 = "2024030710.log").
  { replace l2 with (MemFS.logger_of
      (rotateFile MemFS.mem_os MemFS.t1 (MemFS.logger_of MemFS.failed)
         (MemFS.world_of MemFS.failed))) by (rewrite H2; reflexivity).
    vm_compute. reflexivity. }
  rewrite Ht in H. vm_compute in H. discriminate H.
Qed.

(** ** Construction *)

Section Construction.

Variable os : OS.
Variable LdefaultFlags : Z.

Implicit Types (l : RotateLogger os) (w : World os).

Lemma targetName_getLogFileName now l :
  fname l = getLogFileName now 0 -> targetName l = getLogFileName now (fid l).
Proof.
  unfold targetName, getLogFileName. intros ->. simpl (0 <? 0).
  destruct (0 <? fid l); reflexivity.
Qed.

(** The scan: starting at candidate [a] with [a - 1] adopted, it adopts
    the candidates that exist up to the first that does not, and fails at
    the first whose stat fails otherwise. *)
Lemma scanLoop_spec (k : nat) :
  forall (a : Z) now l w,
    1 <= a -> a + Z.of_nat k <= 100 -> fid l = a - 1 ->
    match scanLoop os (seqZ a (Z.of_nat k)) now l w with
    | (None, l') =>
        a - 1 <= fid l' <= a - 1 + Z.of_nat k /\
        (forall i, a <= i <= fid l' ->
           exists size,
             Stat os (Join os (logDir l) (getLogFileName now i)) w = inl size) /\
        (fid l' < a - 1 + Z.of_nat k ->
           exists err,
             Stat os (Join os (logDir l) (getLogFileName now (fid l' + 1))) w
               = inr err /\ IsNotExist err = true)
    | (Some err, l') =>
        exists j, a <= j < a + Z.of_nat k /\
          (forall i, a <= i < j ->
             exists size,
               Stat os (Join os (logDir l) (getLogFileName now i)) w
                 = inl size) /\
          Stat os (Join os (logDir l) (getLogFileName now j)) w = inr err /\
          IsNotExist err = false
    end.
Proof.
  induction k as [| k IH]; intros a now l w Ha Hk Hfid.
  - simpl. split; [lia |]. split; [intros i Hi; lia | lia].
  - rewrite seqZ_cons by lia.
    replace (Z.pred (Z.of_nat (S k))) with (Z.of_nat k) by lia.
    simpl scanLoop.
    rewrite (int32_id a) by (unfold is_int32, MinInt32, MaxInt32; lia).
    destruct (Stat os (Join os (logDir l) (getLogFileName now a)) w)
      as [size | err] eqn:Hs.
    + rewrite Hfid. replace (a - 1 + 1) with a by lia.
      rewrite (int32_id a) by (unfold is_int32, MinInt32, MaxInt32; lia).
      specialize (IH (Z.succ a) now (set_fid os a l) w).
      simpl in IH. specialize (IH ltac:(lia) ltac:(lia) ltac:(lia)).
      destruct (scanLoop os (seqZ (Z.succ a) (Z.of_nat k)) now
                  (set_fid os a l) w) as [[err |] l'].
      * destruct IH as (j & Hj & Hall & Hbad & Hne).
        exists j. split; [lia |]. split; [| auto].
        intros i Hi. destruct (decide (i = a)) as [-> | Hia]; [eauto |].
        apply Hall. lia.
      * destruct IH as (Hr & Hall & Hnext).
        split; [lia |]. split.
        -- intros i Hi. destruct (decide (i = a)) as [-> | Hia]; [eauto |].
           apply Hall. lia.
        -- intros Hlt. apply Hnext. lia.
    + destruct (IsNotExist err) eqn:Hne.
      * split; [lia |]. split; [intros i Hi; lia |].
        intros _. rewrite Hfid. replace (a - 1 + 1) with a by lia. eauto.
      * exists a. split; [lia |]. split; [intros i Hi; lia | auto].
Qed.

End Construction.

(** C6, amended: [NewRotateLogger] makes the directory, stats the
    candidates 1, 2, ... of the current bucket, at most 99 of them, up to
    the first that does not exist, and adopts the number of candidates
    found: every sequence id from 1 to the adopted one exists and, when
    fewer than 99 are adopted, the next one does not.  It opens the file of
    that sequence id and takes the byte counter from the size of the open
    file (zero when the size cannot be read).  It returns an error and no
    logger when making the directory fails, when a stat fails for another
    reason than non-existence, or when the open fails. *)
Theorem NewRotateLogger_scan :
  forall os LdefaultFlags (dir : string) (lvl : LogLevel) (now : Time)
         (w : World os),
    let path i := Join os dir (getLogFileName now i) in
    match NewRotateLogger os LdefaultFlags dir lvl now w with
    | (Some l, None, w') =>
        exists w0 h,
          MkdirAll os dir w = (None, w0) /\
          0 <= fid l <= 99 /\
          (forall i, 1 <= i <= fid l ->
             exists size, Stat os (path i) w0 = inl size) /\
          (fid l < 99 ->
             exists err, Stat os (path (fid l + 1)) w0 = inr err /\
                         IsNotExist err = true) /\
          OpenFile os (path (fid l)) w0 = (inl h, w') /\
          f l = Some h /\
          nbytes l = match FileStat os h w' with
                     | inl size => size
                     | inr _ => 0
                     end /\
          fname l = bucketKey now /\ logDir l = dir /\ level l = lvl /\
          logSizeLimit l = DEFAULT_LOG_FILE_SIZE /\ flags l = LdefaultFlags
    | (None, Some err, w') =>
        MkdirAll os dir w = (Some err, w') \/
        (MkdirAll os dir w = (None, w') /\
         exists j, 1 <= j <= 99 /\
           (forall i, 1 <= i < j ->
              exists size, Stat os (path i) w' = inl size) /\
           Stat os (path j) w' = inr err /\ IsNotExist err = false) \/
        (exists w0 j,
           MkdirAll os dir w = (None, w0) /\ 0 <= j <= 99 /\
           (forall i, 1 <= i <= j ->
              exists size, Stat os (path i) w0 = inl size) /\
           OpenFile os (path j) w0 = (inr err, w'))
    | _ => False
    end.
Proof.
  intros os L dir lvl now w path. unfold NewRotateLogger.
  destruct (MkdirAll os dir w) as [[err |] w0] eqn:Hm; [by left |].
  set (l0 := set_fid os 0 (set_fname os (getLogFileName now 0) _)).
  pose proof (scanLoop_spec os 99 1 now l0 w0 ltac:(lia) ltac:(lia) eq_refl)
    as Hscan.
  change (Z.of_nat 99) with 99 in Hscan.
  pose proof (scanLoop_fields os (seqZ 1 99) now l0 w0) as Hfields.
  assert (Hdir0 : logDir l0 = dir) by reflexivity.
  assert (Hname0 : fname l0 = bucketKey now) by reflexivity.
  assert (Hrest0 : level l0 = lvl /\ logSizeLimit l0 = DEFAULT_LOG_FILE_SIZE
                   /\ flags l0 = L /\ nbytes l0 = 0) by (by split_and!).
  destruct Hrest0 as (Hlvl0 & Hlim0 & Hflags0 & Hnb0).
  rewrite Hdir0 in Hscan. fold path in Hscan.
  destruct (scanLoop os (seqZ 1 99) now l0 w0) as [[err |] l1].
  - right. left. split; [reflexivity |].
    destruct Hscan as (j & Hj & Hall & Hbad & Hne).
    exists j. split; [lia |]. auto.
  - destruct Hscan as (Hr & Hall & Hnext).
    specialize (Hfields None l1 eq_refl).
    destruct Hfields as (Hd & Hv & Hl & Hg & Hb & Hf & Hn & Hnb & _).
    rewrite Hdir0 in Hd. rewrite Hname0 in Hn. rewrite Hnb0 in Hnb.
    assert (Ht : targetName l1 = getLogFileName now (fid l1))
      by (by apply targetName_getLogFileName).
    destruct (createFile os l1 w0) as [[[err |] l2] w2] eqn:Hc.
    + right. right. apply createFile_file in Hc.
      destruct Hc as (_ & _ & Ho). rewrite Hd, Ht in Ho.
      exists w0, (fid l1). split; [reflexivity |]. split; [lia |].
      split; [exact Hall | exact Ho].
    + apply createFile_fields in Hc as Hcf.
      destruct Hcf as (Hd2 & Hv2 & Hl2 & Hg2 & _ & Hn2 & Hi2).
      apply createFile_file in Hc. destruct Hc as (h & Hf2 & Ho & Hsz).
      rewrite Hd, Ht in Ho. rewrite Hnb in Hsz.
      exists w0, h. rewrite Hi2.
      split; [reflexivity |]. split; [lia |].
      split; [exact Hall |]. split; [intros Hlt; apply Hnext; lia |].
      split; [exact Ho |]. split; [exact Hf2 |]. split; [exact Hsz |].
      split_and!; congruence.
Qed.

(** With segments 1 and 3 of the hour on the device and segment 2 gone,
    the constructor adopts sequence id 1 and appends to segment 1. *)
Lemma NewRotateLogger_scan_witness :
  exists l w',
    NewRotateLogger MemFS.mem_os 0 "logs" WARN MemFS.t0 MemFS.gapped_mem
      = (Some l, None, w') /\
    fid l = 1 /\ f l = Some "logs/2024030709.log.1".
Proof.
  pose proof (NewRotateLogger_scan MemFS.mem_os 0 "logs" WARN MemFS.t0
                MemFS.gapped_mem) as H.
  cbv zeta in H.
  destruct (NewRotateLogger MemFS.mem_os 0 "logs" WARN MemFS.t0
              MemFS.gapped_mem) as [[[l |] [e |]] w'] eqn:Hn.
  - vm_compute in Hn. discriminate Hn.
  - destruct H as (w0 & h & Hm & Hr & Hall & Hnext & Ho & Hf & _).
    injection Hm as <-.
    assert (Hfid : fid l = 1).
    { destruct (decide (fid l = 0)) as [H0 | H0].
      - destruct Hnext as (err & Hs & Hne); [lia |].
        rewrite H0 in Hs. vm_compute in Hs. discriminate Hs.
      - destruct (decide (fid l = 1)) as [H1 | H1]; [exact H1 |].
        destruct (Hall 2 ltac:(lia)) as (size & Hs).
        vm_compute in Hs. discriminate Hs. }
    exists l, w'. split; [reflexivity |]. split; [exact Hfid |].
    rewrite Hfid in Ho. vm_compute in Ho. injection Ho as <- _. exact Hf.
  - vm_compute in Hn. discriminate Hn.
  - vm_compute in Hn. discriminate Hn.
Defined.

(** C6 as worded fails: with segments 1 to 100 of the hour on the device,
    the constructor adopts sequence id 99 although segment 100 exists. *)
Lemma NewRotateLogger_scan_counterexample :
  ~ adopts_highest_existing MemFS.mem_os 0.
Proof.
  intros H.
  destruct (NewRotateLogger MemFS.mem_os 0 "logs" WARN MemFS.t0
              MemFS.crowded_mem) as [[[l |] e] w'] eqn:Hnew.
  - assert (Hfid : fid l = 99).
    { replace l with
        (match NewRotateLogger MemFS.mem_os 0 "logs" WARN MemFS.t0
                 MemFS.crowded_mem with
         | (Some l, _, _) => l
         | _ => MemFS.fresh_logger
         end) by (rewrite Hnew; reflexivity).
      vm_compute. reflexivity. }
    assert (He : e = None).
    { replace e with
        (snd (fst (NewRotateLogger MemFS.mem_os 0 "logs" WARN MemFS.t0
                     MemFS.crowded_mem))) by (rewrite Hnew; reflexivity).
      vm_compute. reflexivity. }
    subst e.
    specialize (H "logs" WARN MemFS.t0 MemFS.crowded_mem l w' Hnew 100 1).
    rewrite Hfid in H.
    assert (100 <= 99); [| lia].
    apply H; [unfold MaxInt32; lia |]. vm_compute. reflexivity.
  - vm_compute in Hnew. discriminate Hnew.
Qed.

(** ** Sequence ids *)

(** One [Output] call: the sequence id stays, or becomes the [int32]
    successor on a size-triggered roll, or becomes 0 with a new bucket
    key. *)
Lemma Output_sequence_step os fh now frames skip s (l : RotateLogger os) w
    e l' w' :
  Output os fh now frames skip s l w = (e, l', w') ->
  (fname l <> bucketKey now /\ fname l' = bucketKey now /\ fid l' = 0) \/
  (fname l = bucketKey now /\ fname l' = fname l /\
   ((sizeLimitReached os l /\ fid l' = int32 (fid l + 1)) \/
    (~ sizeLimitReached os l /\ fid l' = fid l))).
Proof.
  intros Ho. apply Output_retarget in Ho. destruct Ho as (Hn & Hi & _).
  destruct (decision_cases os now l) as (Ha & Hb & Hc & Hd).
  destruct (decision os now l) eqn:Hdec; simpl in Hn, Hi.
  - left. split; [by apply Ha |]. auto.
  - right. destruct Hb as [Hb _]. destruct (Hb eq_refl) as [H1 H2]. auto.
  - right. destruct Hc as [Hc _]. destruct (Hc eq_refl) as (H1 & H2 & _).
    auto.
  - right. destruct Hd as [Hd _]. destruct (Hd eq_refl) as (H1 & H2 & _).
    auto.
Qed.

(** On the device that takes everything, under a limit of one byte, every
    call after the first rolls to the next sequence id. *)
Lemma null_createFile (l : RotateLogger NullOS.null_os) :
  createFile NullOS.null_os l tt
  = (None, set_nbytes NullOS.null_os 0 (set_f NullOS.null_os (Some tt) l), tt).
Proof. reflexivity. Qed.

Lemma spinning_decision i :
  decision NullOS.null_os NullOS.tick (NullOS.spinning i) = NextSequence.
Proof.
  destruct (decision_cases NullOS.null_os NullOS.tick (NullOS.spinning i))
    as (_ & [_ H] & _).
  apply H. clear H. split.
  - change ("2024030709.log" = bucketKey NullOS.tick). vm_compute. reflexivity.
  - unfold sizeLimitReached.
    change (0 < 1 /\ 1 <= len NullOS.beat_record).
    split; [lia |]. vm_compute. discriminate.
Qed.

Lemma spinning_rotate i :
  rotateFile NullOS.null_os NullOS.tick (NullOS.spinning i) tt
  = (None,
     mkRotateLogger NullOS.null_os "logs" TRACE 1 0 NullOS.beat_record
       (Some tt) "2024030709.log" 0 (int32 (i + 1)),
     tt).
Proof.
  rewrite rotateFile_perform, spinning_decision.
  unfold perform, retarget, closeCurrent.
  change (f (set_fid NullOS.null_os (int32 (fid (NullOS.spinning i) + 1))
               (NullOS.spinning i)))
    with (Some tt : option (File NullOS.null_os)).
  cbv iota beta. rewrite null_createFile. reflexivity.
Qed.

Lemma spinning_step i :
  Output NullOS.null_os MemFS.header NullOS.tick MemFS.no_frames 2 NullOS.beat
    (NullOS.spinning i) tt
  = (None, NullOS.spinning (int32 (i + 1)), tt).
Proof.
  rewrite (Output_write_step _ _ _ _ _ _ _ _ _ _ (spinning_rotate i)).
  cbv zeta.
  change (f (mkRotateLogger NullOS.null_os "logs" TRACE 1 0 NullOS.beat_record
               (Some tt) "2024030709.log" 0 (int32 (i + 1))))
    with (Some tt : option (File NullOS.null_os)).
  cbv iota.
  change (flags (mkRotateLogger NullOS.null_os "logs" TRACE 1 0
                   NullOS.beat_record (Some tt) "2024030709.log" 0
                   (int32 (i + 1)))) with 0.
  fold NullOS.beat_record.
  change (FileWrite NullOS.null_os tt NullOS.beat_record tt)
    with ((len NullOS.beat_record, @None error), tt).
  cbv iota beta.
  unfold NullOS.spinning, set_nbytes, set_buf.
  cbn [logDir level logSizeLimit flags buf f fname nbytes fid].
  replace (int64 (0 + len NullOS.beat_record)) with (len NullOS.beat_record)
    by (vm_compute; reflexivity).
  reflexivity.
Qed.

(** Every sequence id from 0 to the largest [int32] is reached. *)
Lemma spinning_reachable i :
  0 <= i <= MaxInt32 ->
  Reachable NullOS.null_os 0 MemFS.header (NullOS.spinning i).
Proof.
  intros [Hlo Hhi]. revert Hhi. pattern i. apply natlike_ind; [| | exact Hlo].
  - intros _.
    apply (reach_Output NullOS.null_os 0 MemFS.header NullOS.tick
             MemFS.no_frames 2 NullOS.beat
             (SetLogSizeLimit NullOS.null_os 1
                (mkRotateLogger NullOS.null_os "logs" TRACE
                   DEFAULT_LOG_FILE_SIZE 0 EmptyString (Some tt)
                   "2024030709.log" 0 0))
             tt None (NullOS.spinning 0) tt).
    + apply reach_SetLogSizeLimit.
      apply (reach_New NullOS.null_os 0 MemFS.header "logs" TRACE NullOS.tick
               tt _ tt).
      vm_compute. reflexivity.
    + vm_compute. reflexivity.
  - intros x Hx IH Hhi.
    apply (reach_Output NullOS.null_os 0 MemFS.header NullOS.tick
             MemFS.no_frames 2 NullOS.beat (NullOS.spinning x) tt None
             (NullOS.spinning (Z.succ x)) tt).
    + apply IH. lia.
    + rewrite spinning_step. rewrite int32_id; [reflexivity |].
      unfold is_int32, MinInt32. unfold MaxInt32 in Hhi. unfold MaxInt32. lia.
Qed.

(** A call in the bucket of the sink moves the sequence id by at most one,
    upwards. *)
Lemma Output_step_bounds os fh now frames skip s (l : RotateLogger os) w
    e l' w' :
  0 <= fid l < MaxInt32 ->
  bucketKey now = fname l ->
  Output os fh now frames skip s l w = (e, l', w') ->
  fname l' = fname l /\ fid l <= fid l' <= fid l + 1.
Proof.
  intros Hr Hk Ho. apply Output_sequence_step in Ho.
  destruct Ho as [(Hne & _) | (_ & Hn & [[_ Hi] | [_ Hi]])].
  - congruence.
  - rewrite int32_id in Hi by (unfold is_int32, MinInt32; lia).
    split; [exact Hn | lia].
  - split; [exact Hn | lia].
Qed.

(** Along a run in the bucket of the sink, the sequence id moves by at most
    one per call, upwards. *)
Lemma history_bounds os fh (cs : list Call) :
  forall (l : RotateLogger os) w,
    0 <= fid l -> fid l + Z.of_nat (length cs) <= MaxInt32 ->
    (forall c, c ∈ cs -> bucketKey (c_now c) = fname l) ->
    forall l', l' ∈ history os fh cs l w ->
      fname l' = fname l /\
      fid l <= fid l' <= fid l + Z.of_nat (length cs).
Proof.
  induction cs as [| c cs IH]; intros l w H0 Hmax Hk l' Hin.
  - simpl in Hin. by apply elem_of_nil in Hin.
  - simpl in Hin. simpl length in Hmax. rewrite Nat2Z.inj_succ in Hmax.
    simpl length. rewrite Nat2Z.inj_succ.
    destruct (Output os fh (c_now c) (c_frames c) (c_skip c) (c_msg c) l w)
      as [[e l1] w1] eqn:Ho.
    assert (Hck : bucketKey (c_now c) = fname l)
      by (apply Hk; apply list_elem_of_here).
    apply Output_step_bounds in Ho; [| lia | exact Hck].
    destruct Ho as [Hn1 Hi1].
    apply elem_of_cons in Hin as [-> | Hin].
    + split; [exact Hn1 | lia].
    + apply (IH l1 w1) in Hin.
      * destruct Hin as [Hn Hi]. split; [congruence | lia].
      * lia.
      * lia.
      * intros c' Hc'. rewrite Hn1. apply Hk. by apply list_elem_of_further.
Qed.

Lemma history_sorted os fh (cs : list Call) :
  forall (l : RotateLogger os) w,
    0 <= fid l -> fid l + Z.of_nat (length cs) <= MaxInt32 ->
    (forall c, c ∈ cs -> bucketKey (c_now c) = fname l) ->
    StronglySorted Z.le (fid l :: map fid (history os fh cs l w)).
Proof.
  induction cs as [| c cs IH]; intros l w H0 Hmax Hk.
  - simpl. apply SSorted_cons; [apply SSorted_nil | apply Forall_nil_2].
  - apply SSorted_cons.
    + simpl. simpl length in Hmax. rewrite Nat2Z.inj_succ in Hmax.
      destruct (Output os fh (c_now c) (c_frames c) (c_skip c) (c_msg c) l w)
        as [[e l1] w1] eqn:Ho.
      apply Output_step_bounds in Ho;
        [| lia | apply Hk; apply list_elem_of_here].
      destruct Ho as [Hn1 Hi1].
      simpl. apply IH; [lia | lia |].
      intros c' Hc'. rewrite Hn1. apply Hk. by apply list_elem_of_further.
    + apply Forall_forall. intros x Hx.
      apply list_elem_of_fmap in Hx as (l' & -> & Hl').
      apply (history_bounds os fh (c :: cs) l w H0 Hmax Hk) in Hl'. lia.
Qed.

Lemma existsb_eqb_elem (k : string) (ks : list string) :
  existsb (String.eqb k) ks = true <-> k ∈ ks.
Proof.
  induction ks as [| k' ks IH]; simpl.
  - split; [discriminate | by intros H%elem_of_nil].
  - rewrite orb_true_iff, IH, elem_of_cons, String.eqb_eq. reflexivity.
Qed.

Lemma Output_fname_now os fh now frames skip s (l : RotateLogger os) w
    e l' w' :
  Output os fh now frames skip s l w = (e, l', w') ->
  fname l' = bucketKey now.
Proof.
  intros Ho. apply Output_sequence_step in Ho.
  destruct Ho as [(_ & Hn & _) | (Heq & Hn & _)]; congruence.
Qed.

Lemma Output_fid_range os fh now frames skip s (l : RotateLogger os) w
    e l' w' :
  0 <= fid l < MaxInt32 ->
  Output os fh now frames skip s l w = (e, l', w') ->
  0 <= fid l' <= fid l + 1.
Proof.
  intros Hr Ho. apply Output_sequence_step in Ho.
  destruct Ho as [(_ & _ & Hi) | (_ & _ & [[_ Hi] | [_ Hi]])];
    [lia | | lia].
  rewrite int32_id in Hi by (unfold is_int32, MinInt32, MaxInt32 in *; lia).
  lia.
Qed.

Lemma history_fname_key os fh (cs : list Call) :
  forall (l : RotateLogger os) w b,
    b ∈ history os fh cs l w -> fname b ∈ keys_of cs.
Proof.
  induction cs as [| c cs IH]; intros l w b Hb; simpl in Hb.
  - by apply elem_of_nil in Hb.
  - destruct (Output os fh (c_now c) (c_frames c) (c_skip c) (c_msg c) l w)
      as [[e l1] w1] eqn:Ho.
    apply elem_of_cons in Hb. destruct Hb as [-> | Hb].
    + unfold keys_of. simpl. rewrite (Output_fname_now _ _ _ _ _ _ _ _ _ _ _ Ho).
      apply list_elem_of_here.
    + unfold keys_of. simpl. apply list_elem_of_further.
      by eapply IH.
Qed.

(** Along a run whose timestamps never go back to a bucket they have left,
    a later state in the bucket of the first one has its sequence id or a
    larger one. *)
Lemma history_first_le os fh (cs : list Call) :
  forall (l : RotateLogger os) w,
    0 <= fid l -> fid l + Z.of_nat (length cs) <= MaxInt32 ->
    never_returns (fname l :: keys_of cs) = true ->
    forall b, b ∈ history os fh cs l w -> fname b = fname l ->
              fid l <= fid b.
Proof.
  induction cs as [| c cs IH]; intros l w H0 Hmax Hnr b Hb Hfn;
    simpl in Hb.
  - by apply elem_of_nil in Hb.
  - destruct (Output os fh (c_now c) (c_frames c) (c_skip c) (c_msg c) l w)
      as [[e l1] w1] eqn:Ho.
    change (length (c :: cs)) with (S (length cs)) in Hmax.
    pose proof (Output_fname_now _ _ _ _ _ _ _ _ _ _ _ Ho) as Hn1.
    assert (Hr : 0 <= fid l < MaxInt32) by lia.
    destruct (Output_fid_range _ _ _ _ _ _ _ _ _ _ _ Hr Ho) as [Hlo Hhi].
    unfold keys_of in Hnr. simpl in Hnr. fold (keys_of cs) in Hnr.
    apply andb_true_iff in Hnr. destruct Hnr as [Hleft Hrest].
    destruct (String.eqb (bucketKey (c_now c)) (fname l)) eqn:Hk.
    + apply String.eqb_eq in Hk.
      assert (Hstep : fid l <= fid l1).
      { destruct (Output_step_bounds os fh _ _ _ _ l w e l1 w1 Hr Hk Ho)
          as [_ Hb1]. lia. }
      apply elem_of_cons in Hb. destruct Hb as [-> | Hb]; [exact Hstep |].
      transitivity (fid l1); [exact Hstep |].
      apply (IH l1 w1); try lia; try assumption.
      * by rewrite Hn1.
      * congruence.
    + exfalso. apply String.eqb_neq in Hk.
      apply negb_true_iff in Hleft.
      assert (Hin : fname l ∈ keys_of (c :: cs)).
      { rewrite <- Hfn. eapply history_fname_key. simpl. rewrite Ho.
        exact Hb. }
      unfold keys_of in Hin. simpl in Hin. apply elem_of_cons in Hin.
      destruct Hin as [Hin | Hin]; [congruence |].
      apply existsb_eqb_elem in Hin. unfold keys_of in Hleft. congruence.
Qed.

Lemma history_pairs_le os fh (cs : list Call) :
  forall (l : RotateLogger os) w,
    0 <= fid l -> fid l + Z.of_nat (length cs) <= MaxInt32 ->
    never_returns (fname l :: keys_of cs) = true ->
    forall (i j : nat) a b,
      (i <= j)%nat ->
      (l :: history os fh cs l w) !! i = Some a ->
      (l :: history os fh cs l w) !! j = Some b ->
      fname a = fname b ->
      fid a <= fid b.
Proof.
  induction cs as [| c cs IH]; intros l w H0 Hmax Hnr i j a b Hij Ha Hb Hfn.
  - simpl in Ha, Hb. destruct i as [| i]; [| by destruct i].
    destruct j as [| j]; [| by destruct j].
    simpl in Ha, Hb. assert (a = b) by congruence. subst. lia.
  - destruct i as [| i].
    + simpl in Ha. injection Ha as <-.
      destruct j as [| j]; [simpl in Hb; injection Hb as <-; lia |].
      simpl in Hb. apply (history_first_le os fh (c :: cs) l w H0 Hmax Hnr).
      * by eapply list_elem_of_lookup_2.
      * by symmetry.
    + destruct j as [| j]; [lia |].
      simpl in Ha, Hb.
      destruct (Output os fh (c_now c) (c_frames c) (c_skip c) (c_msg c) l w)
        as [[e l1] w1] eqn:Ho.
      change (length (c :: cs)) with (S (length cs)) in Hmax.
      pose proof (Output_fname_now _ _ _ _ _ _ _ _ _ _ _ Ho) as Hn1.
      assert (Hr : 0 <= fid l < MaxInt32) by lia.
      destruct (Output_fid_range _ _ _ _ _ _ _ _ _ _ _ Hr Ho) as [Hlo Hhi].
      unfold keys_of in Hnr. simpl in Hnr. fold (keys_of cs) in Hnr.
      apply andb_true_iff in Hnr. destruct Hnr as [_ Hrest].
      apply (IH l1 w1 Hlo ltac:(lia)) with (i := i) (j := j);
        try assumption; try lia.
      by rewrite Hn1.
Qed.

(** C9, amended: while the sequence id is below the largest [int32], one
    [Output] call that keeps the bucket key leaves the sequence id as it is
    or, on a size-triggered roll only, adds one to it; a call that changes
    the bucket key, to a later or to an earlier bucket, sets it to 0, and
    it never becomes smaller otherwise.  Along a run of calls in the
    bucket of the sink that cannot reach the largest [int32], the sequence
    ids never decrease; along any run that cannot reach it and whose
    timestamps never go back to a bucket they have left, of two states in
    the same bucket the later has the sequence id of the earlier or a
    larger one.  At the largest [int32] a size-triggered roll wraps the
    sequence id to the smallest one. *)
Theorem sequence_id_monotone :
  forall os fh (l : RotateLogger os),
    0 <= fid l ->
    (forall now frames skip s w e l' w',
       fid l < MaxInt32 ->
       Output os fh now frames skip s l w = (e, l', w') ->
       (fname l' = fname l ->
          fid l <= fid l' <= fid l + 1 /\
          (fid l' <> fid l -> sizeLimitReached os l)) /\
       (fname l' <> fname l -> fname l' = bucketKey now /\ fid l' = 0) /\
       (fid l' < fid l -> fname l' <> fname l)) /\
    (forall cs w,
       fid l + Z.of_nat (length cs) <= MaxInt32 ->
       (forall c, c ∈ cs -> bucketKey (c_now c) = fname l) ->
       StronglySorted Z.le (fid l :: map fid (history os fh cs l w)) /\
       forall l', l' ∈ history os fh cs l w ->
         fname l' = fname l /\
         fid l <= fid l' <= fid l + Z.of_nat (length cs)) /\
    (* the lifetime, for timestamps that do not go back *)
    (forall cs w (i j : nat) a b,
       fid l + Z.of_nat (length cs) <= MaxInt32 ->
       never_returns (fname l :: keys_of cs) = true ->
       (i <= j)%nat ->
       (l :: history os fh cs l w) !! i = Some a ->
       (l :: history os fh cs l w) !! j = Some b ->
       fname a = fname b ->
       fid a <= fid b) /\
    (* a timestamp in another bucket *)
    (forall now frames skip s w e l' w',
       bucketKey now <> fname l ->
       Output os fh now frames skip s l w = (e, l', w') ->
       fname l' = bucketKey now /\ fid l' = 0) /\
    (* the largest sequence id *)
    (forall now frames skip s w e l' w',
       fid l = MaxInt32 ->
       bucketKey now = fname l ->
       sizeLimitReached os l ->
       Output os fh now frames skip s l w = (e, l', w') ->
       fname l' = fname l /\ fid l' = MinInt32).
Proof.
  intros os fh l H0. split_and!.
  - intros now frames skip s w e l' w' Hmax Ho.
    apply Output_sequence_step in Ho.
    destruct Ho as [(Hne & Hn & Hi) | (Heq & Hn & [[Hs Hi] | [Hs Hi]])].
    + split; [intros H; congruence |].
      split; [auto |]. intros _. congruence.
    + rewrite int32_id in Hi by (unfold is_int32, MinInt32; lia).
      split; [intros _; split; [lia | auto] |].
      split; [intros H; contradiction | lia].
    + split; [intros _; split; [lia | intros H; contradiction] |].
      split; [intros H; contradiction | lia].
  - intros cs w Hmax Hk. split.
    + by apply history_sorted.
    + by apply history_bounds.
  - intros cs w i j a b Hmax Hnr.
    by apply history_pairs_le.
  - intros now frames skip s w e l' w' Hne Ho.
    apply Output_sequence_step in Ho.
    destruct Ho as [(_ & Hn & Hi) | (Heq & _)]; [auto | congruence].
  - intros now frames skip s w e l' w' Hmax Hk Hs Ho.
    apply Output_sequence_step in Ho.
    destruct Ho as [(Hne & _) | (_ & Hn & [[_ Hi] | [Hns _]])];
      [congruence | | contradiction].
    split; [exact Hn |]. by rewrite Hi, Hmax, int32_incr_max.
Qed.

(** A roll within the hour moves the sequence id from 0 to 1; and along
    the first three of the four calls, two of the hour 09 and one of the
    hour 10, the sequence id of the hour 09 does not decrease. *)
Lemma sequence_id_monotone_witness :
  0 <= fid (MemFS.logger_of
             (Output MemFS.mem_os MemFS.header MemFS.t0 MemFS.main_frames 2
                "WARN|more" MemFS.busy_logger (MemFS.world_of MemFS.busy)))
    <= 0 + 1 /\
  match (SetLogSizeLimit MemFS.mem_os 64 MemFS.fresh_logger
         :: history MemFS.mem_os MemFS.header (take 3 back_and_forth)
              (SetLogSizeLimit MemFS.mem_os 64 MemFS.fresh_logger)
              MemFS.fresh_mem) !! 1%nat,
        (SetLogSizeLimit MemFS.mem_os 64 MemFS.fresh_logger
         :: history MemFS.mem_os MemFS.header (take 3 back_and_forth)
              (SetLogSizeLimit MemFS.mem_os 64 MemFS.fresh_logger)
              MemFS.fresh_mem) !! 2%nat with
  | Some a, Some b => fid a <= fid b
  | _, _ => False
  end.
Proof.
  split.
  - assert (H0 : 0 <= fid MemFS.busy_logger) by (vm_compute; discriminate).
    destruct (sequence_id_monotone MemFS.mem_os MemFS.header
                MemFS.busy_logger H0) as [Hstep _].
    destruct (Output MemFS.mem_os MemFS.header MemFS.t0 MemFS.main_frames 2
                "WARN|more" MemFS.busy_logger (MemFS.world_of MemFS.busy))
      as [[e l'] w'] eqn:Ho.
    assert (Hmax : fid MemFS.busy_logger < MaxInt32)
      by (vm_compute; reflexivity).
    destruct (Hstep _ _ _ _ _ _ _ _ Hmax Ho) as (Hsame & _).
    assert (Hn : fname l' = fname MemFS.busy_logger).
    { replace l' with (MemFS.logger_of
        (Output MemFS.mem_os MemFS.header MemFS.t0 MemFS.main_frames 2
           "WARN|more" MemFS.busy_logger (MemFS.world_of MemFS.busy)))
        by (rewrite Ho; reflexivity).
      vm_compute. reflexivity. }
    destruct (Hsame Hn) as [Hle _].
    change (fid MemFS.busy_logger) with 0 in Hle. exact Hle.
  - assert (H0 : 0 <= fid (SetLogSizeLimit MemFS.mem_os 64 MemFS.fresh_logger))
      by (vm_compute; discriminate).
    destruct (sequence_id_monotone MemFS.mem_os MemFS.header
                (SetLogSizeLimit MemFS.mem_os 64 MemFS.fresh_logger) H0)
      as (_ & _ & Hlife & _).
    destruct ((SetLogSizeLimit MemFS.mem_os 64 MemFS.fresh_logger
               :: history MemFS.mem_os MemFS.header (take 3 back_and_forth)
                    (SetLogSizeLimit MemFS.mem_os 64 MemFS.fresh_logger)
                    MemFS.fresh_mem) !! 1%nat) as [a |] eqn:Ha;
      [| vm_compute in Ha; discriminate Ha].
    destruct ((SetLogSizeLimit MemFS.mem_os 64 MemFS.fresh_logger
               :: history MemFS.mem_os MemFS.header (take 3 back_and_forth)
                    (SetLogSizeLimit MemFS.mem_os 64 MemFS.fresh_logger)
                    MemFS.fresh_mem) !! 2%nat) as [b |] eqn:Hb;
      [| vm_compute in Hb; discriminate Hb].
    apply (Hlife (take 3 back_and_forth) MemFS.fresh_mem 1%nat 2%nat a b).
    + vm_compute. discriminate.
    + vm_compute. reflexivity.
    + lia.
    + exact Ha.
    + exact Hb.
    + vm_compute in Ha. injection Ha as <-.
      vm_compute in Hb. injection Hb as <-. reflexivity.
Defined.

(** Read call by call, the wording fails too: the sink that has reached
    the largest [int32] as its sequence id rolls, within the same hour, to
    the smallest one. *)
Lemma sequence_id_wraps :
  ~ sequence_never_decreases NullOS.null_os 0 MemFS.header.
Proof.
  intros H.
  assert (Hreach : Reachable NullOS.null_os 0 MemFS.header
                     (NullOS.spinning MaxInt32))
    by (apply spinning_reachable; unfold MaxInt32; lia).
  specialize (H (NullOS.spinning MaxInt32) tt NullOS.tick MemFS.no_frames 2
                NullOS.beat None (NullOS.spinning (int32 (MaxInt32 + 1))) tt
                Hreach (spinning_step MaxInt32) eq_refl).
  change (MaxInt32 <= int32 (MaxInt32 + 1)) in H.
  rewrite int32_incr_max in H. unfold MaxInt32, MinInt32 in H. lia.
Qed.

Lemma limited_reachable :
  Reachable MemFS.mem_os 0 MemFS.header
    (SetLogSizeLimit MemFS.mem_os 64 MemFS.fresh_logger).
Proof. apply reach_SetLogSizeLimit, fresh_reachable. Qed.

(** C9 as worded fails: the sink has rolled to sequence 1 of the hour 09
    when a call of the hour 10 takes it to sequence 0 of that hour; a call
    whose timestamp is of the hour 09 again takes it back to that bucket,
    at sequence 0, below the sequence 1 it had there. *)
Lemma sequence_id_monotone_counterexample :
  ~ never_reused_downward MemFS.mem_os 0 MemFS.header.
Proof.
  intros H.
  destruct ((SetLogSizeLimit MemFS.mem_os 64 MemFS.fresh_logger
             :: history MemFS.mem_os MemFS.header back_and_forth
                  (SetLogSizeLimit MemFS.mem_os 64 MemFS.fresh_logger)
                  MemFS.fresh_mem) !! 2%nat) as [a |] eqn:Ha;
    [| vm_compute in Ha; discriminate Ha].
  destruct ((SetLogSizeLimit MemFS.mem_os 64 MemFS.fresh_logger
             :: history MemFS.mem_os MemFS.header back_and_forth
                  (SetLogSizeLimit MemFS.mem_os 64 MemFS.fresh_logger)
                  MemFS.fresh_mem) !! 4%nat) as [b |] eqn:Hb;
    [| vm_compute in Hb; discriminate Hb].
  specialize (H (SetLogSizeLimit MemFS.mem_os 64 MemFS.fresh_logger)
                back_and_forth MemFS.fresh_mem 2%nat 4%nat a b
                limited_reachable ltac:(lia) Ha Hb).
  vm_compute in Ha. injection Ha as <-.
  vm_compute in Hb. injection Hb as <-.
  simpl in H. specialize (H eq_refl). lia.
Qed.

(** ** The buffered writer *)

Lemma drop_bytes_all (p : string) : drop_bytes (String.length p) p = EmptyString.
Proof. induction p as [| a p IH]; [reflexivity | exact IH]. Qed.

Lemma slice_from_len (p : string) : slice_from p (len p) = EmptyString.
Proof.
  unfold slice_from, len. rewrite Nat2Z.id. apply drop_bytes_all.
Qed.

Lemma substring_all (p : string) :
  String.substring 0 (String.length p) p = p.
Proof. induction p as [| a p IH]; [reflexivity | simpl; by rewrite IH]. Qed.

(** The state a write to the file itself leaves ends the loop of [Write]
    when the file is honest. *)
Lemma direct_write_done os (h : File os) (p : string) w n e w' (bf : string) :
  Bufio.honest os ->
  bf = EmptyString ->
  FileWrite os h p w = ((n, e), w') ->
  (Bufio.Available os (Bufio.mkWriter os e bf h) <? len (slice_from p n))
  && bool_decide (e = None) = false.
Proof.
  intros Hh -> Hw. destruct e as [e |].
  - by rewrite andb_false_r.
  - rewrite (Hh _ _ _ _ _ Hw), slice_from_len. reflexivity.
Qed.

(** Over an honest file the loop of [Write] has come to its end after two
    turns: its condition no longer holds. *)
Lemma writeLoop_done os (b : Bufio.Writer os) (p : string) (nn : Z) w
    b' p' nn' w' :
  Bufio.honest os ->
  Bufio.writeLoop os 2 b p nn w = (b', p', nn', w') ->
  (Bufio.Available os b' <? len p') && bool_decide (Bufio.err b' = None)
  = false.
Proof.
  intros Hh Hl. simpl in Hl.
  destruct ((Bufio.Available os b <? len p)
            && bool_decide (Bufio.err b = None)) eqn:Hc1;
    [| by injection Hl as <- <- <- <-].
  apply andb_true_iff in Hc1. destruct Hc1 as [Hav Herr].
  apply bool_decide_eq_true in Herr.
  destruct (Bufio.Buffered os b =? 0) eqn:Hb0.
  - (* a write to the file itself *)
    apply Z.eqb_eq in Hb0. unfold Bufio.Buffered in Hb0.
    assert (Hbuf : Bufio.buf b = EmptyString).
    { destruct (Bufio.buf b); [reflexivity |].
      unfold len in Hb0. simpl in Hb0. lia. }
    destruct (FileWrite os (Bufio.wr b) p w) as [[n e] w1] eqn:Hw.
    pose proof (direct_write_done os _ _ _ _ _ _ _ Hh Hbuf Hw) as Hd.
    rewrite Hd in Hl. by injection Hl as <- <- <- <-.
  - (* the buffer filled up and flushed *)
    unfold Bufio.Flush_, Bufio.Flush in Hl. cbn [Bufio.err] in Hl.
    rewrite Herr in Hl.
    destruct (Bufio.Buffered os _ =? 0) eqn:Hb1 in Hl.
    { exfalso. apply Z.eqb_eq in Hb1. apply Z.eqb_neq in Hb0.
      unfold Bufio.Buffered in *. cbn [Bufio.buf] in Hb1.
      unfold len in *. rewrite length_append in Hb1. lia. }
    cbn [Bufio.wr Bufio.buf] in Hl.
    destruct (FileWrite os (Bufio.wr b) _ w) as [[m e] w1] eqn:Hw in Hl.
    set (e' := match e with
               | Some _ => e
               | None => if m <? _ then Some (Bufio.ErrShortWrite) else None
               end) in Hl.
    destruct e' as [e2 |] eqn:He'.
    + cbn [Bufio.err] in Hl. rewrite andb_false_r in Hl.
      injection Hl as <- <- <- <-. cbn [Bufio.err]. by rewrite andb_false_r.
    + destruct ((Bufio.Available os _ <? len _) && _) eqn:Hc2 in Hl;
        [| injection Hl as <- <- <- <-; exact Hc2].
      replace (Bufio.Buffered os _ =? 0) with true in Hl by reflexivity.
      cbn [Bufio.wr] in Hl.
      destruct (FileWrite os (Bufio.wr b) _ w1) as [[n3 e3] w3] eqn:Hw3 in Hl.
      injection Hl as <- <- <- <-.
      by eapply direct_write_done.
Qed.

Lemma memfs_honest : Bufio.honest MemFS.mem_os.
Proof.
  intros h p w n w' Hw. simpl in Hw. unfold MemFS.fileWrite in Hw.
  destruct (MemFS.lookup_file h (MemFS.files w)); [| discriminate].
  destruct (Z.max 0 (Z.min (len p) (MemFS.room w)) <? len p) eqn:E;
    [discriminate |].
  injection Hw as <- _. apply Z.ltb_ge in E. unfold len in *. lia.
Qed.

(** A record that fits in the buffer is kept there: [Write] reports its
    length and no error, and the file is not touched. *)
Lemma Bufio_Write_fits os (b : Bufio.Writer os) (p : string) w :
  Bufio.err b = None ->
  len p <= Bufio.Available os b ->
  Bufio.Write os b p w
  = ((len p, None),
     Bufio.mkWriter os None (Bufio.buf b +:+ p) (Bufio.wr b), w).
Proof.
  intros He Hfit. unfold Bufio.Write. simpl.
  replace (Bufio.Available os b <? len p) with false
    by (symmetry; apply Z.ltb_ge; lia).
  simpl. rewrite He. rewrite Z.min_r by lia.
  unfold Bufio.slice_to, len. rewrite Nat2Z.id, substring_all.
  reflexivity.
Qed.

(** * Further properties *)

(** ** File names *)

Lemma append_inj_length (a a' b b' : string) :
  String.length a = String.length a' ->
  a +:+ b = a' +:+ b' -> a = a' /\ b = b'.
Proof.
  revert a'. induction a as [| x a IH]; intros [| x' a'] Hlen Heq;
    try discriminate Hlen.
  - by rewrite !append_nil_l in Heq.
  - rewrite !append_cons in Heq. injection Heq as -> Heq.
    simpl in Hlen. injection Hlen as Hlen.
    destruct (IH a' Hlen Heq) as [-> ->]. auto.
Qed.

Lemma digit_char_inj (d e : Z) :
  0 <= d < 10 -> 0 <= e < 10 -> digit_char d = digit_char e -> d = e.
Proof.
  intros Hd He.
  assert (Hd' : d = 0 \/ d = 1 \/ d = 2 \/ d = 3 \/ d = 4 \/ d = 5 \/ d = 6
                \/ d = 7 \/ d = 8 \/ d = 9) by lia.
  assert (He' : e = 0 \/ e = 1 \/ e = 2 \/ e = 3 \/ e = 4 \/ e = 5 \/ e = 6
                \/ e = 7 \/ e = 8 \/ e = 9) by lia.
  repeat (destruct Hd' as [-> | Hd']);
    repeat (destruct He' as [-> | He']); subst;
    first [reflexivity | (intros H; vm_compute in H; discriminate H)].
Qed.

(** Fixed-width digits tell the numbers of that width apart. *)
Lemma fixed_digits_inj (w : nat) :
  forall n m : Z,
    0 <= n < 10 ^ Z.of_nat w -> 0 <= m < 10 ^ Z.of_nat w ->
    fixed_digits w n = fixed_digits w m -> n = m.
Proof.
  induction w as [| w IH]; intros n m Hn Hm Heq.
  - simpl in Hn, Hm. lia.
  - rewrite Nat2Z.inj_succ, Z.pow_succ_r in Hn, Hm by lia.
    simpl in Heq.
    apply append_inj_length in Heq; [| by rewrite !length_fixed_digits].
    destruct Heq as [Hhi Hlo]. injection Hlo as Hlo.
    apply digit_char_inj in Hlo; [| by apply Z.mod_pos_bound ..].
    apply IH in Hhi.
    + rewrite (Z.div_mod n 10), (Z.div_mod m 10) by lia. congruence.
    + split; [apply Z.div_pos; lia | apply Z.div_lt_upper_bound; lia].
    + split; [apply Z.div_pos; lia | apply Z.div_lt_upper_bound; lia].
Qed.

(** The bucket key of a well-formed timestamp: ten digits and [.log]. *)
Lemma bucketKey_fixed (t : Time) :
  wellFormedTime t ->
  bucketKey t =
    fixed_digits 4 (Year t) +:+ fixed_digits 2 (Month t)
    +:+ fixed_digits 2 (Day t) +:+ fixed_digits 2 (Hour t) +:+ ".log".
Proof.
  intros (Hy & Hmo & Hd & Hh & _).
  unfold bucketKey, getLogFileName. simpl (0 <? 0).
  rewrite !Sprintf_0d_fixed by (simpl; lia). reflexivity.
Qed.

Lemma bucketKey_length (t : Time) :
  wellFormedTime t -> String.length (bucketKey t) = 14%nat.
Proof.
  intros Hwf. rewrite bucketKey_fixed by exact Hwf.
  rewrite !length_append, !length_fixed_digits. reflexivity.
Qed.

Lemma bucketKey_inj (t t' : Time) :
  wellFormedTime t -> wellFormedTime t' ->
  bucketKey t = bucketKey t' -> sameHour t t'.
Proof.
  intros Hwf Hwf' Heq.
  rewrite !bucketKey_fixed in Heq by assumption.
  destruct Hwf as (Hy & Hmo & Hd & Hh & _).
  destruct Hwf' as (Hy' & Hmo' & Hd' & Hh' & _).
  apply append_inj_length in Heq; [| by rewrite !length_fixed_digits].
  destruct Heq as [H1 Heq].
  apply append_inj_length in Heq; [| by rewrite !length_fixed_digits].
  destruct Heq as [H2 Heq].
  apply append_inj_length in Heq; [| by rewrite !length_fixed_digits].
  destruct Heq as [H3 Heq].
  apply append_inj_length in Heq; [| by rewrite !length_fixed_digits].
  destruct Heq as [H4 _].
  apply fixed_digits_inj in H1; [| simpl; lia ..].
  apply fixed_digits_inj in H2; [| simpl; lia ..].
  apply fixed_digits_inj in H3; [| simpl; lia ..].
  apply fixed_digits_inj in H4; [| simpl; lia ..].
  by split_and!.
Qed.

Lemma getLogFileName_cases (t : Time) (id : Z) :
  (id <= 0 /\ getLogFileName t id = bucketKey t) \/
  (0 < id /\ getLogFileName t id = bucketKey t +:+ ("." +:+ Sprintf_d id)).
Proof.
  unfold bucketKey, getLogFileName. simpl (0 <? 0).
  destruct (Z.ltb_spec 0 id); [right | left]; auto.
Qed.

(** X1: the name of a log file tells its hour and its sequence id.  For
    well-formed timestamps, two names are equal exactly when the
    timestamps lie in the same hour and the sequence ids are equal or both
    not positive (every id that is not positive stands for the first file
    of the hour, whose name is 14 bytes long). *)
Theorem getLogFileName_inj :
  forall (t t' : Time) (i j : Z),
    wellFormedTime t -> wellFormedTime t' ->
    (getLogFileName t i = getLogFileName t' j <->
       sameHour t t' /\ (i = j \/ (i <= 0 /\ j <= 0))) /\
    (i <= 0 -> String.length (getLogFileName t i) = 14%nat) /\
    (0 < i -> (14 < String.length (getLogFileName t i))%nat).
Proof.
  intros t t' i j Hwf Hwf'.
  pose proof (bucketKey_length t Hwf) as Hlen.
  pose proof (bucketKey_length t' Hwf') as Hlen'.
  split; [split |].
  - intros Heq.
    destruct (getLogFileName_cases t i) as [[Hi Hn] | [Hi Hn]];
      destruct (getLogFileName_cases t' j) as [[Hj Hn'] | [Hj Hn']];
      rewrite Hn, Hn' in Heq.
    + split; [by apply bucketKey_inj | right; lia].
    + apply (f_equal String.length) in Heq.
      rewrite length_append, Hlen, Hlen' in Heq.
      rewrite append_cons in Heq. simpl in Heq. lia.
    + apply (f_equal String.length) in Heq.
      rewrite length_append, Hlen, Hlen' in Heq.
      rewrite append_cons in Heq. simpl in Heq. lia.
    + apply append_inj_length in Heq; [| congruence].
      destruct Heq as [Hk Hs]. rewrite !append_cons in Hs.
      injection Hs as Hs. rewrite !append_nil_l in Hs.
      apply Sprintf_d_inj in Hs.
      split; [by apply bucketKey_inj | by left].
  - intros [(Hy & Hmo & Hd & Hh) Hid].
    assert (Hk : bucketKey t = bucketKey t').
    { rewrite !bucketKey_fixed by assumption. congruence. }
    destruct (getLogFileName_cases t i) as [[Hi Hn] | [Hi Hn]];
      destruct (getLogFileName_cases t' j) as [[Hj Hn'] | [Hj Hn']];
      rewrite Hn, Hn'; try congruence; try (exfalso; lia).
    destruct Hid as [-> | ?]; [by rewrite Hk | lia].
  - split.
    + intros Hi. destruct (getLogFileName_cases t i) as [[_ Hn] | [? _]];
        [by rewrite Hn | lia].
    + intros Hi. destruct (getLogFileName_cases t i) as [[? _] | [_ Hn]];
        [lia |]. rewrite Hn, length_append, Hlen, append_cons. simpl. lia.
Qed.

(** Two minutes of one hour share their files; the next hour does not. *)
Lemma getLogFileName_inj_witness :
  getLogFileName MemFS.t0 3 = getLogFileName t_example 3 /\
  String.length (getLogFileName MemFS.t1 0) = 14%nat.
Proof.
  assert (H0 : wellFormedTime MemFS.t0) by (unfold wellFormedTime; simpl; lia).
  assert (H1 : wellFormedTime MemFS.t1) by (unfold wellFormedTime; simpl; lia).
  assert (He : wellFormedTime t_example)
    by (unfold wellFormedTime; simpl; lia).
  split.
  - apply (proj1 (getLogFileName_inj MemFS.t0 t_example 3 3 H0 He)).
    split; [by split_and! | by left].
  - apply (proj2 (getLogFileName_inj MemFS.t1 MemFS.t1 0 0 H1 H1)). lia.
Defined.

(** ** The byte counter and the size of the file *)

Lemma rotateFile_in_sync os now (l : RotateLogger os) w e l1 w1 :
  stat_after_open os ->
  in_sync os l w ->
  rotateFile os now l w = (e, l1, w1) ->
  in_sync os l1 w1.
Proof.
  intros Hopen Hsync Hrot. rewrite rotateFile_perform in Hrot.
  assert (Hcreate : forall l0 w0,
            createFile os l0 w0 = (e, l1, w1) -> in_sync os l1 w1).
  { intros l0 w0 Hc. apply createFile_file in Hc.
    destruct e as [err |].
    - destruct Hc as (Hf & _). intros h Hh. congruence.
    - destruct Hc as (h & Hf & Ho & Hn).
      destruct (Hopen _ _ _ _ Ho) as [sz Hsz].
      rewrite Hsz in Hn. intros h' Hh'.
      assert (h' = h) by congruence. subst h'. by rewrite Hn. }
  destruct (decision os now l); simpl in Hrot;
    try (destruct (closeCurrent os _ w) as [l0 w0]; by eapply Hcreate).
  by injection Hrot as <- <- <-.
Qed.

Lemma lookup_store_file p c fs :
  MemFS.lookup_file p (MemFS.store_file p c fs) = Some c.
Proof.
  induction fs as [| [q d] fs IH]; simpl.
  - by rewrite String.eqb_refl.
  - destruct (String.eqb p q) eqn:E; simpl.
    + by rewrite String.eqb_refl.
    + by rewrite E.
Qed.

Lemma length_take_bytes (n : nat) (s : string) :
  (n <= String.length s)%nat -> String.length (MemFS.take_bytes n s) = n.
Proof.
  revert s. induction n as [| n IH]; intros [| a s] Hn; simpl in *;
    try reflexivity; try lia.
  rewrite IH; lia.
Qed.

Lemma memfs_stat_after_open : stat_after_open MemFS.mem_os.
Proof.
  intros p w h w' Ho. simpl in *. unfold MemFS.openFile in Ho.
  unfold MemFS.fileStat.
  destruct (MemFS.is_denied p w); [discriminate |].
  destruct (MemFS.lookup_file p (MemFS.files w)) as [c |] eqn:E;
    injection Ho as <- <-.
  - rewrite E. eauto.
  - simpl. rewrite lookup_store_file. eauto.
Qed.

Lemma memfs_write_grows : write_grows MemFS.mem_os.
Proof.
  intros h b w n e w' sz Hw Hs. simpl in *.
  unfold MemFS.fileWrite in Hw. unfold MemFS.fileStat in *.
  destruct (MemFS.lookup_file h (MemFS.files w)) as [c |]; [| discriminate].
  injection Hs as <-. injection Hw as <- _ <-. simpl.
  rewrite lookup_store_file. f_equal. unfold len.
  rewrite length_append, length_take_bytes; unfold len; lia.
Qed.

(** X2: the byte counter is the size of the open file.  On a device where
    a file that has just been opened reports its size and a write adds the
    bytes it reports to the size of the file, the logger [NewRotateLogger]
    returns has its counter equal to the size of its file, and a call of
    [Output] keeps it so in the world it leaves (with or without a
    rotation, for complete, short and failed writes), as long as the size
    is an [int64]. *)
Theorem counter_follows_file_size :
  forall os L fh,
    stat_after_open os -> write_grows os ->
    (forall dir lvl now w (l : RotateLogger os) w',
       NewRotateLogger os L dir lvl now w = (Some l, None, w') ->
       in_sync os l w') /\
    (forall now frames skip s (l : RotateLogger os) w e l' w',
       in_sync os l w ->
       Output os fh now frames skip s l w = (e, l', w') ->
       (forall h sz,
          f l' = Some h -> FileStat os h w' = inl sz -> is_int64 sz) ->
       in_sync os l' w').
Proof.
  intros os L fh Hopen Hgrow. split.
  - intros dir lvl now w l w' Hnew. unfold NewRotateLogger in Hnew.
    destruct (MkdirAll os dir w) as [[err |] w0]; [discriminate |].
    destruct (scanLoop os _ now _ w0) as [[err |] l0]; [discriminate |].
    destruct (createFile os l0 w0) as [[[err |] l1] w1] eqn:Hc;
      [discriminate |].
    injection Hnew as <- <-.
    apply createFile_file in Hc. destruct Hc as (h & Hf & Ho & Hn).
    destruct (Hopen _ _ _ _ Ho) as [sz Hsz]. rewrite Hsz in Hn.
    intros h' Hh'. assert (h' = h) by congruence. subst h'.
    by rewrite Hn.
  - intros now frames skip s l w e l' w' Hsync Hout Hrange.
    destruct (rotateFile os now l w) as [[[err |] l1] w1] eqn:Hrot.
    + rewrite (Output_rotate_failure _ _ _ _ _ _ _ _ _ _ _ Hrot) in Hout.
      injection Hout as <- <- <-.
      by eapply rotateFile_in_sync.
    + pose proof (rotateFile_in_sync _ _ _ _ _ _ _ Hopen Hsync Hrot) as Hs1.
      destruct (Output_counts os fh now frames skip s l w l1 w1 Hrot)
        as (h & Hf1 & Hstep).
      destruct (FileWrite os h (record fh now frames skip s (flags l1)) w1)
        as [[nn err] w2] eqn:Hw.
      destruct (Hstep nn err w2 eq_refl)
        as (l2 & Hout2 & Hn & _ & _ & Hf2 & _).
      rewrite Hout2 in Hout. injection Hout as <- <- <-.
      pose proof (Hgrow _ _ _ _ _ _ _ Hw (Hs1 h Hf1)) as Hsz.
      intros h' Hh'. assert (h' = h) by congruence. subst h'.
      rewrite Hn, int64_id; [exact Hsz |].
      by eapply Hrange.
Qed.

(** The counter of the logger that has written its first record to the
    first file of the hour. *)
Lemma counter_follows_file_size_witness :
  in_sync MemFS.mem_os MemFS.busy_logger (MemFS.world_of MemFS.busy).
Proof.
  refine (proj2 (counter_follows_file_size MemFS.mem_os 0 MemFS.header
                   memfs_stat_after_open memfs_write_grows)
            MemFS.t0 MemFS.main_frames 2 ("WARN|" +:+ MemFS.line40)
            (SetLogSizeLimit MemFS.mem_os 64 MemFS.fresh_logger)
            MemFS.fresh_mem _ MemFS.busy_logger (MemFS.world_of MemFS.busy)
            _ _ _).
  - intros h Hh. injection Hh as <-. vm_compute. reflexivity.
  - vm_compute. reflexivity.
  - intros h sz Hh Hsz. vm_compute in Hh. injection Hh as <-.
    vm_compute in Hsz. injection Hsz as <-.
    unfold is_int64, MinInt64, MaxInt64. lia.
Defined.

(** ** One record, one line *)

Lemma count_byte_append c a b :
  count_byte c (a +:+ b) = (count_byte c a + count_byte c b)%nat.
Proof.
  induction a as [| x a IH].
  - by rewrite append_nil_l.
  - rewrite append_cons. simpl. rewrite IH. lia.
Qed.

Lemma pretty_N_char_newline (x : N) :
  Ascii.eqb (pretty_N_char x) newline = false.
Proof.
  destruct x as [| p]; [reflexivity |].
  do 4 (destruct p as [p | p |]; try reflexivity).
Qed.

Lemma count_newline_pretty_N_go (x : N) (acc : string) :
  count_byte newline (pretty_N_go x acc) = count_byte newline acc.
Proof.
  revert acc. induction (N.lt_wf_0 x) as [x _ IH]. intros acc.
  destruct (decide (x = 0)%N) as [-> | Hx].
  - by rewrite pretty_N_go_0.
  - rewrite pretty_N_go_step by lia.
    rewrite IH by (apply N.div_lt; lia).
    simpl. by rewrite pretty_N_char_newline.
Qed.

Lemma count_newline_pretty_N (x : N) : count_byte newline (pretty x) = O.
Proof.
  unfold pretty, pretty_N. destruct (decide (x = 0)%N); [reflexivity |].
  apply count_newline_pretty_N_go.
Qed.

Lemma count_newline_Sprintf_d (n : Z) : count_byte newline (Sprintf_d n) = O.
Proof.
  unfold Sprintf_d, pretty, pretty_Z. destruct n as [| p | p].
  - reflexivity.
  - apply count_newline_pretty_N.
  - destruct (decide (0 ≤ Z.neg p)); [lia |].
    rewrite count_byte_append. simpl.
    apply count_newline_pretty_N.
Qed.

Lemma count_newline_zeros (k : nat) : count_byte newline (zeros k) = O.
Proof. induction k as [| k IH]; [reflexivity | exact IH]. Qed.

Lemma count_newline_Sprintf_0d (k : nat) (n : Z) :
  count_byte newline (Sprintf_0d k n) = O.
Proof.
  unfold Sprintf_0d, zero_pad. destruct (n <? 0).
  - rewrite !count_byte_append, count_newline_zeros, count_newline_pretty_N.
    reflexivity.
  - by rewrite count_byte_append, count_newline_zeros, count_newline_pretty_N.
Qed.

Lemma count_newline_formatHeader b t file line fn :
  count_byte newline (formatHeader b t file line fn)
  = (count_byte newline b + count_byte newline (basename file)
     + count_byte newline fn)%nat.
Proof.
  unfold formatHeader. cbv zeta. rewrite slice_basename.
  rewrite !count_byte_append, !count_newline_Sprintf_0d,
    count_newline_Sprintf_d.
  simpl. lia.
Qed.

Lemma count_newline_terminator s :
  count_byte newline (terminator s)
  = if ends_with_newline s then O else 1%nat.
Proof. unfold terminator. by destruct (ends_with_newline s). Qed.

Lemma WriterOutput_wbuf Sink Write now frames skip s (l : WriterLogger Sink) :
  wbuf (snd (WriterOutput Sink Write now frames skip s l))
  = (let '(file, line, fn) := resolve frames skip in
     formatHeader EmptyString now file line fn) +:+ s +:+ terminator s.
Proof.
  unfold WriterOutput, resolve, terminator.
  rewrite needs_newline_spec.
  destruct (frames skip) as [[[file line] fn] |];
    destruct (ends_with_newline s); simpl;
    destruct (Write _ (out l)) as [[nn err] o]; simpl;
    rewrite ?append_nil_r, ?append_assoc; reflexivity.
Qed.

(** X3: one record, one line.  The header brings no line break of its
    own: the line breaks of a record the writer logger writes are those of
    the base name of the file, of the function name and of the content,
    and the terminator added to a content that does not end in one.  A
    record made from parts without line breaks is one line: a text without
    line break followed by exactly one. *)
Theorem record_is_one_line :
  forall (t : Time) (file : string) (line : Z) (fn : string),
    (forall b,
       count_byte newline (formatHeader b t file line fn)
       = (count_byte newline b + count_byte newline (basename file)
          + count_byte newline fn)%nat) /\
    (count_byte newline (basename file) <= count_byte newline file)%nat /\
    (forall Sink Write frames skip s (l : WriterLogger Sink),
       resolve frames skip = (file, line, fn) ->
       let r := WriterOutput Sink Write t frames skip s l in
       count_byte newline (wbuf (snd r))
       = (count_byte newline (basename file) + count_byte newline fn
          + count_byte newline s
          + (if ends_with_newline s then 0 else 1))%nat /\
       (count_byte newline (basename file) = O ->
        count_byte newline fn = O -> count_byte newline s = O ->
        exists body,
          wbuf (snd r) = body +:+ String newline EmptyString /\
          count_byte newline body = O)).
Proof.
  intros t file line fn. split_and!.
  - intros b. apply count_newline_formatHeader.
  - destruct (basename_spec file) as (_ & _ & dir & Hdir & _).
    rewrite Hdir at 2. rewrite count_byte_append. lia.
  - intros Sink Write frames skip s l Hres r. subst r.
    rewrite WriterOutput_wbuf, Hres. split.
    + rewrite !count_byte_append, count_newline_formatHeader,
        count_newline_terminator. simpl. lia.
    + intros Hfile Hfn Hs.
      assert (Hend : ends_with_newline s = false).
      { destruct (ends_with_newline s) eqn:E; [| reflexivity].
        unfold ends_with_newline in E. apply bool_decide_eq_true in E.
        exfalso. clear -E Hs. induction s as [| a s IH]; [discriminate |].
        simpl in E, Hs. destruct s as [| a' s'].
        - injection E as ->. simpl in Hs. discriminate.
        - destruct (Ascii.eqb a newline); [discriminate |].
          apply IH; [exact Hs | exact E]. }
      exists (formatHeader EmptyString t file line fn +:+ s).
      unfold terminator. rewrite Hend. split.
      * by rewrite append_assoc.
      * rewrite count_byte_append, count_newline_formatHeader. simpl. lia.
Qed.

(** A record of the caller [main.main]. *)
Lemma record_is_one_line_witness :
  exists body,
    wbuf (snd (WriterOutput string (fun b o => ((len b, None), o +:+ b))
                 MemFS.t0 MemFS.main_frames 3 "WARN|disk full"
                 (NewWriterLogger string EmptyString WARN)))
    = body +:+ String newline EmptyString /\
    count_byte newline body = O.
Proof.
  refine (proj2 (proj2 (proj2 (record_is_one_line MemFS.t0 "/srv/app/main.go"
                                 17 "main.main"))
                   string (fun b o => ((len b, None), o +:+ b))
                   MemFS.main_frames 3 "WARN|disk full"
                   (NewWriterLogger string EmptyString WARN) _) _ _ _);
    reflexivity.
Defined.

(** ** The file a record goes to *)

Lemma createFile_names os Name (l : RotateLogger os) w e l1 w1 :
  open_names os Name ->
  createFile os l w = (e, l1, w1) ->
  names_target os Name l1.
Proof.
  intros Hopen Hc.
  pose proof (createFile_fields os _ _ _ _ _ Hc)
    as (Hdir & _ & _ & _ & _ & Hfn & Hid).
  apply createFile_file in Hc. destruct e as [err |].
  - destruct Hc as (Hf & _). intros h Hh. congruence.
  - destruct Hc as (h & Hf & Ho & _). intros h' Hh'.
    assert (h' = h) by congruence. subst h'.
    rewrite (Hopen _ _ _ _ Ho), Hdir.
    f_equal. symmetry. by apply targetName_eq.
Qed.

Lemma rotateFile_names os Name now (l : RotateLogger os) w e l1 w1 :
  open_names os Name ->
  names_target os Name l ->
  rotateFile os now l w = (e, l1, w1) ->
  names_target os Name l1 /\ fname l1 = bucketKey now /\
  logDir l1 = logDir l.
Proof.
  intros Hopen Hl Hrot. rewrite rotateFile_perform in Hrot.
  pose proof (perform_target os _ _ _ _ _ _ _ Hrot)
    as (Hfn & _ & _ & Hdir & _).
  split_and!; [| | exact Hdir].
  - destruct (decision os now l); simpl in Hrot;
      try (destruct (closeCurrent os _ w) as [l0 w0];
           by eapply createFile_names).
    by injection Hrot as <- <- <-.
  - rewrite Hfn. destruct (decision_cases os now l) as (_ & Hb & Hc & Hd).
    destruct (decision os now l); simpl; [reflexivity | | |].
    + by destruct (proj1 Hb eq_refl).
    + by destruct (proj1 Hc eq_refl).
    + by destruct (proj1 Hd eq_refl).
Qed.

Lemma Reachable_names os L fh Name (l : RotateLogger os) :
  open_names os Name -> Reachable os L fh l -> names_target os Name l.
Proof.
  intros Hopen Hr. induction Hr as
    [dir lvl now w l w' Hnew | now frames skip s l w e l' w' _ IH Hout
    | v l _ IH | v l _ IH | v l _ IH]; try exact IH.
  - unfold NewRotateLogger in Hnew.
    destruct (MkdirAll os dir w) as [[err |] w0]; [discriminate |].
    destruct (scanLoop os _ now _ w0) as [[err |] l0]; [discriminate |].
    destruct (createFile os l0 w0) as [[[err |] l1] w1] eqn:Hc;
      [discriminate |].
    injection Hnew as <- <-. by eapply createFile_names.
  - destruct (rotateFile os now l w) as [[e1 l1] w1] eqn:Hrot.
    destruct (rotateFile_names os Name _ _ _ _ _ _ Hopen IH Hrot)
      as (Hn1 & _ & _).
    destruct (Output_target os fh _ _ _ _ _ _ _ _ _ _ _ _ Hrot Hout)
      as (Hfn & Hid & _ & Hf & Hdir & _).
    intros h Hh. rewrite Hf in Hh. rewrite (Hn1 h Hh), Hdir.
    f_equal. symmetry. by apply targetName_eq.
Qed.

(** X4: every record goes to a file of its own hour.  On a device whose
    open files are named as they were opened, the file a logger made by
    [NewRotateLogger] holds open is always the one its file name and
    sequence id designate; and when [Output], called at the time [now],
    writes a record, it writes it to the file named
    [getLogFileName now id] in the log directory, [id] being the sequence
    id the call leaves. *)
Theorem record_goes_to_its_hour :
  forall os L fh (Name : File os -> string),
    open_names os Name ->
    forall l : RotateLogger os,
      Reachable os L fh l ->
      names_target os Name l /\
      forall now frames skip s w l1 w1,
        rotateFile os now l w = (None, l1, w1) ->
        exists h,
          f l1 = Some h /\
          Name h = Join os (logDir l) (getLogFileName now (fid l1)) /\
          forall nn err w2,
            FileWrite os h (record fh now frames skip s (flags l1)) w1
              = ((nn, err), w2) ->
            exists l2,
              Output os fh now frames skip s l w = (err, l2, w2) /\
              f l2 = Some h /\ fid l2 = fid l1 /\ fname l2 = bucketKey now.
Proof.
  intros os L fh Name Hopen l Hr.
  pose proof (Reachable_names os L fh Name l Hopen Hr) as Hl.
  split; [exact Hl |].
  intros now frames skip s w l1 w1 Hrot.
  destruct (rotateFile_names os Name _ _ _ _ _ _ Hopen Hl Hrot)
    as (Hn1 & Hfn & Hdir).
  destruct (Output_counts os fh now frames skip s l w l1 w1 Hrot)
    as (h & Hf1 & Hstep).
  exists h. split_and!; [exact Hf1 | |].
  - rewrite (Hn1 h Hf1), Hdir. f_equal.
    by apply targetName_getLogFileName.
  - intros nn err w2 Hw.
    destruct (Hstep nn err w2 Hw) as (l2 & Ho & _ & _ & _ & Hf2 & Hfn2 & Hid2).
    exists l2. split_and!; [exact Ho | exact Hf2 | exact Hid2 | congruence].
Qed.

Lemma memfs_open_names : open_names MemFS.mem_os (fun h => h).
Proof.
  intros p w h w' Ho. simpl in Ho. unfold MemFS.openFile in Ho.
  destruct (MemFS.is_denied p w); [discriminate |].
  destruct (MemFS.lookup_file p (MemFS.files w)); by injection Ho as <- _.
Qed.

(** The logger that has written its first record to the first file of the
    hour. *)
Lemma record_goes_to_its_hour_witness :
  names_target MemFS.mem_os (fun h => h) MemFS.busy_logger.
Proof.
  exact (proj1 (record_goes_to_its_hour MemFS.mem_os 0 MemFS.header
                  (fun h => h) memfs_open_names MemFS.busy_logger
                  busy_reachable)).
Defined.

(** ** The leveled methods of the writer logger *)

Lemma fw_emit_eq Sink Write fh now frames s (l : FlagWriter.WriterLogger Sink) :
  FlagWriter.emit Sink Write fh now frames s l
  = FlagWriter.mkWriterLogger Sink (FlagWriter.level l)
      (record fh now frames 2 s (FlagWriter.flags l))
      (snd (Write (record fh now frames 2 s (FlagWriter.flags l))
              (FlagWriter.out l)))
      (FlagWriter.flags l).
Proof.
  unfold FlagWriter.emit, FlagWriter.Output, record.
  destruct (resolve frames 2) as [[file line] fn].
  destruct (needs_newline s);
    destruct (Write _ (FlagWriter.out l)) as [[nn err] o]; reflexivity.
Qed.

Lemma fw_call_eq Sink Write fh meth now frames m
    (l : FlagWriter.WriterLogger Sink) :
  FlagWriter.call Sink Write fh meth now frames m l
  = if FlagWriter.emits (FlagWriter.level l) meth then
      match kind meth with
      | Terminating =>
          Exited 1 (FlagWriter.emit Sink Write fh now frames (tag meth +:+ m) l)
      | _ =>
          Returned (FlagWriter.emit Sink Write fh now frames (tag meth +:+ m) l)
      end
    else Returned l.
Proof.
  destruct meth; unfold FlagWriter.emits; simpl;
    unfold FlagWriter.Tracef, FlagWriter.Trace, FlagWriter.Debugf,
      FlagWriter.Debug, FlagWriter.Warnf, FlagWriter.Warn, FlagWriter.Errorf,
      FlagWriter.Error, FlagWriter.LogLevel_of;
    try reflexivity;
    by destruct (FlagWriter.level l <=? _).
Qed.

Lemma fw_emits_spec (T : LogLevel) (meth : Method) :
  FlagWriter.emits T meth = true <->
  kind meth <> Filtered \/ T <= severity meth.
Proof.
  unfold FlagWriter.emits. destruct (kind meth) eqn:Hk.
  - rewrite Z.leb_le. intuition congruence.
  - intuition congruence.
  - intuition congruence.
Qed.

(** X5: a leveled method of the writer logger passes at most one record
    to the writer.  A method writes when it is [Info], [Infof], [Fatal] or
    [Fatalf], or when the threshold of the logger is at most its
    severity; it then calls [Write] once, with the record of the tagged
    text, and drops what [Write] returns.  Otherwise the logger and the
    writer are left as they were.  [Fatal] and [Fatalf] exit with status 1,
    whatever the write did; no method changes the threshold or the
    flags. *)
Theorem writer_method_writes_once :
  forall Sink Write fh meth now frames m (l : FlagWriter.WriterLogger Sink),
    let r := FlagWriter.call Sink Write fh meth now frames m l in
    let b := record fh now frames 2 (tag meth +:+ m) (FlagWriter.flags l) in
    (FlagWriter.emits (FlagWriter.level l) meth = true <->
       kind meth <> Filtered \/ FlagWriter.level l <= severity meth) /\
    exit_status r
      = match kind meth with Terminating => Some 1 | _ => None end /\
    FlagWriter.level (final r) = FlagWriter.level l /\
    FlagWriter.flags (final r) = FlagWriter.flags l /\
    (FlagWriter.emits (FlagWriter.level l) meth = true ->
       FlagWriter.buf (final r) = b /\
       FlagWriter.out (final r) = snd (Write b (FlagWriter.out l))) /\
    (FlagWriter.emits (FlagWriter.level l) meth = false -> final r = l).
Proof.
  intros Sink Write fh meth now frames m l r b. subst r b.
  rewrite fw_call_eq, fw_emit_eq.
  split; [apply fw_emits_spec |].
  unfold FlagWriter.emits.
  destruct (kind meth); simpl;
    try destruct (FlagWriter.level l <=? severity meth); simpl;
    split_and!; try reflexivity; try discriminate; auto.
Qed.

(** [Warn] at the threshold [ERROR] writes nothing. *)
Lemma writer_method_writes_once_witness :
  final (FlagWriter.call string FlagWriter.append_write MemFS.header MWarn
           MemFS.t0 MemFS.main_frames "disk full"
           (FlagWriter.NewWriterLogger string 0 EmptyString ERROR))
  = FlagWriter.NewWriterLogger string 0 EmptyString ERROR.
Proof.
  apply (writer_method_writes_once string FlagWriter.append_write MemFS.header
           MWarn MemFS.t0 MemFS.main_frames "disk full"
           (FlagWriter.NewWriterLogger string 0 EmptyString ERROR)).
  reflexivity.
Defined.

(** X6: what a program leaves on a writer that keeps all it is given.  A
    sequence of leveled calls appends to the writer the records of the
    calls that pass the threshold, one after the other in the order of
    the calls, up to and including the first [Fatal] or [Fatalf]; the
    program exits with status 1 when there is such a call, and returns
    otherwise. *)
Theorem writer_run_transcript :
  forall Sink Write fh (contents : Sink -> string),
    FlagWriter.keeps_all Sink Write contents ->
    forall (cs : list FlagWriter.MCall) (l : FlagWriter.WriterLogger Sink),
      let r := FlagWriter.run Sink Write fh cs l in
      contents (FlagWriter.out (final r))
      = contents (FlagWriter.out l)
        +:+ FlagWriter.transcript fh (FlagWriter.level l) (FlagWriter.flags l)
              cs /\
      exit_status r = (if FlagWriter.exits cs then Some 1 else None) /\
      FlagWriter.level (final r) = FlagWriter.level l /\
      FlagWriter.flags (final r) = FlagWriter.flags l.
Proof.
  intros Sink Write fh contents Hkeep cs.
  induction cs as [| c cs IH]; intros l r; subst r.
  - simpl. by rewrite append_nil_r.
  - simpl FlagWriter.run. rewrite fw_call_eq, fw_emit_eq.
    simpl FlagWriter.transcript. unfold FlagWriter.exits. simpl existsb.
    unfold FlagWriter.line, FlagWriter.emits.
    set (b := record fh (FlagWriter.m_now c) (FlagWriter.m_frames c) 2
                (tag (FlagWriter.m_method c) +:+ FlagWriter.m_msg c)
                (FlagWriter.flags l)).
    set (l1 := FlagWriter.mkWriterLogger Sink (FlagWriter.level l) b
                 (snd (Write b (FlagWriter.out l))) (FlagWriter.flags l)).
    assert (Hnext :
      contents (FlagWriter.out (final (FlagWriter.run Sink Write fh cs l1)))
      = contents (FlagWriter.out l)
        +:+ (b +:+ FlagWriter.transcript fh (FlagWriter.level l)
                     (FlagWriter.flags l) cs) /\
      exit_status (FlagWriter.run Sink Write fh cs l1)
      = (if FlagWriter.exits cs then Some 1 else None) /\
      FlagWriter.level (final (FlagWriter.run Sink Write fh cs l1))
      = FlagWriter.level l /\
      FlagWriter.flags (final (FlagWriter.run Sink Write fh cs l1))
      = FlagWriter.flags l).
    { destruct (IH l1) as (Hc & He & Hl & Hf). subst l1.
      simpl in Hc, Hl, Hf. rewrite Hc, Hkeep, append_assoc. auto. }
    destruct (kind (FlagWriter.m_method c)).
    + destruct (FlagWriter.level l <=? severity (FlagWriter.m_method c)).
      * exact Hnext.
      * rewrite append_nil_l. apply IH.
    + exact Hnext.
    + simpl. subst l1. simpl. rewrite Hkeep, append_nil_r. auto.
Qed.

(** The example program on a writer that appends to a byte string, at the
    threshold [TRACE]: it returns. *)
Lemma writer_run_transcript_witness :
  exit_status
    (FlagWriter.run string FlagWriter.append_write MemFS.header
       FlagWriter.example_calls
       (FlagWriter.NewWriterLogger string 0 EmptyString TRACE))
  = None.
Proof.
  refine (proj1 (proj2 (writer_run_transcript string FlagWriter.append_write
                          MemFS.header (fun o => o) _
                          FlagWriter.example_calls
                          (FlagWriter.NewWriterLogger string 0 EmptyString
                             TRACE)))).
  intros b o. reflexivity.
Defined.

(** ** The package-level logger: the level flag *)

Lemma legacy_map_lookup (value : string) :
  LegacyAPI.LogLevelMap !! value
  = if decide (value = "DEBUG") then Some LegacyAPI.DEBUG
    else if decide (value = "TRACE") then Some LegacyAPI.TRACE
    else if decide (value = "WARN") then Some LegacyAPI.WARN
    else if decide (value = "ERROR") then Some LegacyAPI.ERROR
    else None.
Proof.
  unfold LegacyAPI.LogLevelMap.
  destruct (decide (value = "DEBUG")) as [-> | H1];
    [by rewrite lookup_insert_eq | rewrite lookup_insert_ne by done].
  destruct (decide (value = "TRACE")) as [-> | H2];
    [by rewrite lookup_insert_eq | rewrite lookup_insert_ne by done].
  destruct (decide (value = "WARN")) as [-> | H3];
    [by rewrite lookup_insert_eq | rewrite lookup_insert_ne by done].
  destruct (decide (value = "ERROR")) as [-> | H4];
    [by rewrite lookup_insert_eq | rewrite lookup_insert_ne by done].
  apply lookup_empty.
Qed.

(** X7: the level flag of the package-level logger.  [Set] accepts the
    four names [DEBUG], [TRACE], [WARN] and [ERROR], in upper case only,
    and stores the level of the name, the levels being ordered
    [DEBUG < TRACE < WARN < ERROR]; for every other value, the lower-case
    names of its error message among them, it returns an error and leaves
    the level as it was.  [String] does not read the level back: it is
    [DEBUG] after every [Set]. *)
Theorem legacy_level_flag :
  forall (value : string) (level : LogLevel),
    let r := LegacyAPI.LogLevel_Set value level in
    (fst r = None <-> value ∈ ["DEBUG"; "TRACE"; "WARN"; "ERROR"]) /\
    (value = "DEBUG" -> snd r = LegacyAPI.DEBUG) /\
    (value = "TRACE" -> snd r = LegacyAPI.TRACE) /\
    (value = "WARN" -> snd r = LegacyAPI.WARN) /\
    (value = "ERROR" -> snd r = LegacyAPI.ERROR) /\
    LegacyAPI.DEBUG < LegacyAPI.TRACE < LegacyAPI.WARN /\
    LegacyAPI.WARN < LegacyAPI.ERROR /\
    (fst r <> None -> snd r = level) /\
    (value ∈ ["debug"; "trace"; "warn"; "error"] -> fst r <> None) /\
    LegacyAPI.LogLevel_String (snd r) = "DEBUG".
Proof.
  intros value level r. subst r. unfold LegacyAPI.LogLevel_Set.
  rewrite legacy_map_lookup.
  assert (Hlow : value ∈ ["debug"; "trace"; "warn"; "error"] ->
                 value ∉ ["DEBUG"; "TRACE"; "WARN"; "ERROR"]).
  { rewrite !elem_of_cons, !elem_of_nil.
    intros [-> | [-> | [-> | [-> | []]]]] [H | [H | [H | [H | []]]]];
      discriminate H. }
  assert (Horder : LegacyAPI.DEBUG < LegacyAPI.TRACE < LegacyAPI.WARN /\
                   LegacyAPI.WARN < LegacyAPI.ERROR)
    by (vm_compute; auto).
  destruct Horder as [Ho1 Ho2].
  assert (Hin : forall v, v ∈ ["DEBUG"; "TRACE"; "WARN"; "ERROR"] <->
                  v = "DEBUG" \/ v = "TRACE" \/ v = "WARN" \/ v = "ERROR").
  { intros v. rewrite !elem_of_cons, elem_of_nil. tauto. }
  destruct (decide (value = "DEBUG")) as [-> | H1];
    [| destruct (decide (value = "TRACE")) as [-> | H2];
       [| destruct (decide (value = "WARN")) as [-> | H3];
          [| destruct (decide (value = "ERROR")) as [-> | H4]]]];
    simpl; split_and!; try done; try exact Ho1; try exact Ho2;
    try (split; [intros _; apply Hin; auto | done]);
    try (intros H; exfalso; apply (Hlow H), Hin; auto).
  split; [discriminate | intros H; apply Hin in H; tauto].
Qed.

(** The value [warn] is refused and leaves the level [ERROR]. *)
Lemma legacy_level_flag_witness :
  snd (LegacyAPI.LogLevel_Set "warn" LegacyAPI.ERROR) = LegacyAPI.ERROR.
Proof.
  apply (legacy_level_flag "warn" LegacyAPI.ERROR).
  vm_compute. discriminate.
Defined.
(** ** The package-level logger: the leveled methods *)

Lemma legacy_Output_open os Writer NewWriter Write Flush now frames skip s
    (l : Legacy.loggerT os Writer) w e l1 w1 :
  Legacy.Output os Writer NewWriter Write Flush now frames skip s l w
    = Legacy.Done (e, l1, w1) ->
  (Legacy.f l1 = None /\ Legacy.out l1 = None) \/
  (exists h o, Legacy.f l1 = Some h /\ Legacy.out l1 = Some o).
Proof.
  unfold Legacy.Output, Legacy.createFile, Legacy.writeOut, Legacy.needFile.
  intros H.
  repeat case_match; simplify_eq; simpl in *; eauto.
  destruct (Legacy.f l); [eauto | discriminate].
Qed.

Lemma la_call_eq os Writer NewWriter Write Flush meth now frames m
    (l : Legacy.loggerT os Writer) w :
  LegacyAPI.call os Writer NewWriter Write Flush meth now frames m l w
  = if LegacyAPI.emits (Legacy.level l) meth then
      match kind meth with
      | Terminating =>
          match LegacyAPI.emit os Writer NewWriter Write Flush now frames
                  (LegacyAPI.tag meth +:+ m) l w with
          | Legacy.Panicked => Legacy.Panicked
          | Legacy.Done (l1, w1) =>
              match LegacyAPI.loggerFlush os Writer Flush l1 w1 with
              | Legacy.Panicked => Legacy.Panicked
              | Legacy.Done st => Legacy.Done (Exited 1 st)
              end
          end
      | _ =>
          LegacyAPI.returning os Writer
            (LegacyAPI.emit os Writer NewWriter Write Flush now frames
               (LegacyAPI.tag meth +:+ m) l w)
      end
    else Legacy.Done (Returned (l, w)).
Proof.
  destruct meth; unfold LegacyAPI.emits; simpl;
    unfold LegacyAPI.Tracef, LegacyAPI.Trace, LegacyAPI.Debugf,
      LegacyAPI.Debug, LegacyAPI.Warnf, LegacyAPI.Warn, LegacyAPI.Errorf,
      LegacyAPI.Error, LegacyAPI.LogLevel_of;
    try reflexivity;
    by destruct (Legacy.level l <=? _).
Qed.

(** X8: the leveled methods of the package-level logger.  [Debug],
    [Trace], [Warn], [Error] and their [f] variants write when the
    threshold is at most their level, in the order
    [DEBUG < TRACE < WARN < ERROR] of this logger; [Info] and [Infof] always
    write.  A method that writes makes one call of [Output], at skip depth
    3 and with the tagged text, and returns whatever error that call
    reports; one that does not write leaves the logger and the device as
    they were. *)
Theorem legacy_methods_filter :
  forall os Writer NewWriter Write Flush meth now frames m
         (l : Legacy.loggerT os Writer) (w : World os),
    kind meth <> Terminating ->
    let r := LegacyAPI.call os Writer NewWriter Write Flush meth now frames
               m l w in
    let o := Legacy.Output os Writer NewWriter Write Flush now frames 3
               (LegacyAPI.tag meth +:+ m) l w in
    (LegacyAPI.emits (Legacy.level l) meth = true <->
       kind meth = Unconditional \/
       exists v, LegacyAPI.severity meth = Some v /\ Legacy.level l <= v) /\
    (LegacyAPI.emits (Legacy.level l) meth = false ->
       r = Legacy.Done (Returned (l, w))) /\
    (LegacyAPI.emits (Legacy.level l) meth = true ->
       (o = Legacy.Panicked -> r = Legacy.Panicked) /\
       (forall e l1 w1, o = Legacy.Done (e, l1, w1) ->
          r = Legacy.Done (Returned (l1, w1)))) /\
    LegacyAPI.severity MDebug = Some LegacyAPI.DEBUG /\
    LegacyAPI.severity MTrace = Some LegacyAPI.TRACE /\
    LegacyAPI.DEBUG < LegacyAPI.TRACE.
Proof.
  intros os Writer NewWriter Write Flush meth now frames m l w Hk r o.
  subst r o. rewrite la_call_eq. split_and!; try reflexivity.
  - unfold LegacyAPI.emits.
    destruct meth; simpl in *; try congruence; rewrite ?Z.leb_le;
      try (split; [intros H; right; eexists; split; [reflexivity | exact H]
                  | intros [H | (v & Hv & H)];
                    [discriminate H | by injection Hv as <-]]);
      split; auto.
  - by intros ->.
  - intros ->. unfold LegacyAPI.emit, LegacyAPI.returning.
    destruct (kind meth); try congruence; split.
    + by intros ->.
    + by intros e l1 w1 ->.
    + by intros ->.
    + by intros e l1 w1 ->.
Qed.

(** [Debug] at the threshold [WARN] writes nothing. *)
Lemma legacy_methods_filter_witness :
  LegacyAPI.call MemFS.mem_os (Bufio.Writer MemFS.mem_os)
      (Bufio.NewWriter MemFS.mem_os) (Bufio.Write MemFS.mem_os)
      (Bufio.Flush_ MemFS.mem_os) MDebug MemFS.t0 MemFS.main_frames "probe"
    Legacy.sample_logger MemFS.sample_mem
  = Legacy.Done (Returned (Legacy.sample_logger, MemFS.sample_mem)).
Proof.
  refine (proj1 (proj2 (legacy_methods_filter MemFS.mem_os (Bufio.Writer MemFS.mem_os)
      (Bufio.NewWriter MemFS.mem_os) (Bufio.Write MemFS.mem_os)
      (Bufio.Flush_ MemFS.mem_os)
                          MDebug MemFS.t0 MemFS.main_frames "probe"
                          Legacy.sample_logger MemFS.sample_mem _)) _).
  - discriminate.
  - reflexivity.
Defined.

(** X9: [Fatal] and [Fatalf] of the package-level logger.  They always
    write; when their call of [Output] returns, with or without an error,
    the writer is flushed if a file is open, and the process then exits
    with status 1: the flush cannot fail for want of a writer, because
    [Output] never leaves a file without its writer.  When [Output] fails
    on a missing writer, so does the method. *)
Theorem legacy_Fatal_flushes_and_exits :
  forall os Writer NewWriter Write Flush meth now frames m
         (l : Legacy.loggerT os Writer) (w : World os),
    kind meth = Terminating ->
    let r := LegacyAPI.call os Writer NewWriter Write Flush meth now frames
               m l w in
    let o := Legacy.Output os Writer NewWriter Write Flush now frames 3
               (LegacyAPI.tag meth +:+ m) l w in
    (o = Legacy.Panicked -> r = Legacy.Panicked) /\
    (forall e l1 w1,
       o = Legacy.Done (e, l1, w1) ->
       (Legacy.f l1 = None /\ Legacy.out l1 = None /\
        r = Legacy.Done (Exited 1 (l1, w1))) \/
       (exists h b,
          Legacy.f l1 = Some h /\ Legacy.out l1 = Some b /\
          r = Legacy.Done
                (Exited 1
                   (Legacy.mkLoggerT os Writer (Legacy.level l1)
                      (Legacy.logDir l1) (Legacy.logSize l1)
                      (Legacy.flushPeriod l1) (Legacy.buf l1)
                      (Some (fst (Flush b w1))) (Legacy.f l1)
                      (Legacy.fname l1) (Legacy.nbytes l1) (Legacy.fid l1),
                    snd (Flush b w1))))).
Proof.
  intros os Writer NewWriter Write Flush meth now frames m l w Hk r o.
  subst r o. rewrite la_call_eq, Hk.
  replace (LegacyAPI.emits (Legacy.level l) meth) with true
    by (destruct meth; try discriminate Hk; reflexivity).
  unfold LegacyAPI.emit. split.
  - by intros ->.
  - intros e l1 w1 Ho. rewrite Ho.
    unfold LegacyAPI.loggerFlush, LegacyAPI.flush.
    destruct (legacy_Output_open _ _ _ _ _ _ _ _ _ _ _ _ _ _ Ho)
      as [[Hf Hout] | (h & b & Hf & Hout)].
    + left. by rewrite Hf.
    + right. exists h, b. rewrite Hf, Hout.
      destruct (Flush b w1) as [b' w2]. auto.
Qed.

(** [Fatal] on the sample logger exits with status 1. *)
Lemma legacy_Fatal_flushes_and_exits_witness :
  match LegacyAPI.call MemFS.mem_os (Bufio.Writer MemFS.mem_os)
      (Bufio.NewWriter MemFS.mem_os) (Bufio.Write MemFS.mem_os)
      (Bufio.Flush_ MemFS.mem_os) MFatal MemFS.t0 MemFS.main_frames "stop"
          Legacy.sample_logger MemFS.sample_mem with
  | Legacy.Done (Exited 1 _) => True
  | _ => False
  end.
Proof.
  destruct (Legacy.Output MemFS.mem_os (Bufio.Writer MemFS.mem_os)
      (Bufio.NewWriter MemFS.mem_os) (Bufio.Write MemFS.mem_os)
      (Bufio.Flush_ MemFS.mem_os) MemFS.t0 MemFS.main_frames 3
              (LegacyAPI.tag MFatal +:+ "stop") Legacy.sample_logger
              MemFS.sample_mem) as [[[e l1] w1] |] eqn:Ho.
  - destruct (proj2 (legacy_Fatal_flushes_and_exits MemFS.mem_os (Bufio.Writer MemFS.mem_os)
      (Bufio.NewWriter MemFS.mem_os) (Bufio.Write MemFS.mem_os)
      (Bufio.Flush_ MemFS.mem_os)
                       MFatal MemFS.t0 MemFS.main_frames "stop"
                       Legacy.sample_logger MemFS.sample_mem eq_refl)
                e l1 w1 Ho)
      as [(_ & _ & ->) | (h & b & _ & _ & ->)]; exact I.
  - vm_compute in Ho. discriminate Ho.
Defined.

(** ** The package-level logger: splitting by size *)

Lemma quot_1024_gt (x L : Z) :
  0 <= x -> (L <? Z.quot x 1024) = true <-> 1024 * (L + 1) <= x.
Proof.
  intros Hx. rewrite Z.quot_div_nonneg by lia. rewrite Z.ltb_lt.
  pose proof (Z.div_mod x 1024 ltac:(lia)) as Hdm.
  pose proof (Z.mod_pos_bound x 1024 ltac:(lia)) as Hm.
  lia.
Qed.

(** X10: the size limit of the package-level logger.  With a file open
    for the current hour, [Output] asks for the next file of the hour
    exactly when the limit is positive and the size of the file together
    with the record to be written reaches 1024 times the limit plus one:
    the limit counts in units of 1024 bytes, rounded down, and takes in the
    record before it is written.  Otherwise the record is written to the
    open file, whose counter grows by the length of the record and, under
    a positive limit, stays below that bound. *)
Theorem legacy_size_rule :
  forall os Writer NewWriter Write Flush now frames skip s
         (l : Legacy.loggerT os Writer) (w : World os),
    Legacy.f l <> None ->
    Legacy.fname l = getLogFileName now 0 ->
    0 <= Legacy.nbytes l ->
    is_int64 (Legacy.nbytes l + len (Legacy.fill now frames skip s)) ->
    let b := Legacy.fill now frames skip s in
    let l0 := Legacy.mkLoggerT os Writer (Legacy.level l) (Legacy.logDir l)
                (Legacy.logSize l) (Legacy.flushPeriod l) b (Legacy.out l)
                (Legacy.f l) (Legacy.fname l) (Legacy.nbytes l)
                (Legacy.fid l) in
    let o := Legacy.Output os Writer NewWriter Write Flush now frames skip s
               l w in
    let full := 0 < Legacy.logSize l /\
                1024 * (Legacy.logSize l + 1) <= Legacy.nbytes l + len b in
    (Legacy.needFile os Writer (getLogFileName now 0) l0 = true <-> full) /\
    (~ full ->
       o = Legacy.writeOut os Writer Write l0 w /\
       forall e l1 w1,
         o = Legacy.Done (e, l1, w1) ->
         Legacy.nbytes l1 = Legacy.nbytes l + len b /\
         Legacy.fid l1 = Legacy.fid l /\ Legacy.fname l1 = Legacy.fname l /\
         Legacy.f l1 = Legacy.f l /\
         (0 < Legacy.logSize l ->
            Legacy.nbytes l1 < 1024 * (Legacy.logSize l + 1))) /\
    (full ->
       forall e l1 w1,
         o = Legacy.Done (e, l1, w1) ->
         Legacy.fid l1 = int32 (Legacy.fid l + 1) /\
         Legacy.fname l1 = Legacy.fname l).
Proof.
  intros os Writer NewWriter Write Flush now frames skip s l w Hf Hname Hn
    Hrange b l0 o full.
  assert (Hlen : 0 <= len b) by (unfold len; lia).
  assert (Hneed : Legacy.needFile os Writer (getLogFileName now 0) l0 = true
                  <-> full).
  { unfold Legacy.needFile, full. subst l0. simpl.
    rewrite (bool_decide_eq_false_2 _ Hf).
    rewrite bool_decide_eq_false_2 by (intros H; by apply H).
    simpl. fold b. rewrite int64_id by exact Hrange.
    rewrite andb_true_iff, Z.ltb_lt, quot_1024_gt by lia. reflexivity. }
  split; [exact Hneed |]. split.
  - intros Hnot.
    assert (Hfalse : Legacy.needFile os Writer (getLogFileName now 0) l0
                     = false).
    { destruct (Legacy.needFile os Writer (getLogFileName now 0) l0);
        [by destruct Hnot; apply Hneed | reflexivity]. }
    assert (Ho : o = Legacy.writeOut os Writer Write l0 w).
    { subst o. unfold Legacy.Output. fold b. fold l0. by rewrite Hfalse. }
    split; [exact Ho |].
    intros e l1 w1 Hd. rewrite Ho in Hd. unfold Legacy.writeOut in Hd.
    destruct (Legacy.out l0) as [wr |]; [| discriminate].
    destruct (Write wr (Legacy.buf l0) w) as [[[nn err] wr'] w2].
    injection Hd as <- <- <-. subst l0. simpl.
    rewrite int64_id by exact Hrange.
    split_and!; try reflexivity.
    intros Hpos. unfold full in Hnot. lia.
  - intros Hfull e l1 w1 Hd. apply Hneed in Hfull.
    subst o. unfold Legacy.Output in Hd. fold b in Hd. fold l0 in Hd.
    rewrite Hfull in Hd.
    unfold Legacy.createFile, Legacy.writeOut in Hd.
    subst l0.
    repeat case_match; simplify_eq; simpl in *; try done; auto;
      match goal with
      | H : bool_decide (_ <> _) = true |- _ =>
          apply bool_decide_eq_true in H; congruence
      end.
Qed.

(** The sample logger, without limit, takes a short record. *)
Lemma legacy_size_rule_witness :
  Legacy.Output MemFS.mem_os (Bufio.Writer MemFS.mem_os)
      (Bufio.NewWriter MemFS.mem_os) (Bufio.Write MemFS.mem_os)
      (Bufio.Flush_ MemFS.mem_os) MemFS.t0 MemFS.no_frames 3 "TRACE|cut"
    Legacy.sample_logger MemFS.sample_mem
  = Legacy.writeOut MemFS.mem_os (Bufio.Writer MemFS.mem_os)
      (Bufio.Write MemFS.mem_os)
      (Legacy.mkLoggerT MemFS.mem_os (Bufio.Writer MemFS.mem_os)
         WARN "logs" 0 5
         (Legacy.fill MemFS.t0 MemFS.no_frames 3 "TRACE|cut")
         (Some (Bufio.NewWriter MemFS.mem_os "logs/2024030709.log"))
         (Some "logs/2024030709.log") "2024030709.log" 80 0)
      MemFS.sample_mem.
Proof.
  refine (proj1 (proj1 (proj2 (legacy_size_rule MemFS.mem_os (Bufio.Writer MemFS.mem_os)
      (Bufio.NewWriter MemFS.mem_os) (Bufio.Write MemFS.mem_os)
      (Bufio.Flush_ MemFS.mem_os) MemFS.t0 MemFS.no_frames 3
                                 "TRACE|cut" Legacy.sample_logger
                                 MemFS.sample_mem _ _ _ _)) _)).
  - discriminate.
  - vm_compute. reflexivity.
  - vm_compute. discriminate.
  - vm_compute. split; discriminate.
  - vm_compute. intros [H _]. discriminate H.
Defined.


(** ** The package-level logger: files that cannot be opened or read *)

Lemma int32_succ_neq (k : Z) : int32 (k + 1) <> k.
Proof.
  unfold int32, wrap. intros H.
  pose proof (Z.mod_pos_bound (k + 1 + 2 ^ (32 - 1)) (2 ^ 32) ltac:(lia)) as Hb.
  pose proof (Z.div_mod (k + 1 + 2 ^ (32 - 1)) (2 ^ 32) ltac:(lia)) as Hdm.
  change (2 ^ (32 - 1)) with 2147483648 in *.
  change (2 ^ 32) with 4294967296 in *.
  lia.
Qed.

Lemma append_inj_l (a b c : string) : a +:+ b = a +:+ c -> b = c.
Proof.
  induction a as [| x a IH]; [by rewrite !append_nil_l |].
  rewrite !append_cons. intros H. injection H as H. by apply IH.
Qed.

Lemma append_neq_self (a b : string) : b <> EmptyString -> a +:+ b <> a.
Proof.
  intros Hb H. apply (f_equal String.length) in H.
  rewrite length_append in H. destruct b; [done | simpl in H; lia].
Qed.

(** X11: a file that cannot be opened is not tried again.  When [Output]
    of the package-level logger fails to open its file, the logger is left
    without file and writer; the next call in the same hour asks for the
    file with the following sequence id, a name different from the one
    that failed, and carries on there. *)
Theorem legacy_failed_open_moves_on :
  forall os Writer NewWriter Write Flush now frames skip s
         (l : Legacy.loggerT os Writer) (w : World os) err l1 w1,
    Legacy.Output os Writer NewWriter Write Flush now frames skip s l w
      = Legacy.Done (Some err, l1, w1) ->
    Legacy.f l1 = None ->
    let name := getLogFileName now 0 in
    let failed := if decide (Legacy.fname l = name)
                  then name +:+ ("." +:+ Sprintf_d (Legacy.fid l1))
                  else name in
    let next := name +:+ ("." +:+ Sprintf_d (int32 (Legacy.fid l1 + 1))) in
    (exists w0,
       OpenFile os (Join os (Legacy.logDir l) failed) w0 = (inr err, w1)) /\
    Legacy.out l1 = None /\ Legacy.fname l1 = name /\
    Legacy.logDir l1 = Legacy.logDir l /\
    next <> failed /\
    forall now' frames' skip' s' w',
      getLogFileName now' 0 = name ->
      match OpenFile os (Join os (Legacy.logDir l) next) w' with
      | (inr err2, w2) =>
          exists l2,
            Legacy.Output os Writer NewWriter Write Flush now' frames' skip'
              s' l1 w' = Legacy.Done (Some err2, l2, w2) /\
            Legacy.f l2 = None /\ Legacy.fid l2 = int32 (Legacy.fid l1 + 1)
      | (inl h, w2) =>
          forall e2 l2 w3,
            Legacy.Output os Writer NewWriter Write Flush now' frames' skip'
              s' l1 w' = Legacy.Done (e2, l2, w3) ->
            Legacy.f l2 = Some h /\ Legacy.fid l2 = int32 (Legacy.fid l1 + 1)
      end.
Proof.
  intros os Writer NewWriter Write Flush now frames skip s l w err l1 w1
    Ho Hf1 name failed next.
  assert (Hneq : next <> failed).
  { subst next failed. destruct (decide (Legacy.fname l = name)).
    - intros H. apply append_inj_l in H. rewrite !append_cons in H.
      injection H as H. rewrite !append_nil_l in H.
      apply Sprintf_d_inj in H. by apply int32_succ_neq in H.
    - apply append_neq_self. by rewrite append_cons. }
  assert (Hfirst :
    (exists w0,
       OpenFile os (Join os (Legacy.logDir l) failed) w0 = (inr err, w1)) /\
    Legacy.out l1 = None /\ Legacy.fname l1 = name /\
    Legacy.logDir l1 = Legacy.logDir l).
  { 
    unfold Legacy.Output, Legacy.createFile, Legacy.writeOut in Ho.
    repeat case_match; simplify_eq; simpl in *; try done;
      repeat match goal with
             | H : bool_decide _ = true |- _ => apply bool_decide_eq_true in H
             | H : bool_decide _ = false |- _ =>
                 apply bool_decide_eq_false in H
             end;
      try (exfalso; congruence).
    all: unfold failed, name in *.
    all: try (exfalso;
              match goal with
              | H : Legacy.needFile _ _ _ _ = false |- _ =>
                  unfold Legacy.needFile in H; simpl in H;
                  rewrite Hf1 in H; discriminate H
              end).
    all: destruct (decide (Legacy.fname l = getLogFileName now 0))
           as [Heq | Hne]; try congruence; try contradiction.
    all: split; [eexists; eassumption | by split_and!]. }
  destruct Hfirst as (Hopen & Hout & Hname & Hdir).
  split_and!; try assumption.
  intros now' frames' skip' s' w' Hhour.
  unfold Legacy.Output, Legacy.needFile, Legacy.createFile. simpl.
  rewrite Hf1, Hhour, Hname, Hdir. fold name.
  rewrite (bool_decide_eq_true_2 (None = None)) by reflexivity.
  simpl. case_bool_decide; [exfalso; auto |]. subst next.
  destruct (OpenFile os _ w') as [[h | err2] w2].
  - intros e2 l2 w3.
    destruct (FileStat os h w2) as [size | e3].
    + unfold Legacy.writeOut. simpl.
      match goal with
      | |- context [Write ?a ?b ?c] =>
          destruct (Write a b c) as [[[nn e4] wr] w4]
      end.
      intros Hd. by injection Hd as <- <- <-.
    + intros Hd. by injection Hd as <- <- <-.
  - eexists. split; [reflexivity |]. simpl. auto.
Qed.

(** The sample logger, its file closed, on a device that refuses the
    second file of the hour. *)
Lemma legacy_failed_open_moves_on_witness :
  exists w0,
    MemFS.openFile "logs/2024030709.log.1" w0
    = (inr ErrPermission,
       MemFS.mkMem (MemFS.files MemFS.sample_mem) ["logs/2024030709.log.1"]
         1000000).
Proof.
  refine (proj1 (legacy_failed_open_moves_on MemFS.mem_os (Bufio.Writer MemFS.mem_os)
      (Bufio.NewWriter MemFS.mem_os) (Bufio.Write MemFS.mem_os)
      (Bufio.Flush_ MemFS.mem_os) MemFS.t0
                   MemFS.no_frames 3 "TRACE|cut"
                   (Legacy.mkLoggerT MemFS.mem_os (Bufio.Writer MemFS.mem_os)
         WARN "logs" 0 5
                      EmptyString None None "2024030709.log" 0 0)
                   (MemFS.mkMem (MemFS.files MemFS.sample_mem)
                      ["logs/2024030709.log.1"] 1000000)
                   ErrPermission
                   (Legacy.mkLoggerT MemFS.mem_os (Bufio.Writer MemFS.mem_os)
         WARN "logs" 0 5
                      (Legacy.fill MemFS.t0 MemFS.no_frames 3 "TRACE|cut")
                      None None "2024030709.log" 0 1)
                   (MemFS.mkMem (MemFS.files MemFS.sample_mem)
                      ["logs/2024030709.log.1"] 1000000) _ _)).
  - vm_compute. reflexivity.
  - reflexivity.
Defined.

Lemma legacy_Output_keeps os Writer NewWriter Write Flush now frames skip s
    (l : Legacy.loggerT os Writer) w :
  Legacy.f l <> None ->
  Legacy.fname l = getLogFileName now 0 ->
  0 <= Legacy.nbytes l ->
  Legacy.nbytes l + len (Legacy.fill now frames skip s) < 1024 ->
  Legacy.Output os Writer NewWriter Write Flush now frames skip s l w
  = Legacy.writeOut os Writer Write
      (Legacy.mkLoggerT os Writer (Legacy.level l) (Legacy.logDir l)
         (Legacy.logSize l) (Legacy.flushPeriod l)
         (Legacy.fill now frames skip s) (Legacy.out l) (Legacy.f l)
         (Legacy.fname l) (Legacy.nbytes l) (Legacy.fid l))
      w.
Proof.
  intros Hf Hname Hn Hsmall.
  assert (H0 : 0 <= len (Legacy.fill now frames skip s))
    by (unfold len; lia).
  unfold Legacy.Output.
  replace (Legacy.needFile os Writer _ _) with false; [reflexivity |].
  symmetry. unfold Legacy.needFile. cbn [Legacy.f Legacy.fname Legacy.logSize
    Legacy.nbytes Legacy.buf].
  rewrite (bool_decide_eq_false_2 _ Hf).
  rewrite bool_decide_eq_false_2 by (intros H; by apply H).
  rewrite int64_id by (unfold is_int64, MinInt64, MaxInt64; lia).
  rewrite Z.quot_small by lia. simpl.
  destruct (0 <? Legacy.logSize l) eqn:E; [| reflexivity].
  apply Z.ltb_lt in E. simpl. apply Z.ltb_ge. lia.
Qed.

(** X12: a file whose size cannot be read.  When the package-level logger
    has no file and the file it opens does not report its size, [Output]
    returns that error without writing the record, although the file is
    open and has its writer, counted as empty; a later call in the same
    hour with a record of less than 1024 bytes writes to that file
    without opening another. *)
Theorem legacy_stat_error_drops_record :
  forall os Writer NewWriter Write Flush now frames skip s
         (l : Legacy.loggerT os Writer) (w : World os) h w1 err,
    Legacy.f l = None ->
    let name := getLogFileName now 0 in
    let target := if decide (Legacy.fname l = name)
                  then name +:+ ("." +:+ Sprintf_d (int32 (Legacy.fid l + 1)))
                  else name in
    OpenFile os (Join os (Legacy.logDir l) target) w = (inl h, w1) ->
    FileStat os h w1 = inr err ->
    exists l1,
      Legacy.Output os Writer NewWriter Write Flush now frames skip s l w
        = Legacy.Done (Some err, l1, w1) /\
      Legacy.f l1 = Some h /\ Legacy.out l1 = Some (NewWriter h) /\
      Legacy.nbytes l1 = 0 /\ Legacy.fname l1 = name /\
      Legacy.buf l1 = Legacy.fill now frames skip s /\
      forall now' frames' skip' s' w',
        getLogFileName now' 0 = name ->
        len (Legacy.fill now' frames' skip' s') < 1024 ->
        Legacy.Output os Writer NewWriter Write Flush now' frames' skip' s'
          l1 w'
        = Legacy.writeOut os Writer Write
            (Legacy.mkLoggerT os Writer (Legacy.level l1) (Legacy.logDir l1)
               (Legacy.logSize l1) (Legacy.flushPeriod l1)
               (Legacy.fill now' frames' skip' s') (Legacy.out l1)
               (Legacy.f l1) (Legacy.fname l1) (Legacy.nbytes l1)
               (Legacy.fid l1))
            w'.
Proof.
  intros os Writer NewWriter Write Flush now frames skip s l w h w1 err
    Hf name target Hopen Hstat.
  exists (Legacy.mkLoggerT os Writer (Legacy.level l) (Legacy.logDir l)
            (Legacy.logSize l) (Legacy.flushPeriod l)
            (Legacy.fill now frames skip s) (Some (NewWriter h)) (Some h)
            name 0
            (if decide (Legacy.fname l = name)
             then int32 (Legacy.fid l + 1) else 0)).
  split_and!; try reflexivity.
  - unfold Legacy.Output, Legacy.needFile, Legacy.createFile. simpl.
    rewrite Hf. rewrite (bool_decide_eq_true_2 (None = None)) by reflexivity.
    simpl. fold name. subst target.
    destruct (decide (Legacy.fname l = name)) as [Heq | Hne];
      case_bool_decide; try contradiction; simpl; rewrite Hopen, Hstat;
      [by rewrite Heq | reflexivity].
  - intros now' frames' skip' s' w' Hhour Hlen.
    apply legacy_Output_keeps; simpl; [discriminate | congruence | lia | lia].
Qed.

(** The logger without file on a device whose files cannot be read
    once opened. *)
Lemma legacy_stat_error_drops_record_witness :
  exists l1,
    Legacy.Output blind_os (Bufio.Writer blind_os)
      (Bufio.NewWriter blind_os) (Bufio.Write blind_os)
      (Bufio.Flush_ blind_os) MemFS.t0 MemFS.no_frames 3 "TRACE|cut"
      (closed_logger blind_os) MemFS.sample_mem
    = Legacy.Done (Some ErrPermission, l1,
                   snd (MemFS.openFile "logs/2024030709.log.1"
                          MemFS.sample_mem)) /\
    Legacy.f l1 = Some "logs/2024030709.log.1".
Proof.
  destruct (legacy_stat_error_drops_record blind_os (Bufio.Writer blind_os)
      (Bufio.NewWriter blind_os) (Bufio.Write blind_os)
      (Bufio.Flush_ blind_os) MemFS.t0 MemFS.no_frames 3
              "TRACE|cut" (closed_logger blind_os) MemFS.sample_mem
              "logs/2024030709.log.1"
              (snd (MemFS.openFile "logs/2024030709.log.1" MemFS.sample_mem))
              ErrPermission)
    as (l1 & Ho & Hf & _).
  - reflexivity.
  - vm_compute. reflexivity.
  - reflexivity.
  - exists l1. split; [exact Ho | exact Hf].
Defined.

(** ** A file whose size cannot be read *)

(** X13: the rotate logger writes to a file whose size it cannot read.
    When a logger made by [NewRotateLogger] opens a file in a rotation and
    the file does not report its size, the rotation still succeeds, the
    byte counter starts from zero, and [Output] writes the record and
    counts the bytes written from there. *)
Theorem rotate_ignores_stat_error :
  forall os L fh now frames skip s (l : RotateLogger os) (w : World os)
         l1 w1 h err,
    Reachable os L fh l ->
    decision os now l <> NoRotation ->
    rotateFile os now l w = (None, l1, w1) ->
    f l1 = Some h ->
    FileStat os h w1 = inr err ->
    nbytes l1 = 0 /\
    forall nn e w2,
      FileWrite os h (record fh now frames skip s (flags l1)) w1
        = ((nn, e), w2) ->
      exists l2,
        Output os fh now frames skip s l w = (e, l2, w2) /\
        f l2 = Some h /\ nbytes l2 = int64 nn.
Proof.
  intros os L fh now frames skip s l w l1 w1 h err Hr Hd Hrot Hf Hstat.
  pose proof (Reachable_consistent os L fh l Hr) as [Hzero _].
  assert (Hn : nbytes l1 = 0).
  { rewrite rotateFile_perform in Hrot.
    destruct (retarget_fields os (decision os now l) now l) as (Hrf & Hrn & _).
    assert (Hc : forall l0 w0,
              closeCurrent os (retarget os (decision os now l) now l) w
                = (l0, w0) ->
              createFile os l0 w0 = (None, l1, w1) -> nbytes l1 = 0).
    { intros l0 w0 Hcl Hc. apply createFile_file in Hc.
      destruct Hc as (h' & Hf' & _ & Hn').
      assert (h' = h) by congruence. subst h'. rewrite Hstat in Hn'.
      rewrite Hn'. unfold closeCurrent in Hcl. rewrite Hrf in Hcl.
      destruct (f l) as [h0 |].
      - by injection Hcl as <- _.
      - injection Hcl as <- _. rewrite Hrn. by apply Hzero. }
    destruct (decision os now l); simpl in Hrot; try congruence;
      destruct (closeCurrent os _ w) as [l0 w0] eqn:Hcl;
      by eapply Hc. }
  split; [exact Hn |].
  intros nn e w2 Hw.
  destruct (Output_counts os fh now frames skip s l w l1 w1 Hrot)
    as (h' & Hf' & Hstep).
  assert (h' = h) by congruence. subst h'.
  destruct (Hstep nn e w2 Hw) as (l2 & Ho & Hn2 & _ & _ & Hf2 & _).
  exists l2. split_and!; [exact Ho | exact Hf2 |].
  by rewrite Hn2, Hn.
Qed.

Lemma blind_reachable : Reachable blind_os 0 MemFS.header blind_logger.
Proof.
  apply (reach_New blind_os 0 MemFS.header "logs" WARN MemFS.t0
           MemFS.empty_mem blind_logger MemFS.fresh_mem).
  vm_compute. reflexivity.
Qed.

(** The first rotation of the next hour on the device whose files do not
    report their size. *)
Lemma rotate_ignores_stat_error_witness :
  nbytes (MemFS.logger_of (rotateFile blind_os MemFS.t1 blind_logger
                             MemFS.fresh_mem)) = 0.
Proof.
  refine (proj1 (rotate_ignores_stat_error blind_os 0 MemFS.header MemFS.t1
                   MemFS.main_frames 2 "WARN|next"
                   blind_logger MemFS.fresh_mem
                   (MemFS.logger_of (rotateFile blind_os MemFS.t1 blind_logger
                                       MemFS.fresh_mem))
                   (MemFS.world_of (rotateFile blind_os MemFS.t1 blind_logger
                                      MemFS.fresh_mem))
                   "logs/2024030710.log" ErrPermission
                   blind_reachable _ _ _ _)).
  - vm_compute. discriminate.
  - vm_compute. reflexivity.
  - vm_compute. reflexivity.
  - reflexivity.
Defined.

(** ** Timestamps *)

Lemma stamp_inj (t t' : Time) :
  wellFormedTime t -> wellFormedTime t' ->
  stamp t = stamp t' -> sameMicrosecond t t'.
Proof.
  intros (Hy & Hmo & Hd & Hh & Hmi & Hs & Hn)
    (Hy' & Hmo' & Hd' & Hh' & Hmi' & Hs' & Hn') Heq.
  unfold stamp in Heq.
  apply append_inj_length in Heq; [| by rewrite !length_fixed_digits].
  destruct Heq as [H1 Heq].
  apply append_inj_length in Heq; [| by rewrite !length_fixed_digits].
  destruct Heq as [H2 Heq].
  apply append_inj_length in Heq; [| by rewrite !length_fixed_digits].
  destruct Heq as [H3 Heq].
  apply append_inj_l in Heq.
  apply append_inj_length in Heq; [| by rewrite !length_fixed_digits].
  destruct Heq as [H4 Heq].
  apply append_inj_l in Heq.
  apply append_inj_length in Heq; [| by rewrite !length_fixed_digits].
  destruct Heq as [H5 Heq].
  apply append_inj_l in Heq.
  apply append_inj_length in Heq; [| by rewrite !length_fixed_digits].
  destruct Heq as [H6 Heq].
  apply append_inj_l in Heq.
  apply append_inj_length in Heq; [| by rewrite !length_fixed_digits].
  destruct Heq as [H7 _].
  assert (Hq : 0 <= Nanosecond t / 1000 < 10 ^ Z.of_nat 6).
  { split; [apply Z.div_pos; lia |].
    apply Z.div_lt_upper_bound; simpl; lia. }
  assert (Hq' : 0 <= Nanosecond t' / 1000 < 10 ^ Z.of_nat 6).
  { split; [apply Z.div_pos; lia |].
    apply Z.div_lt_upper_bound; simpl; lia. }
  apply fixed_digits_inj in H1; [| simpl; lia ..].
  apply fixed_digits_inj in H2; [| simpl; lia ..].
  apply fixed_digits_inj in H3; [| simpl; lia ..].
  apply fixed_digits_inj in H4; [| simpl; lia ..].
  apply fixed_digits_inj in H5; [| simpl; lia ..].
  apply fixed_digits_inj in H6; [| simpl; lia ..].
  apply fixed_digits_inj in H7; [| assumption ..].
  by split_and!.
Qed.

Lemma length_stamp (t : Time) : String.length (stamp t) = 25%nat.
Proof.
  unfold stamp. rewrite !length_append, !length_fixed_digits. reflexivity.
Qed.

(** X14: the timestamp of a header tells instants apart to the
    microsecond.  For well-formed timestamps, two headers made for the
    same caller and buffer are equal exactly when the timestamps agree in
    year, month, day, hour, minute, second and microsecond; the digits
    below the microsecond do not show. *)
Theorem header_stamp_resolution :
  forall (t t' : Time) (b file : string) (line : Z) (fn : string),
    wellFormedTime t -> wellFormedTime t' ->
    (formatHeader b t file line fn = formatHeader b t' file line fn
     <-> sameMicrosecond t t').
Proof.
  intros t t' b file line fn Hwf Hwf'.
  rewrite !formatHeader_stamp_location by assumption. split.
  - intros Heq. apply append_inj_l in Heq.
    apply append_inj_length in Heq; [| by rewrite !length_stamp].
    destruct Heq as [Heq _]. by apply stamp_inj.
  - intros (Hy & Hmo & Hd & Hh & Hmi & Hs & Hn).
    unfold stamp. by rewrite Hy, Hmo, Hd, Hh, Hmi, Hs, Hn.
Qed.

(** Two instants of one microsecond. *)
Lemma header_stamp_resolution_witness :
  formatHeader EmptyString MemFS.t1 "main.go" 17 "main.main"
  = formatHeader EmptyString (mkTime 2024 3 7 10 0 0 1000) "main.go" 17
      "main.main".
Proof.
  apply (header_stamp_resolution MemFS.t1 (mkTime 2024 3 7 10 0 0 1000)
           EmptyString "main.go" 17 "main.main").
  - unfold wellFormedTime. simpl. lia.
  - unfold wellFormedTime. simpl. lia.
  - unfold sameMicrosecond. simpl. split_and!; reflexivity.
Defined.

(** ** What a run leaves in a file *)

Lemma Output_plain_write os fh now frames skip s (l : RotateLogger os) w h :
  f l = Some h ->
  logSizeLimit l <= 0 ->
  bucketKey now = fname l ->
  Output os fh now frames skip s l w =
    let b := record fh now frames skip s (flags l) in
    let '((nn, err), w2) := FileWrite os h b w in
    (err, set_nbytes os (int64 (nbytes l + nn)) (set_buf os b l), w2).
Proof.
  intros Hf Hlim Hkey.
  assert (Hd : decision os now l = NoRotation).
  { apply (decision_cases os now l). split_and!.
    - by symmetry.
    - unfold sizeLimitReached. lia.
    - by rewrite Hf. }
  assert (Hrot : rotateFile os now l w = (None, l, w)).
  { by rewrite rotateFile_perform, Hd. }
  rewrite (Output_write_step os fh now frames skip s l w l w Hrot).
  by rewrite Hf.
Qed.

(** X15: nothing is lost or reordered within an hour.  On a device whose
    files take every write in full and keep it, a run of calls of
    [Output] in the hour of the open file, with splitting by size turned
    off, leaves the same file open, and the content of that file has grown
    by the records of the calls, one after the other in the order of the
    calls; the target of the logger does not move. *)
Theorem run_appends_records :
  forall os fh (content : File os -> World os -> string),
    appends_all os content ->
    forall (cs : list Call) (l : RotateLogger os) (w : World os) h,
      f l = Some h ->
      logSizeLimit l <= 0 ->
      (forall c, c ∈ cs -> bucketKey (c_now c) = fname l) ->
      let r := run os fh cs l w in
      f (fst r) = Some h /\
      content h (snd r) = content h w +:+ records_of fh (flags l) cs /\
      fname (fst r) = fname l /\ fid (fst r) = fid l.
Proof.
  intros os fh content Hkeep cs.
  induction cs as [| c cs IH]; intros l w h Hf Hlim Hhour r; subst r.
  - simpl. by rewrite append_nil_r.
  - simpl run. simpl records_of.
    rewrite (Output_plain_write os fh _ _ _ _ l w h Hf Hlim)
      by (apply Hhour, list_elem_of_here).
    cbv zeta.
    destruct (Hkeep h (record fh (c_now c) (c_frames c) (c_skip c) (c_msg c)
                         (flags l)) w) as (w' & Hw & Hc).
    rewrite Hw.
    match goal with
    | |- context [run os fh cs ?l1 w'] =>
        destruct (IH l1 w' h) as (IH1 & IH2 & IH3 & IH4);
          [exact Hf | exact Hlim
          | intros c' Hc'; apply Hhour; by apply list_elem_of_further |]
    end.
    simpl in IH2, IH3, IH4.
    rewrite IH1, IH2, Hc, append_assoc. auto.
Qed.

Lemma tape_appends_all : appends_all tape_os (fun h w => w h).
Proof.
  intros h b w. eexists. split; [reflexivity |].
  simpl. by rewrite String.eqb_refl.
Qed.

(** Two calls in the hour of the open file. *)
Lemma run_appends_records_witness :
  snd (run tape_os MemFS.header MemFS.two_calls tape_logger
         (fun _ => EmptyString)) "logs/2024030709.log"
  = EmptyString +:+ records_of MemFS.header 0 MemFS.two_calls.
Proof.
  refine (proj1 (proj2 (run_appends_records tape_os MemFS.header
                          (fun h w => w h) tape_appends_all MemFS.two_calls
                          tape_logger (fun _ => EmptyString)
                          "logs/2024030709.log" _ _ _))).
  - reflexivity.
  - simpl. lia.
  - intros c Hc. unfold MemFS.two_calls in Hc.
    apply elem_of_cons in Hc. destruct Hc as [-> | Hc]; [reflexivity |].
    apply elem_of_cons in Hc. destruct Hc as [-> | Hc]; [reflexivity |].
    by apply elem_of_nil in Hc.
Defined.

(** ** The package-level logger: the file and its writer *)

(** X16: the package-level logger never writes through a missing writer.
    [Output] and [Flush] fail on a missing writer only when the logger
    holds a file without a writer; [Output] returns on every logger that
    has a writer whenever it has a file, the logger before [Init] among
    them, and leaves such a logger again; it leaves the logger without
    file only when it returns an error. *)
Theorem legacy_Output_never_panics :
  forall os Writer NewWriter Write Flush now frames skip s
         (l : Legacy.loggerT os Writer) (w : World os),
    (Legacy.f l <> None -> Legacy.out l <> None) ->
    (exists e l1 w1,
       Legacy.Output os Writer NewWriter Write Flush now frames skip s l w
         = Legacy.Done (e, l1, w1) /\
       (Legacy.f l1 <> None -> Legacy.out l1 <> None) /\
       (Legacy.f l1 = None -> e <> None)) /\
    LegacyAPI.loggerFlush os Writer Flush l w <> Legacy.Panicked.
Proof.
  intros os Writer NewWriter Write Flush now frames skip s l w Hpair.
  split.
  - destruct (Legacy.Output os Writer NewWriter Write Flush now frames skip
                s l w) as [[[e l1] w1] |] eqn:Ho.
    + exists e, l1, w1. split; [reflexivity |]. split.
      * destruct (legacy_Output_open _ _ _ _ _ _ _ _ _ _ _ _ _ _ Ho)
          as [[Hf _] | (h & o & _ & Hout)]; [by rewrite Hf |].
        intros _. by rewrite Hout.
      * intros Hf1.
        unfold Legacy.Output, Legacy.createFile, Legacy.writeOut,
          Legacy.needFile in Ho.
        repeat case_match; simplify_eq; simpl in *; try done.
        destruct (Legacy.f l); [discriminate | done].
    + exfalso.
      unfold Legacy.Output, Legacy.createFile, Legacy.writeOut,
        Legacy.needFile in Ho.
      repeat case_match; simplify_eq; simpl in *;
        try (by apply Hpair).
      all: destruct (Legacy.f l) eqn:Hf; simpl in *;
        try discriminate; by apply Hpair.
  - unfold LegacyAPI.loggerFlush, LegacyAPI.flush.
    destruct (Legacy.f l) eqn:Hf; [| discriminate].
    destruct (Legacy.out l) eqn:Hout; [| by destruct Hpair].
    by destruct (Flush _ w).
Qed.

(** The logger without file, as before [Init]. *)
Lemma legacy_Output_never_panics_witness :
  LegacyAPI.loggerFlush MemFS.mem_os (Bufio.Writer MemFS.mem_os)
    (Bufio.Flush_ MemFS.mem_os)
    (closed_logger MemFS.mem_os) MemFS.sample_mem
  <> Legacy.Panicked.
Proof.
  refine (proj2 (legacy_Output_never_panics MemFS.mem_os (Bufio.Writer MemFS.mem_os)
      (Bufio.NewWriter MemFS.mem_os) (Bufio.Write MemFS.mem_os)
      (Bufio.Flush_ MemFS.mem_os) MemFS.t0
                   MemFS.no_frames 3 "TRACE|cut" (closed_logger MemFS.mem_os)
                   MemFS.sample_mem _)).
  intros H. exfalso. apply H. reflexivity.
Defined.
